(** * Verification of the weather-data pipeline: [fetch_data.c] and [crunch_data.c]

    The two C programs of [problem_1] are embedded as Rocq functions:

    - [fetch_data.c] downloads three text pages and merges them, line by
      line, into rows [date time air_temp barometric_press wind_speed];
    - [crunch_data.c] reads those rows, stores the three value columns in
      growing [float] arrays and prints mean and median of each column.

    C objects are modelled as the code uses them: a [char] buffer is a
    [list ascii], a [float] array a list of binary32 numbers, a pointer into
    a buffer an index into the list.  An access outside the object is
    undefined behaviour in C; the embedding makes it the explicit outcome
    [OutOfBounds].  [float] is IEEE-754 binary32 with every operation
    rounded to [float] (as on SSE targets), given by [SpecFloat] at
    precision 24.  [int] is a 32-bit two's-complement integer whose
    subtraction wraps around, which is what compilers produce where C
    leaves the overflow undefined.  Plain [char] is signed.

    A block of memory holds what was asked for and no more: a block of
    [bytes] bytes has room for [bytes / sizeof(float)] floats.  What the
    programs receive from their environment is a parameter of the
    embedding: whether [malloc] and [realloc] return a block, what
    [strtof] returns, the bytes that uninitialised objects hold, and what
    libcurl does in a transfer (whether there is a handle, the pieces it
    hands to [write_mem], and the code it ends with).

    The file has three parts: the embedding of the two programs, the
    vocabulary of the statements, and the properties: lemmas, the claims
    [C1] to [C10] of the specification, and further properties [X1] to
    [X21] of the code. *)

From Stdlib Require Import String Ascii ZArith QArith Qpower Qabs Qminmax.
From Stdlib Require Import List Bool Lia DecimalString.
From Stdlib Require Import Permutation Sorted SpecFloat.
Import ListNotations.

Set Implicit Arguments.

Close Scope Q_scope.
Close Scope Z_scope.
Open Scope nat_scope.

(** ** Outcomes of running C code *)

Inductive outcome (A : Type) : Type :=
| Ok (a : A)                         (* normal completion *)
| OutOfBounds                        (* read or write outside an object *)
| Exit (status : Z) (err : string).  (* fprintf(stderr,...); exit(status) *)

Arguments Ok {A} a.
Arguments OutOfBounds {A}.
Arguments Exit {A} status err.

Definition bind {A B : Type} (m : outcome A) (k : A -> outcome B) : outcome B :=
  match m with
  | Ok a => k a
  | OutOfBounds => OutOfBounds
  | Exit st err => Exit st err
  end.

Notation "x <- m ;; k" := (bind m (fun x => k))
  (at level 61, m at next level, right associativity).
Notation "' pat <- m ;; k" := (bind m (fun x => match x with pat => k end))
  (at level 61, pat pattern, m at next level, right associativity).

(** [*(v+n)] as an rvalue and as an lvalue. *)
Definition load {A : Type} (v : list A) (n : nat) : outcome A :=
  match nth_error v n with
  | Some x => Ok x
  | None => OutOfBounds
  end.

Definition store {A : Type} (v : list A) (n : nat) (x : A) : outcome (list A) :=
  if n <? length v then Ok (firstn n v ++ x :: skipn (S n) v) else OutOfBounds.

(** ** IEEE-754 binary32, the C type [float] *)

Module Float32.

Local Open Scope Z_scope.

Definition prec : Z := 24.
Definition emax : Z := 128.

Definition float32 : Type := spec_float.

(** The numbers a [float] object can hold. *)
Definition valid (f : float32) : bool := valid_binary prec emax f.

Definition is_finite (f : float32) : bool :=
  match f with
  | S754_zero _ | S754_finite _ _ _ => true
  | S754_infinity _ | S754_nan => false
  end.

Definition sign (f : float32) : bool :=
  match f with
  | S754_zero s | S754_infinity s | S754_finite s _ _ => s
  | S754_nan => false
  end.

Definition is_nan (f : float32) : bool :=
  match f with S754_nan => true | _ => false end.

Definition fzero : float32 := S754_zero false.
Definition fadd : float32 -> float32 -> float32 := SFadd prec emax.
Definition fmul : float32 -> float32 -> float32 := SFmul prec emax.
Definition fdiv : float32 -> float32 -> float32 := SFdiv prec emax.
Definition fopp : float32 -> float32 := SFopp.

(** Conversion [(float)n] of an [int], rounding to nearest even. *)
Definition of_int (n : Z) : float32 := binary_normalize prec emax n 0 false.

(** The binary32 number nearest to [m / 10^k], for [|m|] and [10^k] below
    [2^24]: the value of the decimal text [m] with [k] fractional digits,
    as [strtof] reads it. *)
Definition of_decimal (m : Z) (k : nat) : float32 :=
  fdiv (of_int m) (of_int (10 ^ Z.of_nat k)).

(** Powers of two as rationals, and the exact value of a finite number. *)
Definition Q2 (e : Z) : Q := Qpower 2 e.

Definition value (f : float32) : Q :=
  match f with
  | S754_finite s m e => (inject_Z (cond_Zopp s (Zpos m)) * Q2 e)%Q
  | _ => 0%Q
  end.

(** The object representation: sign bit, 8 exponent bits biased by 127
    and 23 fraction bits, read as an unsigned 32-bit number. *)
Definition sign_bit (s : bool) : Z := if s then 2 ^ 31 else 0.

Definition bits (f : float32) : Z :=
  match f with
  | S754_zero s => sign_bit s
  | S754_infinity s => sign_bit s + 255 * 2 ^ 23
  | S754_nan => 255 * 2 ^ 23 + 2 ^ 22
  | S754_finite s m e =>
      if 2 ^ 23 <=? Zpos m
      then sign_bit s + (e + 150) * 2 ^ 23 + (Zpos m - 2 ^ 23)
      else sign_bit s + Zpos m
  end.

(** [*(int * )p] on an object holding the 32-bit pattern [b]. *)
Definition as_int (b : Z) : Z := if b <? 2 ^ 31 then b else b - 2 ^ 32.

(** 32-bit [int] arithmetic: results wrap around modulo [2^32]. *)
Definition wrap_int (z : Z) : Z := (z + 2 ^ 31) mod 2 ^ 32 - 2 ^ 31.

Definition in_int_range (z : Z) : bool := (- 2 ^ 31 <=? z) && (z <? 2 ^ 31).

(** Numbers that are finite and carry no minus sign: [+0.0] and the
    positive normal and subnormal numbers. *)
Definition nonneg_finite (f : float32) : bool :=
  valid f && is_finite f && negb (sign f).

(** The value of [f] in units of [2^-149], the smallest positive
    binary32 number. *)
Definition scaled (f : float32) : Z :=
  match f with
  | S754_finite s m e => cond_Zopp s (Zpos m) * 2 ^ (e + 149)
  | _ => 0
  end.

End Float32.

Import Float32.

(** ** [qsort] of the C library

    The C standard fixes the interface of [qsort] and not its algorithm.
    The embedding sorts by insertion, looking only at the sign of what the
    comparison function returns.  Whenever the comparison function orders
    the elements consistently, every sorted arrangement is the same list
    (lemma [sorted_perm_unique] below), so nothing proved for such inputs
    depends on the algorithm. *)

Section Qsort.
Variable A : Type.
Variable cmp : A -> A -> Z.

Fixpoint insert (x : A) (l : list A) : list A :=
  match l with
  | [] => [x]
  | y :: l' => if (cmp x y <=? 0)%Z then x :: l else y :: insert x l'
  end.

Fixpoint isort (l : list A) : list A :=
  match l with
  | [] => []
  | x :: l' => insert x (isort l')
  end.

(** [qsort(v, c, size, cmp)]: the first [c] elements of [v] are sorted in
    place. *)
Definition qsort (v : list A) (c : nat) : outcome (list A) :=
  if c <=? length v then Ok (isort (firstn c v) ++ skipn c v) else OutOfBounds.
End Qsort.

(** ** [crunch_data.c] *)

Module crunch_data.

Definition NUL : ascii := Ascii.zero.
Definition newline : ascii := "010"%char.

(** [fgetc] hands back the byte [0xFF] as [255]; stored in the signed
    [char c] it becomes [-1], which is [EOF]. *)
Definition EOF_byte : ascii := ascii_of_nat 255.

(** [read_row]: characters up to the next newline (or [EOF]) are stored
    from the start of the 80-byte buffer; nothing terminates the text, so
    the buffer keeps what an earlier, longer line left behind.  The result
    is the number of characters stored, the buffer and the unread input. *)
Fixpoint read_row (stdin line_of_text : list ascii) (offset : nat)
  : outcome (nat * list ascii * list ascii) :=
  match stdin with
  | [] => Ok (offset, line_of_text, [])
  | c :: rest =>
      if Ascii.eqb c EOF_byte then Ok (offset, line_of_text, rest)
      else if Ascii.eqb c newline then Ok (offset, line_of_text, rest)
      else line' <- store line_of_text offset c ;;
           read_row rest line' (S offset)
  end.

(** [set_date]: the loop [for(x=0;x<10;x++)], then the terminator. *)
Definition underscore_to_hyphen (c : ascii) : ascii :=
  if Ascii.eqb c "_"%char then "-"%char else c.

Fixpoint set_date_loop (k x : nat) (row_string date_string : list ascii)
  : outcome (list ascii) :=
  match k with
  | 0 => Ok date_string
  | S k' =>
      c <- load row_string x ;;
      date' <- store date_string x (underscore_to_hyphen c) ;;
      set_date_loop k' (S x) row_string date'
  end.

Definition set_date (row_string date_string : list ascii) : outcome (list ascii) :=
  date' <- set_date_loop 10 0 row_string date_string ;;
  store date' 10 NUL.

(** [get_mean]: the loop [for(x=0;x<c;x++) total += *(v+x)] with [k]
    iterations left, then [total/c] with [c] converted to [float]. *)
Fixpoint get_mean_loop (v : list float32) (k x : nat) (total : float32)
  : outcome float32 :=
  match k with
  | 0 => Ok total
  | S k' =>
      f <- load v x ;;
      get_mean_loop v k' (S x) (fadd total f)
  end.

Definition get_mean (v : list float32) (c : nat) : outcome float32 :=
  total <- get_mean_loop v c 0 fzero ;;
  Ok (fdiv total (of_int (Z.of_nat c))).

(** [compare]: both objects are read as [int] and subtracted. *)
Definition compare (a b : float32) : Z :=
  wrap_int (as_int (bits a) - as_int (bits b)).

(** [get_median]: the array is sorted in place, then read at [c/2+1]
    (odd [c]) or at [c/2] and [c/2+1] (even [c]).  The result is the value
    returned together with the array as the call leaves it. *)
Definition get_median (v : list float32) (c : nat)
  : outcome (float32 * list float32) :=
  v' <- qsort compare v c ;;
  if negb (c mod 2 =? 0) then
    m <- load v' (c / 2 + 1) ;;
    Ok (m, v')
  else
    a <- load v' (c / 2) ;;
    b <- load v' (c / 2 + 1) ;;
    Ok (fdiv (fadd a b) (of_int 2), v').

(** Storage for the columns.  A block of [bytes] bytes holds
    [exact_slots bytes] floats; a byte left over holds none. *)
Definition sizeof_float : nat := 4.
Definition exact_slots (bytes : nat) : nat := bytes / sizeof_float.

Definition TABLE_OFFSET : nat := 19.

(** What [main] writes to [stderr] when [realloc] returns [NULL]. *)
Definition no_memory : string :=
  ("Unable to allocate memory for data storage." ++ String newline "")%string.

Section Main.
(** [strtof] of the C library on the bytes from its argument to the end
    of the array they are in: the value read at the start of the text and
    the text after it, or [OutOfBounds] when it reads on past the end of
    the array. *)
Variable strtof : list ascii -> outcome (float32 * list ascii).
(** What freshly allocated storage holds. *)
Variable junk : float32.
(** Whether the allocation for column [i] (0, 1, 2) made while row [n] is
    read returns a block. *)
Variable allocates : nat -> nat -> bool.

(** [malloc(bytes)]: a block of that size, or [NULL], which points to no
    object. *)
Definition malloc (ok : bool) (bytes : nat) : list float32 :=
  if ok then repeat junk (exact_slots bytes) else [].

(** [realloc(v, bytes)] when it returns a block: what [v] held, cut or
    filled up to the new size. *)
Definition realloc (v : list float32) (bytes : nat) : list float32 :=
  firstn (exact_slots bytes) v ++ repeat junk (exact_slots bytes - length v).

(** [process_row]: [r + TABLE_OFFSET] must point into the row buffer. *)
Definition process_row (n : nat) (r : list ascii) (air bar wind : list float32)
  : outcome (list float32 * list float32 * list float32) :=
  text <- (if TABLE_OFFSET <=? length r then Ok (skipn TABLE_OFFSET r)
           else OutOfBounds) ;;
  '(a, v2) <- strtof text ;;
  air' <- store air n a ;;
  '(b, v3) <- strtof v2 ;;
  bar' <- store bar n b ;;
  '(w, _) <- strtof v3 ;;
  wind' <- store wind n w ;;
  Ok (air', bar', wind').

Record state : Type := {
  stdin : list ascii;
  row : list ascii;            (* char row[80] *)
  date_string : list ascii;    (* char date_string[11] *)
  row_count : nat;
  air_temp : list float32;
  bar_press : list float32;
  wind_speed : list float32
}.

(** One evaluation of [while(read_row(row)) { ... }]: [None] when
    [read_row] returned 0 and the loop is left.  The result of [malloc] is
    not tested; after the three calls of [realloc] the program leaves if
    one of them returned [NULL]. *)
Definition loop_body (st : state) : outcome (option state) :=
  '(n, row', stdin') <- read_row (stdin st) (row st) 0 ;;
  if n =? 0 then Ok None
  else
    '(date', a, b, w) <-
      (if row_count st =? 0 then
         date' <- set_date row' (date_string st) ;;
         Ok (date',
             malloc (allocates 0 0) (sizeof_float * 1),
             malloc (allocates 0 1) (sizeof_float * 1),
             malloc (allocates 0 2) (sizeof_float * 1))
       else
         if allocates (row_count st) 0 && allocates (row_count st) 1
            && allocates (row_count st) 2
         then Ok (date_string st,
                  realloc (air_temp st) (row_count st * sizeof_float + 1),
                  realloc (bar_press st) (row_count st * sizeof_float + 1),
                  realloc (wind_speed st) (row_count st * sizeof_float + 1))
         else Exit 1 no_memory) ;;
    '(a', b', w') <- process_row (row_count st) row' a b w ;;
    Ok (Some {| stdin := stdin'; row := row'; date_string := date';
                row_count := S (row_count st);
                air_temp := a'; bar_press := b'; wind_speed := w' |}).

(** The state after [k] rows have been processed, [None] if the loop was
    left before. *)
Fixpoint rows (k : nat) (st : state) : outcome (option state) :=
  match k with
  | 0 => Ok (Some st)
  | S k' =>
      r <- rows k' st ;;
      match r with
      | Some st' => loop_body st'
      | None => Ok None
      end
  end.

(** The whole loop. *)
Fixpoint read_loop (fuel : nat) (st : state) : option (outcome state) :=
  match fuel with
  | 0 => None
  | S fuel' =>
      match loop_body st with
      | Ok (Some st') => read_loop fuel' st'
      | Ok None => Some (Ok st)
      | OutOfBounds => Some OutOfBounds
      | Exit s e => Some (Exit s e)
      end
  end.

(** [main] starts with [row_count = 0], the two buffers uninitialised
    and the three pointers not yet pointing anywhere. *)
Definition initial (input row0 date0 : list ascii) : state :=
  {| stdin := input; row := row0; date_string := date0; row_count := 0;
     air_temp := []; bar_press := []; wind_speed := [] |}.

Record summary : Type := {
  date : list ascii;
  air_mean : float32; air_median : float32;
  bar_mean : float32; bar_median : float32;
  wind_mean : float32; wind_median : float32
}.

(** The tabular report: mean, then median, of each column in turn.  (With
    [--json] both are arguments of one [printf] call, and C leaves the
    order of their evaluation open.) *)
Definition report (st : state) : outcome summary :=
  let c := row_count st in
  am <- get_mean (air_temp st) c ;;
  '(amd, _) <- get_median (air_temp st) c ;;
  bm <- get_mean (bar_press st) c ;;
  '(bmd, _) <- get_median (bar_press st) c ;;
  wm <- get_mean (wind_speed st) c ;;
  '(wmd, _) <- get_median (wind_speed st) c ;;
  Ok {| date := date_string st;
        air_mean := am; air_median := amd;
        bar_mean := bm; bar_median := bmd;
        wind_mean := wm; wind_median := wmd |}.

Definition main (input row0 date0 : list ascii) : option (outcome summary) :=
  match read_loop (S (length input)) (initial input row0 date0) with
  | Some (Ok st) => Some (report st)
  | Some OutOfBounds => Some OutOfBounds
  | Some (Exit s e) => Some (Exit s e)
  | None => None
  end.
End Main.

(** [strtof] on plain decimal text of up to seven digits: blanks, an
    optional sign, digits, an optional point and more digits, and then a
    character that belongs to none of these.  That is the form in which
    [fetch_data] writes its values.  Like the library function it looks at
    one character after another, so text that runs to the end of the array
    makes it read outside the array.  It instantiates the parameter
    [strtof] where a statement is run on a concrete input. *)
Definition is_space (c : ascii) : bool :=
  let n := nat_of_ascii c in (n =? 32) || ((9 <=? n) && (n <=? 13)).

Definition digit_of (c : ascii) : option Z :=
  let n := nat_of_ascii c in
  if (48 <=? n) && (n <=? 57) then Some (Z.of_nat (n - 48)) else None.

Fixpoint skip_spaces (s : list ascii) : outcome (list ascii) :=
  match s with
  | c :: s' => if is_space c then skip_spaces s' else Ok s
  | [] => OutOfBounds
  end.

(** Digits read so far as the number [acc]; [seen] counts them. *)
Fixpoint digits (s : list ascii) (acc : Z) (seen : nat)
  : outcome (Z * nat * list ascii) :=
  match s with
  | c :: s' =>
      match digit_of c with
      | Some d => digits s' (10 * acc + d)%Z (S seen)
      | None => Ok (acc, seen, s)
      end
  | [] => OutOfBounds
  end.

Definition strtof_decimal (s : list ascii) : outcome (float32 * list ascii) :=
  s1 <- skip_spaces s ;;
  let '(neg, s2) :=
    match s1 with
    | "-"%char :: t => (true, t)
    | "+"%char :: t => (false, t)
    | _ => (false, s1)
    end in
  '(ip, n1, s3) <- digits s2 0%Z 0 ;;
  '(m, n2, s4) <-
    match s3 with
    | "."%char :: t => digits t ip 0
    | _ => Ok (ip, 0, s3)
    end ;;
  if (n1 + n2 =? 0) then Ok (fzero, s)
  else
    let f := of_decimal m n2 in
    Ok ((if neg then fopp f else f), s4).

End crunch_data.

(** ** [fetch_data.c] *)

Module fetch_data.

Definition NUL : ascii := Ascii.zero.
Definition CR : ascii := "013"%char.
Definition LF : ascii := "010"%char.
Definition space : ascii := " "%char.

Definition VALUE_READ_OFFSET : nat := 19.

Record web_data : Type := { buffer : list ascii; size : nat }.

(** What the program writes to [stderr] before it leaves with
    [exit(1)]. *)
Definition no_buffer : string :=
  ("Unable to allocate buffer for web page storage." ++ String LF "")%string.
Definition no_curl : string :=
  ("Unable to initialize curl." ++ String LF "")%string.
Definition curl_failed (strerror : string) : string :=
  ("curl failed: " ++ strerror ++ String LF "")%string.

(** [write_mem]: the buffer is resized to [size + realsize + 1] bytes, the
    delivered bytes are copied to its end and a zero byte is put after
    them.  [allocated] tells whether [realloc] returned a block. *)
Definition write_mem (contents : list ascii) (allocated : bool) (mem : web_data)
  : outcome web_data :=
  if allocated
  then Ok {| buffer := firstn (size mem) (buffer mem) ++ contents ++ [NUL];
             size := size mem + length contents |}
  else Exit 1 no_buffer.

(** One transfer as [fetch_web_data] meets it: whether [curl_easy_init]
    returns a handle, the pieces for which [curl_easy_perform] calls
    [write_mem] (each with the success of its [realloc]), and the code
    [curl_easy_perform] returns, [None] for [CURLE_OK] and otherwise the
    text [curl_easy_strerror] has for it. *)
Record curl_transfer : Type := {
  handle : bool;
  pieces : list (list ascii * bool);
  result : option string
}.

(** The calls of [write_mem] in turn. *)
Fixpoint deliver (ps : list (list ascii * bool)) (mem : web_data)
  : outcome web_data :=
  match ps with
  | [] => Ok mem
  | (contents, allocated) :: ps' =>
      mem' <- write_mem contents allocated mem ;;
      deliver ps' mem'
  end.

(** [fetch_web_data]: a one-byte buffer to start with, then the transfer.
    The value returned is [size] of the result. *)
Definition fetch_web_data (junk : ascii) (t : curl_transfer) : outcome web_data :=
  let chunk := {| buffer := [junk]; size := 0 |} in
  if handle t then
    chunk' <- deliver (pieces t) chunk ;;
    match result t with
    | None => Ok chunk'
    | Some strerror => Exit 1 (curl_failed strerror)
    end
  else Exit 1 no_curl.

(** [isprint] in the C locale. *)
Definition isprint (c : ascii) : bool :=
  let n := nat_of_ascii c in (32 <=? n) && (n <=? 126).

(** The loop of [write_line], which writes characters while [isprint]
    accepts them, on the bytes from [text] to the end of the buffer: the
    characters written. *)
Fixpoint print_run (text : list ascii) : outcome (list ascii) :=
  match text with
  | [] => OutOfBounds
  | c :: text' =>
      if isprint c then (out <- print_run text' ;; Ok (c :: out)) else Ok []
  end.

(** [write_line(text, offset)] with [text] pointing [pos] bytes into
    [buf]: the characters written and the value returned. *)
Definition write_line (buf : list ascii) (pos offset : nat)
  : outcome (list ascii * nat) :=
  out <- print_run (skipn (pos + offset) buf) ;;
  Ok (out, offset + length out + 2).

(** The body of the merging loop at byte offset [output]: the text of the
    row and the number of bytes by which [output] advances. *)
Definition merge_row (air_temp barometric_press wind_speed : web_data)
           (output : nat) : outcome (list ascii * nat) :=
  '(l1, written) <- write_line (buffer air_temp) output 0 ;;
  '(l2, _) <- write_line (buffer barometric_press) output VALUE_READ_OFFSET ;;
  '(l3, _) <- write_line (buffer wind_speed) output VALUE_READ_OFFSET ;;
  Ok (l1 ++ space :: l2 ++ space :: l3 ++ [LF], written).

(** [while(output < bytes_read) { ... }], started at [output] with
    [stdout] already written: the final output and offset. *)
Fixpoint merge_loop (fuel : nat) (air_temp barometric_press wind_speed : web_data)
         (bytes_read output : nat) (stdout : list ascii)
  : option (outcome (list ascii * nat)) :=
  if output <? bytes_read then
    match fuel with
    | 0 => None
    | S fuel' =>
        match merge_row air_temp barometric_press wind_speed output with
        | Ok (text, written) =>
            merge_loop fuel' air_temp barometric_press wind_speed bytes_read
                       (output + written) (stdout ++ text)
        | OutOfBounds => Some OutOfBounds
        | Exit s e => Some (Exit s e)
        end
    end
  else Some (Ok (stdout, output)).

(** The characters of a buffer before its first zero byte. *)
Fixpoint c_string (b : list ascii) : list ascii :=
  match b with
  | [] => []
  | c :: b' => if Ascii.eqb c NUL then [] else c :: c_string b'
  end.

(** The string that starts a buffer, as a library function reads it: up
    to the first zero byte, and outside the buffer if it holds none. *)
Fixpoint string_at (b : list ascii) : outcome (list ascii) :=
  match b with
  | [] => OutOfBounds
  | c :: b' => if Ascii.eqb c NUL then Ok [] else (s <- string_at b' ;; Ok (c :: s))
  end.

(** [strstr(s, needle) != NULL] on strings. *)
Fixpoint starts_with (needle s : list ascii) : bool :=
  match needle, s with
  | [], _ => true
  | _ :: _, [] => false
  | a :: needle', b :: s' => Ascii.eqb a b && starts_with needle' s'
  end.

Fixpoint strstr (s needle : list ascii) : bool :=
  starts_with needle s ||
  match s with
  | [] => false
  | _ :: s' => strstr s' needle
  end.

(** What [main] writes to [stderr] when the first page is an error page. *)
Definition web_page_error : string :=
  ("Web page error reported." ++ String LF ("Confirm correct date." ++ String LF ""))%string.

(** The three transfers of [main] in their order, with the test of the
    first page between the first and the second. *)
Definition fetch_pages (junk : ascii) (air bar wind : curl_transfer)
  : outcome (web_data * web_data * web_data) :=
  air_temp <- fetch_web_data junk air ;;
  page <- string_at (buffer air_temp) ;;
  if strstr page (list_ascii_of_string "error.html")
  then Exit 1 web_page_error
  else
    barometric_press <- fetch_web_data junk bar ;;
    wind_speed <- fetch_web_data junk wind ;;
    Ok (air_temp, barometric_press, wind_speed).

(** [main] from the three transfers on; [bytes_read] is what the first
    call of [fetch_web_data] returns. *)
Definition main (junk : ascii) (air bar wind : curl_transfer)
  : option (outcome (list ascii)) :=
  match fetch_pages junk air bar wind with
  | Ok (air_temp, barometric_press, wind_speed) =>
      let bytes_read := size air_temp in
      match merge_loop (S bytes_read) air_temp barometric_press wind_speed
                       bytes_read 0 [] with
      | Some (Ok (stdout, _)) => Some (Ok stdout)
      | Some OutOfBounds => Some OutOfBounds
      | Some (Exit s e) => Some (Exit s e)
      | None => None
      end
  | OutOfBounds => Some OutOfBounds
  | Exit s e => Some (Exit s e)
  end.

(** *** The start of [main]: the date and the three addresses *)

Definition DATE_STRING_SEPARATOR : ascii := "_"%char.
Definition YEAR_OFFSET : nat := 31.
Definition DATE_OFFSET : nat := 36.
Definition YEAR_SIZE : nat := 4.
Definition DATE_SIZE : nat := 10.

(** A [char] array initialised from a string literal: the characters and
    the terminating zero byte. *)
Definition char_array (s : string) : list ascii := list_ascii_of_string s ++ [NUL].

Definition air_temp_address : list ascii :=
  char_array "http://lpo.dt.navy.mil/data/DM/2014/2014_01_01/Air_Temp".
Definition barometric_press_address : list ascii :=
  char_array "http://lpo.dt.navy.mil/data/DM/2014/2014_01_01/Barometric_Press".
Definition wind_speed_address : list ascii :=
  char_array "http://lpo.dt.navy.mil/data/DM/2014/2014_01_01/Wind_Speed".

(** The loop [for(x=0;x<n;x++) *(dst+at+x) = *(src+x)] with [k] iterations
    left. *)
Fixpoint copy_chars (k x : nat) (dst : list ascii) (at_ : nat) (src : list ascii)
  : outcome (list ascii) :=
  match k with
  | 0 => Ok dst
  | S k' =>
      c <- load src x ;;
      dst' <- store dst (at_ + x) c ;;
      copy_chars k' (S x) dst' at_ src
  end.

Definition set_address_date (address year date : list ascii) : outcome (list ascii) :=
  address' <- copy_chars YEAR_SIZE 0 address YEAR_OFFSET year ;;
  copy_chars DATE_SIZE 0 address' DATE_OFFSET date.

(** [isdigit] in the C locale. *)
Definition isdigit (c : ascii) : bool :=
  let n := nat_of_ascii c in (48 <=? n) && (n <=? 57).

Definition improper_date : string :=
  ("Improper date format: Use YYYYMMDD" ++ String LF "")%string.

(** The loop [for(a=0;a<8;a++)] that checks [argv[1][a]], with [k]
    iterations left. *)
Fixpoint check_date (k a : nat) (arg : list ascii) : outcome unit :=
  match k with
  | 0 => Ok tt
  | S k' =>
      c <- load arg a ;;
      if isdigit c then check_date k' (S a) arg else Exit 1 improper_date
  end.

(** The loop [for(a=0,b=0;a<10;a++,b++)] that writes [datestring]: at
    [a = 4] and [a = 7] the separator is written first and [a] moves on. *)
Fixpoint date_loop (fuel a b : nat) (datestring arg : list ascii)
  : option (outcome (list ascii * nat)) :=
  if a <? 10 then
    match fuel with
    | 0 => None
    | S fuel' =>
        match
          ('(d1, a1) <- (if (a =? 4) || (a =? 7)
                         then d <- store datestring a DATE_STRING_SEPARATOR ;;
                              Ok (d, S a)
                         else Ok (datestring, a)) ;;
           c <- load arg b ;;
           d2 <- store d1 a1 c ;;
           Ok (d2, a1))
        with
        | Ok (d2, a1) => date_loop fuel' (S a1) (S b) d2 arg
        | OutOfBounds => Some OutOfBounds
        | Exit s e => Some (Exit s e)
        end
    end
  else Some (Ok (datestring, a)).

(** The branch of [main] for a date given as [argv[1]]: the check, the
    year, the date string.  The result is [year] and [datestring]. *)
Definition date_given (arg year datestring : list ascii)
  : option (outcome (list ascii * list ascii)) :=
  match check_date 8 0 arg with
  | Ok _ =>
      match (y <- copy_chars 4 0 year 0 arg ;; store y 4 NUL) with
      | Ok year' =>
          match date_loop 10 0 0 datestring arg with
          | Some (Ok (d, a)) => Some (d' <- store d a NUL ;; Ok (year', d'))
          | Some OutOfBounds => Some OutOfBounds
          | Some (Exit s e) => Some (Exit s e)
          | None => None
          end
      | OutOfBounds => Some OutOfBounds
      | Exit s e => Some (Exit s e)
      end
  | OutOfBounds => Some OutOfBounds
  | Exit s e => Some (Exit s e)
  end.

(** The fields of [struct tm] that [main] reads. *)
Record tm : Type := { tm_year : Z; tm_mon : Z; tm_mday : Z }.

(** The conversion [%d] of [printf] with a minimum field width: the sign
    and the decimal digits, filled up on the left with blanks or, with the
    flag [0], with zeros after the sign. *)
Definition format_d (width : nat) (zero_flag : bool) (n : Z) : list ascii :=
  let sgn := if (n <? 0)%Z then ["-"%char] else [] in
  let ds := list_ascii_of_string (NilZero.string_of_int (Z.to_int (Z.abs n))) in
  let pad := width - (length sgn + length ds) in
  if zero_flag then sgn ++ repeat "0"%char pad ++ ds
  else repeat " "%char pad ++ sgn ++ ds.

(** [sprintf(buf, ...)]: the text and a zero byte are written from the
    start of [buf]. *)
Definition sprintf (buf text : list ascii) : outcome (list ascii) :=
  if length text <? length buf
  then Ok (text ++ NUL :: skipn (S (length text)) buf)
  else OutOfBounds.

(** The branch of [main] without arguments: today's date. *)
Definition date_today (today : tm) (year datestring : list ascii)
  : outcome (list ascii * list ascii) :=
  year' <- sprintf year (format_d 4 false (tm_year today + 1900)) ;;
  datestring' <- sprintf datestring
    (format_d 4 false (tm_year today + 1900) ++ "_"%char ::
     format_d 2 true (tm_mon today + 1) ++ "_"%char ::
     format_d 2 true (tm_mday today)) ;;
  Ok (year', datestring').

(** The text of [show_help]: [puts] ends each string with a newline. *)
Definition show_help : list ascii :=
  concat (map (fun s => list_ascii_of_string s ++ [LF])
    [("fetch_data" ++ String LF "Written by Dan Gookin, 2015" ++ String LF "")%string;
     "Fetches air temperature, barometric pressure, and wind speed data from"%string;
     ("http://lpo.dt.navy.mil/, Acoustic Research Dept. Lake Pend Oreille, ID"
        ++ String LF "")%string;
     "No options: Fetch current day's data (results may be incomplete)"%string;
     "YYYYMMDD    Fetch data for given date"%string;
     ("--help      Show this message" ++ String LF "")%string;
     "Output is in the format: Date Time Air_temp Bar_press Wind_speed"%string]).

Section Run.
(** How the transfer from an address goes, and what the uninitialised
    arrays [year], [datestring] hold. *)
Variable transfer : list ascii -> curl_transfer.
Variable junk : ascii.
Variables year0 datestring0 : list ascii.

(** The three addresses after [set_address_date]. *)
Definition addresses (year datestring : list ascii)
  : outcome (list ascii * list ascii * list ascii) :=
  a <- set_address_date air_temp_address year datestring ;;
  b <- set_address_date barometric_press_address year datestring ;;
  w <- set_address_date wind_speed_address year datestring ;;
  Ok (a, b, w).

(** All of [main]: [argv1] is [argv[1]] if [argc > 1].  After the help
    text the program leaves with [exit(0)], which ends the run as
    [return(0)] does. *)
Definition run (argv1 : option (list ascii)) (today : tm)
  : option (outcome (list ascii)) :=
  let dates :=
    match argv1 with
    | None => Some (inl (date_today today year0 datestring0))
    | Some arg =>
        if list_eq_dec ascii_dec (c_string arg) (list_ascii_of_string "--help")
        then Some (inr show_help)
        else option_map inl (date_given arg year0 datestring0)
    end in
  match dates with
  | None => None
  | Some (inr help) => Some (Ok help)
  | Some (inl (Ok (year, datestring))) =>
      match addresses year datestring with
      | Ok (a, b, w) =>
          main junk (transfer (c_string a)) (transfer (c_string b))
               (transfer (c_string w))
      | OutOfBounds => Some OutOfBounds
      | Exit s e => Some (Exit s e)
      end
  | Some (inl OutOfBounds) => Some OutOfBounds
  | Some (inl (Exit s e)) => Some (Exit s e)
  end.
End Run.

End fetch_data.

(** ** Vocabulary of the statements *)

(** The sum of a column as [get_mean] accumulates it: from [0.0], left to
    right, each addition rounded to [float]. *)
Definition fsum (v : list float32) : float32 := fold_left fadd v fzero.

(** The [int] that [compare] reads from a [float] object. *)
Definition int_key (f : float32) : Z := as_int (bits f).

(** The subtraction in [compare] stays within [int] on every pair of the
    column. *)
Definition no_wrap (l : list float32) : Prop :=
  forall x y, In x l -> In y l -> in_int_range (int_key x - int_key y) = true.

(** The tolerance of [get_mean]: half a unit in the last place of the
    quotient, which is [2^-24] of the sum where the quotient is a normal
    number and [2^-150] times the count where it is subnormal. *)
Definition tolerance (sum : Q) (count : Z) : Q :=
  Qmax (Qabs sum * Q2 (-24)) (inject_Z count * Q2 (-150)).

(** [located m N D l]: the fraction [N/D] lies in [[m, m+1)], at [m]
    itself ([loc_Exact]) or below, at or above the midpoint. *)
Definition located (m N D : Z) (l : location) : Prop :=
  (0 < D /\ m * D <= N < (m + 1) * D /\
  match l with
  | loc_Exact => N = m * D
  | loc_Inexact Lt => m * D < N /\ 2 * N < (2 * m + 1) * D
  | loc_Inexact Eq => 2 * N = (2 * m + 1) * D
  | loc_Inexact Gt => (2 * m + 1) * D < 2 * N
  end)%Z.


(** Ascending numeric order. *)
Definition value_le (a b : float32) : Prop := (value a <= value b)%Q.

(** A comparison function that follows the order of a key on the elements
    of [l], and a key that tells the elements of [l] apart. *)
Definition agrees {A : Type} (cmp : A -> A -> Z) (key : A -> Z) (l : list A) : Prop :=
  forall x y, In x l -> In y l -> ((cmp x y <= 0)%Z <-> (key x <= key y)%Z).

Definition key_le {A : Type} (key : A -> Z) (x y : A) : Prop := (key x <= key y)%Z.

Definition key_inj {A : Type} (key : A -> Z) (l : list A) : Prop :=
  forall x y, In x l -> In y l -> key x = key y -> x = y.

(** The three columns of [crunch_data] hold one value per row read. *)
Definition columns_in_step (st : crunch_data.state) : Prop :=
  length (crunch_data.air_temp st) = crunch_data.row_count st /\
  length (crunch_data.bar_press st) = crunch_data.row_count st /\
  length (crunch_data.wind_speed st) = crunch_data.row_count st.

(** A buffer as [write_mem] leaves it: [size] bytes of data and one more
    byte, which is zero once data has arrived. *)
Definition terminated (w : fetch_data.web_data) : Prop :=
  length (fetch_data.buffer w) = S (fetch_data.size w) /\
  (0 < fetch_data.size w ->
   nth_error (fetch_data.buffer w) (fetch_data.size w) = Some fetch_data.NUL).

(** A transfer that goes well: a handle, a block for every piece, and
    [CURLE_OK] at the end. *)
Definition delivered (ps : list (list ascii)) : fetch_data.curl_transfer :=
  {| fetch_data.handle := true;
     fetch_data.pieces := map (fun p => (p, true)) ps;
     fetch_data.result := None |}.

(** A page of lines, each closed by CR LF. *)
Definition crlf_lines (lines : list (list ascii)) : list ascii :=
  concat (map (fun l => l ++ [fetch_data.CR; fetch_data.LF]) lines).

Definition printable (l : list ascii) : Prop :=
  Forall (fun c => fetch_data.isprint c = true) l.

(** The run that [write_line] writes from [offset] of a buffer: printable
    characters up to one that [isprint] rejects. *)
Definition run_at (buf : list ascii) (offset : nat) (run : list ascii) : Prop :=
  exists c rest,
    skipn offset buf = run ++ c :: rest /\ printable run /\ fetch_data.isprint c = false.

(** The row that the merging loop writes from three runs. *)
Definition row_of (l1 l2 l3 : list ascii) : list ascii :=
  l1 ++ fetch_data.space :: l2 ++ fetch_data.space :: l3 ++ [fetch_data.LF].

(** Decimal literals of the examples. *)
Definition dec2 (hundredths : Z) : float32 := of_decimal hundredths 2.

(** Pages and rows of the examples. *)
Definition air_page : list ascii :=
  crlf_lines (map list_ascii_of_string
    ["2015_02_03 09:02:34 38.86"%string; "2015_02_03 09:07:34 39.00"%string;
     "2015_02_03 09:12:34 37.50"%string]).

Definition pressure_page : list ascii :=
  crlf_lines (map list_ascii_of_string
    ["2015_02_03 09:02:34 30.07"%string; "2015_02_03 09:07:34 29.91"%string;
     "2015_02_03 09:12:34 30.12"%string]).

Definition wind_page : list ascii :=
  crlf_lines (map list_ascii_of_string
    ["2015_02_03 09:02:34  3.00"%string; "2015_02_03 09:07:34  5.00"%string;
     "2015_02_03 09:12:34  1.00"%string]).

(** The pressure page cut off after its first line. *)
Definition short_pressure_page : list ascii :=
  crlf_lines [list_ascii_of_string "2015_02_03 09:02:34 30.07"].

(** The first two lines of the example pages closed by a line feed
    alone. *)
Definition lf_lines (lines : list string) : list ascii :=
  concat (map (fun l => list_ascii_of_string l ++ [fetch_data.LF]) lines).

Definition lf_air_page : list ascii :=
  lf_lines ["2015_02_03 09:02:34 38.86"%string; "2015_02_03 09:07:34 39.00"%string].

Definition lf_pressure_page : list ascii :=
  lf_lines ["2015_02_03 09:02:34 30.07"%string; "2015_02_03 09:07:34 29.91"%string].

Definition lf_wind_page : list ascii :=
  lf_lines ["2015_02_03 09:02:34  3.00"%string; "2015_02_03 09:07:34  5.00"%string].

Definition merged_rows : list ascii :=
  concat (map (fun l => list_ascii_of_string l ++ [crunch_data.newline])
    ["2015_02_03 09:02:34 38.86  30.07   3.00"%string;
     "2015_02_03 09:07:34 39.00  29.91   5.00"%string;
     "2015_02_03 09:12:34 37.50  30.12   1.00"%string]).

(** *** Rows read by [crunch_data] *)

(** A character that ends a row for [read_row]: the newline, or the byte
    [0xFF], which the signed [char c] turns into [EOF]. *)
Definition ends_row (c : ascii) : bool :=
  Ascii.eqb c crunch_data.EOF_byte || Ascii.eqb c crunch_data.newline.

Definition plain (line : list ascii) : Prop :=
  Forall (fun c => ends_row c = false) line.

(** Input made of lines, each closed by a newline. *)
Definition newline_lines (lines : list (list ascii)) : list ascii :=
  concat (map (fun l => l ++ [crunch_data.newline]) lines).

(** The row buffer after [line] has been read into it: the line, then what
    the buffer held before from there on. *)
Definition overlay (line buf : list ascii) : list ascii :=
  line ++ skipn (length line) buf.

(** The three values [process_row] reads from a row buffer, when the
    three calls of [strtof] return. *)
Definition row_values (strtof : list ascii -> outcome (float32 * list ascii))
           (buf : list ascii) : outcome (float32 * float32 * float32) :=
  text <- (if crunch_data.TABLE_OFFSET <=? length buf
           then Ok (skipn crunch_data.TABLE_OFFSET buf) else OutOfBounds) ;;
  '(a, v2) <- strtof text ;;
  '(b, v3) <- strtof v2 ;;
  '(w, _) <- strtof v3 ;;
  Ok (a, b, w).

(** The state of [main] after the first line has gone through the loop
    and has given the values [a], [b] and [w]. *)
Definition first_row (line : list ascii) (a b w : float32)
           (row0 date0 : list ascii) : crunch_data.state :=
  let buf := overlay line row0 in
  {| crunch_data.stdin := [];
     crunch_data.row := buf;
     crunch_data.date_string :=
       map crunch_data.underscore_to_hyphen (firstn 10 buf)
         ++ crunch_data.NUL :: skipn 11 date0;
     crunch_data.row_count := 1;
     crunch_data.air_temp := [a];
     crunch_data.bar_press := [b];
     crunch_data.wind_speed := [w] |}.

(** A state of [main] with other input left to read. *)
Definition with_stdin (input : list ascii) (st : crunch_data.state)
  : crunch_data.state :=
  {| crunch_data.stdin := input;
     crunch_data.row := crunch_data.row st;
     crunch_data.date_string := crunch_data.date_string st;
     crunch_data.row_count := crunch_data.row_count st;
     crunch_data.air_temp := crunch_data.air_temp st;
     crunch_data.bar_press := crunch_data.bar_press st;
     crunch_data.wind_speed := crunch_data.wind_speed st |}.

Definition blank : list ascii := [crunch_data.newline; crunch_data.newline].

(** Two inputs that differ only after a blank line. *)
Definition same_to_blank (i1 i2 : list ascii) : Prop :=
  (exists s r1 r2, i1 = s ++ blank ++ r1 /\ i2 = s ++ blank ++ r2) \/
  (exists r1 r2, i1 = crunch_data.newline :: r1 /\ i2 = crunch_data.newline :: r2).

(** Two states of [main] that differ only in input after a blank line. *)
Definition alike (st1 st2 : crunch_data.state) : Prop :=
  with_stdin [] st1 = with_stdin [] st2 /\
  same_to_blank (crunch_data.stdin st1) (crunch_data.stdin st2).

(** *** Numbers with a minus sign *)

(** Finite numbers that carry a minus sign: [-0.0] and the negative normal
    and subnormal numbers. *)
Definition negative_finite (f : float32) : bool :=
  valid f && is_finite f && sign f.

(** Descending numeric order. *)
Definition value_ge (a b : float32) : Prop := (value b <= value a)%Q.

(** *** Rows written by [fetch_data] *)

(** The three lines of a row: from the air page, the pressure page and the
    wind page. *)
Definition line_a (row : list ascii * list ascii * list ascii) : list ascii := fst (fst row).
Definition line_b (row : list ascii * list ascii * list ascii) : list ascii := snd (fst row).
Definition line_w (row : list ascii * list ascii * list ascii) : list ascii := snd row.

(** The row that the merging loop writes for three lines at the same
    offset. *)
Definition merged_row (row : list ascii * list ascii * list ascii) : list ascii :=
  let '(a, b, w) := row in
  a ++ fetch_data.space :: skipn fetch_data.VALUE_READ_OFFSET b
    ++ fetch_data.space :: skipn fetch_data.VALUE_READ_OFFSET w ++ [fetch_data.LF].

(** Three lines that the loop can read at one offset: printable, of one
    length, and long enough for the date and time. *)
Definition aligned (row : list ascii * list ascii * list ascii) : Prop :=
  let '(a, b, w) := row in
  printable a /\ printable b /\ printable w /\
  length b = length a /\ length w = length a /\
  fetch_data.VALUE_READ_OFFSET <= length a.

Definition error_html : list ascii := list_ascii_of_string "error.html".

(** The text of a merged row without its newline. *)
Definition merged_text (row : list ascii * list ascii * list ascii) : list ascii :=
  let '(a, b, w) := row in
  a ++ fetch_data.space :: skipn fetch_data.VALUE_READ_OFFSET b
    ++ fetch_data.space :: skipn fetch_data.VALUE_READ_OFFSET w.

(** *** Dates and addresses *)

(** The address of a page for the year [y], month [m] and day [d]. *)
Definition address_of (y m d : list ascii) (page : string) : list ascii :=
  list_ascii_of_string "http://lpo.dt.navy.mil/data/DM/"
    ++ y ++ "/"%char :: y ++ "_"%char :: m ++ "_"%char :: d
    ++ "/"%char :: list_ascii_of_string page.

Definition digit (c : ascii) : Prop := fetch_data.isdigit c = true.

(** Decimal digits: the character of a digit, and a number written with
    two and with four digits. *)
Definition digit_char (k : Z) : ascii := ascii_of_nat (48 + Z.to_nat k).

Definition two_digits (n : Z) : list ascii :=
  [digit_char (n / 10); digit_char (n mod 10)]%Z.

Definition four_digits (n : Z) : list ascii :=
  [digit_char (n / 1000); digit_char (n / 100 mod 10);
   digit_char (n / 10 mod 10); digit_char (n mod 10)]%Z.

(** A transfer that serves the example pages, and the third of February
    2015 as [localtime] reports it. *)
Definition example_transfer (address : list ascii) : fetch_data.curl_transfer :=
  if fetch_data.strstr address (list_ascii_of_string "Air_Temp")
  then delivered [air_page]
  else if fetch_data.strstr address (list_ascii_of_string "Barometric_Press")
       then delivered [pressure_page]
       else delivered [wind_page].

Definition example_day : fetch_data.tm :=
  {| fetch_data.tm_year := 115; fetch_data.tm_mon := 1; fetch_data.tm_mday := 3 |}.

(** * Properties *)

Unset Implicit Arguments.
Import crunch_data fetch_data.


(** ** Loads and stores *)

Lemma load_nth_error {A : Type} (v : list A) (n : nat) (x : A) :
  nth_error v n = Some x -> load v n = Ok x.
Proof. unfold load; intros ->; reflexivity. Qed.

Lemma load_out_of_bounds {A : Type} (v : list A) (n : nat) :
  length v <= n -> load v n = OutOfBounds.
Proof.
  intros H. unfold load.
  destruct (nth_error v n) eqn:E; [|reflexivity].
  apply nth_error_None in H. congruence.
Qed.

Lemma load_skipn {A : Type} (v : list A) (n : nat) (x : A) (t : list A) :
  skipn n v = x :: t -> load v n = Ok x.
Proof.
  revert v; induction n as [|n IH]; intros [|y v] H; simpl in H; try discriminate.
  - injection H as -> _. reflexivity.
  - apply (IH v H).
Qed.

Lemma store_in_bounds {A : Type} (v : list A) (n : nat) (x : A) :
  n < length v -> store v n x = Ok (firstn n v ++ x :: skipn (S n) v).
Proof.
  intros H. unfold store.
  destruct (Nat.ltb_spec n (length v)); [reflexivity | lia].
Qed.

Lemma store_length {A : Type} (v v' : list A) (n : nat) (x : A) :
  store v n x = Ok v' -> length v' = length v /\ n < length v.
Proof.
  unfold store. destruct (Nat.ltb_spec n (length v)) as [H|H]; [|discriminate].
  intros E. split; [|exact H].
  assert (v' = firstn n v ++ x :: skipn (S n) v) as -> by congruence.
  rewrite length_app, length_firstn. cbn [length]. rewrite length_skipn. lia.
Qed.

Lemma skipn_cons_nth {A : Type} (v : list A) (n : nat) :
  n < length v -> exists x, skipn n v = x :: skipn (S n) v.
Proof.
  revert v; induction n as [|n IH]; intros [|y v] H; simpl in H; try lia.
  - exists y; reflexivity.
  - destruct (IH v) as [x Hx]; [lia|]. exists x. exact Hx.
Qed.

Lemma firstn_update {A : Type} (v t : list A) (n : nat) (x : A) :
  n <= length v -> firstn (S n) (firstn n v ++ x :: t) = firstn n v ++ [x].
Proof.
  intros H.
  rewrite firstn_app, length_firstn, Nat.min_l by exact H.
  rewrite firstn_firstn, Nat.min_r by lia.
  replace (S n - n) with 1 by lia. reflexivity.
Qed.

Lemma skipn_update {A : Type} (v : list A) (n m : nat) (x : A) :
  n < length v -> n < m ->
  skipn m (firstn n v ++ x :: skipn (S n) v) = skipn m v.
Proof.
  intros H Hm.
  rewrite skipn_app, length_firstn, Nat.min_l by lia.
  rewrite skipn_firstn_comm.
  replace (n - m) with 0 by lia.
  replace (m - n) with (S (m - S n)) by lia.
  cbn [firstn app]. rewrite skipn_cons, skipn_skipn.
  f_equal. lia.
Qed.

(** ** [set_date] *)

Lemma set_date_loop_spec (k : nat) : forall (x : nat) (row_string date_string : list ascii),
  x + k <= length row_string -> x + k <= length date_string ->
  set_date_loop k x row_string date_string =
  Ok (firstn x date_string
        ++ map underscore_to_hyphen (firstn k (skipn x row_string))
        ++ skipn (x + k) date_string).
Proof.
  induction k as [|k IH]; intros x r d Hr Hd; cbn [set_date_loop].
  - simpl. rewrite Nat.add_0_r, firstn_skipn. reflexivity.
  - destruct (skipn_cons_nth r x) as [c Hc]; [lia|].
    rewrite (load_skipn _ _ _ _ Hc); cbn [bind].
    rewrite store_in_bounds by lia; cbn [bind].
    rewrite IH.
    + rewrite firstn_update by lia.
      rewrite skipn_update by lia.
      rewrite Hc. cbn [firstn map]. rewrite <- app_assoc.
      replace (S x + k) with (x + S k) by lia. reflexivity.
    + lia.
    + rewrite length_app, length_firstn. cbn [length]. rewrite length_skipn. lia.
Qed.

Lemma store_app {A : Type} (l t : list A) (x y : A) :
  store (l ++ y :: t) (length l) x = Ok (l ++ x :: t).
Proof.
  rewrite store_in_bounds by (rewrite length_app; simpl; lia).
  rewrite firstn_app, firstn_all, Nat.sub_diag. cbn [firstn].
  rewrite app_nil_r, skipn_app.
  rewrite skipn_all2 by lia.
  replace (S (length l) - length l) with 1 by lia. reflexivity.
Qed.

Lemma set_date_spec (row_string date_string : list ascii) :
  10 <= length row_string -> 11 <= length date_string ->
  set_date row_string date_string =
  Ok (map underscore_to_hyphen (firstn 10 row_string) ++ NUL :: skipn 11 date_string).
Proof.
  intros Hr Hd. unfold set_date.
  rewrite set_date_loop_spec by (simpl; lia). cbn [bind].
  change (firstn 0 date_string) with (@nil ascii).
  change (skipn 0 row_string) with row_string.
  change (0 + 10) with 10. cbn [app].
  destruct (skipn_cons_nth date_string 10) as [y Hy]; [lia|]. rewrite Hy.
  set (l := map underscore_to_hyphen (firstn 10 row_string)).
  assert (Hl : length l = 10).
  { unfold l. rewrite length_map, length_firstn. lia. }
  pose proof (store_app l (skipn 11 date_string) NUL y) as E.
  rewrite Hl in E. exact E.
Qed.

(** ** [get_mean] *)

Lemma get_mean_loop_spec (v : list float32) (k : nat) : forall (x : nat) (total : float32),
  x + k <= length v ->
  get_mean_loop v k x total = Ok (fold_left fadd (firstn k (skipn x v)) total).
Proof.
  induction k as [|k IH]; intros x total H; cbn [get_mean_loop].
  - reflexivity.
  - destruct (skipn_cons_nth v x) as [f Hf]; [lia|].
    rewrite (load_skipn _ _ _ _ Hf); cbn [bind].
    rewrite IH by lia. rewrite Hf. reflexivity.
Qed.

(** ** The reading loop of [crunch_data] *)

Section MainFacts.
Variable strtof : list ascii -> outcome (float32 * list ascii).
Variable junk : float32.
Variable allocates : nat -> nat -> bool.

Lemma exact_slots_first : exact_slots (sizeof_float * 1) = 1.
Proof. reflexivity. Qed.

(** The request for row [n] pays for [n] floats: the byte added to
    [n * sizeof(float)] holds none. *)
Lemma exact_slots_next (n : nat) : exact_slots (n * sizeof_float + 1) = n.
Proof.
  unfold exact_slots, sizeof_float.
  rewrite Nat.add_comm, Nat.div_add by discriminate. reflexivity.
Qed.

Lemma length_malloc (ok : bool) (bytes : nat) :
  length (malloc junk ok bytes) = if ok then exact_slots bytes else 0.
Proof. unfold malloc. destruct ok; [apply repeat_length | reflexivity]. Qed.

Lemma length_realloc (v : list float32) (bytes : nat) :
  length (realloc junk v bytes) = exact_slots bytes.
Proof.
  unfold realloc. rewrite length_app, length_firstn, repeat_length. lia.
Qed.

(** The block that [realloc] returns for row [n] is the column as it
    was. *)
Lemma realloc_same (v : list float32) :
  realloc junk v (length v * sizeof_float + 1) = v.
Proof.
  unfold realloc. rewrite exact_slots_next, firstn_all, Nat.sub_diag.
  apply app_nil_r.
Qed.

(** [process_row] returns only if element [n] lies in each array, and it
    leaves the arrays as long as they were. *)
Lemma process_row_in_bounds (n : nat) (r : list ascii) (air bar wind air' bar' wind' : list float32) :
  process_row strtof n r air bar wind = Ok (air', bar', wind') ->
  n < length air /\ n < length bar /\ n < length wind /\
  length air' = length air /\ length bar' = length bar /\ length wind' = length wind.
Proof.
  unfold process_row.
  destruct (TABLE_OFFSET <=? length r); cbn [bind]; [|discriminate].
  destruct (strtof (skipn TABLE_OFFSET r)) as [[a v2]| |]; cbn [bind]; try discriminate.
  destruct (store air n a) as [a1| |] eqn:Ea; cbn [bind]; try discriminate.
  destruct (strtof v2) as [[b v3]| |]; cbn [bind]; try discriminate.
  destruct (store bar n b) as [b1| |] eqn:Eb; cbn [bind]; try discriminate.
  destruct (strtof v3) as [[w v4]| |]; cbn [bind]; try discriminate.
  destruct (store wind n w) as [w1| |] eqn:Ew; cbn [bind]; try discriminate.
  intros [= <- <- <-].
  apply store_length in Ea, Eb, Ew. lia.
Qed.

(** A pass of the loop that stores a row starts with no row stored: the
    first row fills the three one-element blocks of [malloc], and the
    blocks of [realloc] have no element for a later row. *)
Lemma loop_body_first_row_only (st st' : state) :
  columns_in_step st ->
  loop_body strtof junk allocates st = Ok (Some st') ->
  row_count st = 0 /\ row_count st' = 1 /\ columns_in_step st'.
Proof.
  intros (Ha & Hb & Hw). unfold loop_body.
  destruct (read_row (stdin st) (row st) 0) as [[[n row'] stdin']| |]; cbn [bind]; try discriminate.
  destruct (n =? 0); [discriminate|].
  destruct (Nat.eqb_spec (row_count st) 0) as [Z|NZ].
  - destruct (set_date row' (date_string st)) as [date'| |]; cbn [bind]; try discriminate.
    destruct (process_row _ _ _ _ _ _) as [[[a' b'] w']| |] eqn:P; cbn [bind]; try discriminate.
    intros [= <-]. cbn [row_count air_temp bar_press wind_speed].
    apply process_row_in_bounds in P.
    rewrite !length_malloc, exact_slots_first in P.
    split; [exact Z|]. split; [rewrite Z; reflexivity|].
    unfold columns_in_step; cbn [row_count air_temp bar_press wind_speed]. rewrite Z.
    destruct (allocates 0 0), (allocates 0 1), (allocates 0 2); lia.
  - destruct (allocates (row_count st) 0 && allocates (row_count st) 1
              && allocates (row_count st) 2); cbn [bind]; [|discriminate].
    destruct (process_row _ _ _ _ _ _) as [[[a' b'] w']| |] eqn:P; cbn [bind]; try discriminate.
    apply process_row_in_bounds in P.
    rewrite !length_realloc, exact_slots_next in P. lia.
Qed.

Lemma loop_body_keeps_step (st st' : state) :
  columns_in_step st ->
  loop_body strtof junk allocates st = Ok (Some st') ->
  columns_in_step st'.
Proof.
  intros H E. apply (loop_body_first_row_only st st' H E).
Qed.

Lemma rows_in_step (input row0 date0 : list ascii) (k : nat) : forall st : state,
  rows strtof junk allocates k (initial input row0 date0) = Ok (Some st) ->
  row_count st = k /\ columns_in_step st /\ k <= 1.
Proof.
  induction k as [|k IH]; intros st; cbn [rows].
  - intros [= <-]. repeat split. lia.
  - destruct (rows strtof junk allocates k (initial input row0 date0)) as [[st0|]| |];
      cbn [bind]; try discriminate.
    intros E. destruct (IH st0 eq_refl) as (Hk & Hs & _).
    destruct (loop_body_first_row_only st0 st Hs E) as (Z & O & S).
    split; [lia|]. split; [exact S | lia].
Qed.
End MainFacts.


(** ** Binary32 numbers and their bit patterns *)

Lemma digits2_pos_size (m : positive) : digits2_pos m = Pos.size m.
Proof. induction m; simpl; congruence. Qed.

Lemma digits2_pos_bounds (m : positive) :
  (2 ^ (Zpos (digits2_pos m) - 1) <= Zpos m < 2 ^ Zpos (digits2_pos m))%Z.
Proof.
  rewrite digits2_pos_size.
  pose proof (Pos.size_gt m) as Hgt.
  pose proof (Pos.size_le m) as Hle.
  assert (E : Zpos (2 ^ Pos.size m) = (2 ^ Zpos (Pos.size m))%Z)
    by (rewrite Pos2Z.inj_pow; reflexivity).
  split.
  - assert (2 * 2 ^ (Zpos (Pos.size m) - 1) = 2 ^ Zpos (Pos.size m))%Z.
    { rewrite <- Z.pow_succ_r by lia. f_equal. lia. }
    assert (Zpos (2 ^ Pos.size m) <= Zpos m~0)%Z by exact Hle.
    lia.
  - rewrite <- E. exact Hgt.
Qed.

(** A valid finite number is subnormal, with exponent [-149] and less than
    24 mantissa bits, or normal, with exactly 24. *)
Lemma valid_finite_inv (s : bool) (m : positive) (e : Z) :
  valid (S754_finite s m e) = true ->
  ((Zpos m < 2 ^ 23 /\ e = -149) \/
   (2 ^ 23 <= Zpos m < 2 ^ 24 /\ -149 <= e <= 104))%Z.
Proof.
  unfold valid, valid_binary, bounded, canonical_mantissa, fexp, emin, prec, emax.
  intros H. apply andb_true_iff in H as [Hc He].
  apply Z.eqb_eq in Hc. apply Z.leb_le in He.
  pose proof (digits2_pos_bounds m) as [Hlo Hhi].
  set (d := Zpos (digits2_pos m)) in *.
  assert (Hd : (0 < d)%Z) by (unfold d; lia).
  destruct (Z.max_spec (d + e - 24) (3 - 128 - 24)) as [[Hlt Hm]|[Hge Hm]];
    rewrite Hm in Hc.
  - (* e = -149 and d <= 24 *)
    destruct (Z.eq_dec d 24) as [E|NE].
    + right. rewrite E in *. change (24 - 1)%Z with 23%Z in Hlo. lia.
    + left. split; [|lia].
      apply Z.lt_le_trans with (1 := Hhi).
      apply Z.pow_le_mono_r; lia.
  - (* d = 24 *)
    right. assert (E : d = 24%Z) by lia. rewrite E in *.
    change (24 - 1)%Z with 23%Z in Hlo. lia.
Qed.

Lemma pow2_22 : (2 ^ 22 = 4194304)%Z. Proof. reflexivity. Qed.
Lemma pow2_23 : (2 ^ 23 = 8388608)%Z. Proof. reflexivity. Qed.
Lemma pow2_24 : (2 ^ 24 = 16777216)%Z. Proof. reflexivity. Qed.
Lemma pow2_31 : (2 ^ 31 = 2147483648)%Z. Proof. reflexivity. Qed.
Lemma pow2_32 : (2 ^ 32 = 4294967296)%Z. Proof. reflexivity. Qed.

Ltac pow2 := rewrite ?pow2_22, ?pow2_23, ?pow2_24, ?pow2_31, ?pow2_32 in *.

Lemma valid_finite_range (s : bool) (m : positive) (e : Z) :
  valid (S754_finite s m e) = true ->
  (0 < Zpos m < 2 ^ 24 /\ -149 <= e <= 104 /\ (-149 < e -> 2 ^ 23 <= Zpos m))%Z.
Proof.
  intros H. apply valid_finite_inv in H. pow2. lia.
Qed.

(** The exponent field and the fraction field of a valid finite number add
    up to [(e + 149) * 2^23 + m], whether the number is normal or not. *)
Lemma bits_finite (s : bool) (m : positive) (e : Z) :
  valid (S754_finite s m e) = true ->
  bits (S754_finite s m e) = (sign_bit s + (e + 149) * 2 ^ 23 + Zpos m)%Z.
Proof.
  intros H. apply valid_finite_inv in H. unfold bits.
  destruct (Z.leb_spec (2 ^ 23) (Zpos m)); pow2; lia.
Qed.

(** The magnitude bits of a valid number. *)
Lemma bits_range (f : float32) :
  valid f = true ->
  (sign_bit (sign f) <= bits f < sign_bit (sign f) + 2 ^ 31)%Z.
Proof.
  intros Hv. destruct f as [s|s| |s m e].
  - unfold bits, sign. pow2. lia.
  - unfold bits, sign. pow2. lia.
  - unfold bits, sign, sign_bit. pow2. lia.
  - rewrite (bits_finite s m e Hv). apply valid_finite_range in Hv.
    unfold sign. pow2. lia.
Qed.

Lemma as_int_nonneg (f : float32) :
  valid f = true -> sign f = false ->
  as_int (bits f) = bits f /\ (0 <= bits f < 2 ^ 31)%Z.
Proof.
  intros Hv Hs. pose proof (bits_range f Hv) as H. rewrite Hs in H.
  unfold sign_bit in H. unfold as_int.
  destruct (Z.ltb_spec (bits f) (2 ^ 31)); lia.
Qed.

Lemma wrap_int_in_range (z : Z) :
  (- 2 ^ 31 <= z < 2 ^ 31)%Z -> wrap_int z = z.
Proof.
  intros H. unfold wrap_int. rewrite Z.mod_small; pow2; lia.
Qed.

(** The bit pattern determines the number. *)
Lemma bits_inj (f g : float32) :
  valid f = true -> valid g = true -> bits f = bits g -> f = g.
Proof.
  intros Hf Hg.
  destruct f as [s|s| |s m e]; destruct g as [s'|s'| |s' m' e'];
    try rewrite (bits_finite _ _ _ Hf); try rewrite (bits_finite _ _ _ Hg);
    try (apply valid_finite_range in Hf); try (apply valid_finite_range in Hg);
    unfold bits, sign_bit; intros H;
    repeat match goal with b : bool |- _ => destruct b end;
    pow2; try reflexivity; try (exfalso; lia).
  all: assert (e = e') by lia; assert (Zpos m = Zpos m') by lia; congruence.
Qed.

Lemma nonneg_finite_inv (f : float32) :
  nonneg_finite f = true ->
  valid f = true /\ sign f = false /\
  (f = S754_zero false \/ exists m e, f = S754_finite false m e).
Proof.
  unfold nonneg_finite. intros H.
  apply andb_true_iff in H as [H Hs]. apply andb_true_iff in H as [Hv Hf].
  apply negb_true_iff in Hs. repeat split; try assumption.
  destruct f as [s|s| |s m e]; simpl in *; try discriminate; subst.
  - left; reflexivity.
  - right; eauto.
Qed.

(** On non-negative finite numbers the subtraction in [compare] does not
    wrap around. *)
Lemma compare_nonneg_finite (a b : float32) :
  nonneg_finite a = true -> nonneg_finite b = true ->
  compare a b = (bits a - bits b)%Z.
Proof.
  intros Ha Hb.
  destruct (nonneg_finite_inv a Ha) as (Va & Sa & _).
  destruct (nonneg_finite_inv b Hb) as (Vb & Sb & _).
  destruct (as_int_nonneg a Va Sa) as [Ea Ra].
  destruct (as_int_nonneg b Vb Sb) as [Eb Rb].
  unfold compare. rewrite Ea, Eb. apply wrap_int_in_range. pow2. lia.
Qed.

(** Comparisons decided by inequalities. *)
Ltac by_order :=
  first [ apply Z.compare_eq_iff; nia
        | apply Z.compare_lt_iff; nia
        | apply Z.compare_gt_iff; nia ].

(** The IEEE comparison of two non-negative finite numbers is the
    comparison of their bit patterns. *)
Lemma SFcompare_bits (a b : float32) :
  nonneg_finite a = true -> nonneg_finite b = true ->
  SFcompare a b = Some (bits a ?= bits b)%Z.
Proof.
  intros Ha Hb.
  destruct (nonneg_finite_inv a Ha) as (Va & _ & [->|(m & e & ->)]);
  destruct (nonneg_finite_inv b Hb) as (Vb & _ & [->|(m' & e' & ->)]);
    try rewrite (bits_finite _ _ _ Va); try rewrite (bits_finite _ _ _ Vb);
    try (apply valid_finite_range in Va); try (apply valid_finite_range in Vb);
    cbn [SFcompare bits sign_bit]; try reflexivity; f_equal; symmetry; pow2.
  - by_order.
  - by_order.
  - change (Pos.compare_cont Eq m m') with (Zpos m ?= Zpos m')%Z.
    destruct (Z.compare_spec e e'); destruct (Z.compare_spec (Zpos m) (Zpos m'));
      by_order.
Qed.

Lemma SFcompare_compare (a b : float32) :
  nonneg_finite a = true -> nonneg_finite b = true ->
  SFcompare a b = Some (compare a b ?= 0)%Z.
Proof.
  intros Ha Hb. rewrite SFcompare_bits, compare_nonneg_finite by assumption.
  f_equal. apply Z.compare_sub.
Qed.

(** ** The exact value of a number and the order of bit patterns *)

Lemma value_scaled (f : float32) :
  valid f = true ->
  (value f == inject_Z (scaled f) * Q2 (-149))%Q.
Proof.
  intros Hv. destruct f as [s|s| |s m e]; try (simpl; ring).
  apply valid_finite_range in Hv.
  assert (He : (0 <= e + 149)%Z) by lia.
  unfold value, scaled, Q2.
  rewrite inject_Z_mult.
  rewrite (Zpower_Qpower 2 (e + 149) He).
  rewrite <- Qmult_assoc.
  rewrite <- Qpower_plus by discriminate.
  replace (e + 149 + -149)%Z with e by lia.
  reflexivity.
Qed.

Lemma Qcompare_scale (x y : Z) (c : Q) :
  (0 < c)%Q ->
  (inject_Z x * c ?= inject_Z y * c)%Q = (x ?= y)%Z.
Proof.
  intros Hc. destruct (Z.compare_spec x y) as [E|L|G].
  - subst. apply Qeq_alt. reflexivity.
  - apply Qlt_alt. apply Qmult_lt_compat_r; [exact Hc|].
    rewrite <- Zlt_Qlt. exact L.
  - apply Qgt_alt. apply Qmult_lt_compat_r; [exact Hc|].
    rewrite <- Zlt_Qlt. exact G.
Qed.

Lemma value_compare_scaled (a b : float32) :
  valid a = true -> valid b = true ->
  (value a ?= value b)%Q = (scaled a ?= scaled b)%Z.
Proof.
  intros Ha Hb.
  rewrite (Qcompare_comp _ _ (value_scaled a Ha) _ _ (value_scaled b Hb)).
  apply Qcompare_scale. reflexivity.
Qed.

(** A normal number with the larger exponent is the larger number. *)
Lemma normal_scaled_lt (m m' k k' : Z) :
  (0 < m < 2 ^ 24 -> 2 ^ 23 <= m' -> 0 <= k < k' ->
   m * 2 ^ k < m' * 2 ^ k')%Z.
Proof.
  intros Hm Hm' Hk.
  assert (P : (0 < 2 ^ k)%Z) by (apply Z.pow_pos_nonneg; lia).
  assert (S1 : (2 ^ (k + 1) <= 2 ^ k')%Z) by (apply Z.pow_le_mono_r; lia).
  rewrite Z.pow_add_r in S1 by lia. change (2 ^ 1)%Z with 2%Z in S1.
  pow2. nia.
Qed.

(** Among non-negative finite numbers the order of the values is the order
    of the bit patterns. *)
Lemma scaled_compare_bits (a b : float32) :
  nonneg_finite a = true -> nonneg_finite b = true ->
  (scaled a ?= scaled b)%Z = (bits a ?= bits b)%Z.
Proof.
  intros Ha Hb.
  destruct (nonneg_finite_inv a Ha) as (Va & _ & [->|(m & e & ->)]);
  destruct (nonneg_finite_inv b Hb) as (Vb & _ & [->|(m' & e' & ->)]);
    try rewrite (bits_finite _ _ _ Va); try rewrite (bits_finite _ _ _ Vb);
    try (apply valid_finite_range in Va); try (apply valid_finite_range in Vb);
    cbn [scaled bits sign_bit cond_Zopp].
  - reflexivity.
  - assert (0 < 2 ^ (e' + 149))%Z by (apply Z.pow_pos_nonneg; lia).
    transitivity Lt; [|symmetry]; pow2; by_order.
  - assert (0 < 2 ^ (e + 149))%Z by (apply Z.pow_pos_nonneg; lia).
    transitivity Gt; [|symmetry]; pow2; by_order.
  - assert (P : (0 < 2 ^ (e + 149))%Z) by (apply Z.pow_pos_nonneg; lia).
    destruct (Z.compare_spec e e') as [E|L|G].
    + subst e'.
      destruct (Z.compare_spec (Zpos m) (Zpos m')) as [E|L|G].
      * transitivity Eq; [|symmetry]; pow2; by_order.
      * transitivity Lt; [|symmetry]; pow2; by_order.
      * transitivity Gt; [|symmetry]; pow2; by_order.
    + assert (Zpos m * 2 ^ (e + 149) < Zpos m' * 2 ^ (e' + 149))%Z
        by (apply normal_scaled_lt; lia).
      transitivity Lt; [|symmetry]; pow2; by_order.
    + assert (Zpos m' * 2 ^ (e' + 149) < Zpos m * 2 ^ (e + 149))%Z
        by (apply normal_scaled_lt; lia).
      transitivity Gt; [|symmetry]; pow2; by_order.
Qed.

(** ** Sorting *)

Section SortFacts.
Variable A : Type.
Variable cmp : A -> A -> Z.
Variable key : A -> Z.

Lemma insert_perm (x : A) (l : list A) : Permutation (insert cmp x l) (x :: l).
Proof.
  induction l as [|y l IH]; simpl.
  - apply Permutation_refl.
  - destruct (cmp x y <=? 0)%Z.
    + apply Permutation_refl.
    + apply perm_trans with (y :: x :: l).
      * apply perm_skip, IH.
      * apply perm_swap.
Qed.

Lemma isort_perm (l : list A) : Permutation (isort cmp l) l.
Proof.
  induction l as [|x l IH]; simpl.
  - apply perm_nil.
  - apply perm_trans with (x :: isort cmp l).
    + apply insert_perm.
    + apply perm_skip, IH.
Qed.

Lemma agrees_perm (l l' : list A) :
  Permutation l l' -> agrees cmp key l -> agrees cmp key l'.
Proof.
  intros P H x y Hx Hy.
  apply H; apply Permutation_in with (l := l'); auto using Permutation_sym.
Qed.

Lemma agrees_tail (x : A) (l : list A) :
  agrees cmp key (x :: l) -> agrees cmp key l.
Proof. intros H a b Ha Hb. apply H; right; assumption. Qed.

Lemma insert_sorted (x : A) (l : list A) :
  agrees cmp key (x :: l) ->
  StronglySorted (key_le key) l ->
  StronglySorted (key_le key) (insert cmp x l).
Proof.
  intros Hag Hs. induction Hs as [|y l Hs IH Hall]; simpl.
  - constructor; constructor.
  - destruct (Z.leb_spec (cmp x y) 0) as [Hle|Hgt].
    + apply (Hag x y) in Hle; [|left; reflexivity|right; left; reflexivity].
      constructor.
      * constructor; assumption.
      * constructor; [exact Hle|].
        rewrite Forall_forall in Hall |- *. intros z Hz.
        unfold key_le in *. specialize (Hall z Hz). lia.
    + assert (Hyx : (key y <= key x)%Z).
      { destruct (Z.le_gt_cases (key x) (key y)) as [C|C]; [|lia].
        apply (Hag x y) in C; [lia|left; reflexivity|right; left; reflexivity]. }
      constructor.
      * apply IH. intros a b Ha Hb. apply Hag.
        -- destruct Ha as [->|Ha]; [left; reflexivity|right; right; exact Ha].
        -- destruct Hb as [->|Hb]; [left; reflexivity|right; right; exact Hb].
      * rewrite Forall_forall in Hall |- *. intros z Hz.
        apply (Permutation_in _ (insert_perm x l)) in Hz.
        destruct Hz as [<-|Hz]; [exact Hyx | apply Hall, Hz].
Qed.

Lemma isort_sorted (l : list A) :
  agrees cmp key l -> StronglySorted (key_le key) (isort cmp l).
Proof.
  induction l as [|x l IH]; intros Hag; simpl.
  - constructor.
  - apply insert_sorted.
    + apply agrees_perm with (l := x :: l); [|exact Hag].
      apply perm_skip, Permutation_sym, isort_perm.
    + apply IH, (agrees_tail x l Hag).
Qed.

(** A list has one sorted arrangement when its keys tell its elements
    apart. *)
Lemma sorted_perm_unique (l1 : list A) : forall l2 : list A,
  key_inj key l1 -> Permutation l1 l2 ->
  StronglySorted (key_le key) l1 -> StronglySorted (key_le key) l2 ->
  l1 = l2.
Proof.
  induction l1 as [|x l1 IH]; intros l2 Hinj P S1 S2.
  - apply Permutation_nil in P. congruence.
  - destruct l2 as [|y l2]; [apply Permutation_sym, Permutation_nil in P; discriminate|].
    inversion S1 as [|? ? S1' F1]; subst. inversion S2 as [|? ? S2' F2]; subst.
    rewrite Forall_forall in F1, F2.
    assert (Exy : x = y).
    { assert (Hy : In y (x :: l1))
        by (apply Permutation_in with (l := y :: l2);
            [apply Permutation_sym, P | left; reflexivity]).
      assert (Hx : In x (y :: l2))
        by (apply Permutation_in with (l := x :: l1); [exact P | left; reflexivity]).
      destruct Hy as [E|Hy]; [exact E|].
      destruct Hx as [E|Hx]; [symmetry; exact E|].
      apply Hinj; [left; reflexivity | right; exact Hy |].
      specialize (F1 y Hy). specialize (F2 x Hx). unfold key_le in *. lia. }
    subst y. f_equal.
    apply IH; try assumption.
    + intros a b Ha Hb. apply Hinj; right; assumption.
    + apply Permutation_cons_inv with (a := x). exact P.
Qed.

Lemma key_inj_perm (l l' : list A) :
  Permutation l l' -> key_inj key l -> key_inj key l'.
Proof.
  intros P H x y Hx Hy.
  apply H; apply Permutation_in with (l := l'); auto using Permutation_sym.
Qed.


Lemma isort_sorted_id (l : list A) :
  agrees cmp key l -> key_inj key l ->
  StronglySorted (key_le key) l -> isort cmp l = l.
Proof.
  intros Hag Hinj Hs. apply sorted_perm_unique.
  - apply key_inj_perm with (l := l); [apply Permutation_sym, isort_perm | exact Hinj].
  - apply isort_perm.
  - apply isort_sorted, Hag.
  - exact Hs.
Qed.
End SortFacts.


(** ** Buffers filled by [write_mem] *)

Lemma write_mem_terminated (contents : list ascii) (allocated : bool) (mem mem' : web_data) :
  length (buffer mem) = S (size mem) ->
  write_mem contents allocated mem = Ok mem' ->
  length (buffer mem') = S (size mem') /\
  nth_error (buffer mem') (size mem') = Some NUL.
Proof.
  intros H. unfold write_mem. destruct allocated; [|discriminate].
  intros [= <-]. cbn [buffer size]. split.
  - rewrite !length_app, length_firstn. simpl. lia.
  - rewrite app_assoc.
    rewrite nth_error_app2; rewrite length_app, length_firstn, Nat.min_l by lia; [|lia].
    rewrite Nat.sub_diag. reflexivity.
Qed.

Lemma deliver_terminated (ps : list (list ascii * bool)) : forall mem mem' : web_data,
  terminated mem -> deliver ps mem = Ok mem' -> terminated mem'.
Proof.
  induction ps as [|[contents allocated] ps IH]; intros mem mem' Hm; cbn [deliver].
  - intros [= <-]. exact Hm.
  - destruct (write_mem contents allocated mem) as [m1| |] eqn:W; cbn [bind];
      try discriminate.
    apply IH. destruct Hm as [Hl _].
    destruct (write_mem_terminated contents allocated mem m1 Hl W) as [L N].
    split; [exact L | intros _; exact N].
Qed.

Lemma fetch_web_data_terminated (junk : ascii) (t : curl_transfer) (w : web_data) :
  fetch_web_data junk t = Ok w -> terminated w.
Proof.
  unfold fetch_web_data. destruct (handle t); [|discriminate].
  destruct (deliver (pieces t) _) as [m| |] eqn:D; cbn [bind]; try discriminate.
  destruct (result t); [discriminate|]. intros [= <-].
  apply (deliver_terminated (pieces t) {| buffer := [junk]; size := 0 |} m); [|exact D].
  split; [reflexivity | cbn; lia].
Qed.

(** ** [write_line] *)

Lemma print_run_length (text out : list ascii) :
  print_run text = Ok out -> length out < length text.
Proof.
  revert out; induction text as [|c text IH]; intros out; cbn [print_run].
  - discriminate.
  - destruct (isprint c).
    + destruct (print_run text) as [o| |]; cbn [bind]; try discriminate.
      intros [= <-]. specialize (IH o eq_refl). simpl. lia.
    + intros [= <-]. simpl. lia.
Qed.

Lemma print_run_no_exit (text : list ascii) (s : Z) (e : string) :
  print_run text <> Exit s e.
Proof.
  induction text as [|c text IH]; cbn [print_run].
  - discriminate.
  - destruct (isprint c); [|discriminate].
    destruct (print_run text) as [o| |]; cbn [bind]; try discriminate.
    exact IH.
Qed.

Lemma print_run_line (line rest : list ascii) (c : ascii) :
  printable line -> isprint c = false ->
  print_run (line ++ c :: rest) = Ok line.
Proof.
  intros Hp Hc. induction Hp as [|x line Hx Hp IH]; cbn [app print_run].
  - rewrite Hc. reflexivity.
  - rewrite Hx, IH. reflexivity.
Qed.

Lemma write_line_out_of_bounds (buf : list ascii) (pos offset : nat) :
  length buf <= pos + offset -> write_line buf pos offset = OutOfBounds.
Proof.
  intros H. unfold write_line. rewrite skipn_all2 by exact H. reflexivity.
Qed.

Lemma write_line_advances (buf : list ascii) (pos offset : nat) (out : list ascii) (n : nat) :
  write_line buf pos offset = Ok (out, n) -> n = offset + length out + 2.
Proof.
  unfold write_line.
  destruct (print_run (skipn (pos + offset) buf)) as [o| |]; cbn [bind]; try discriminate.
  intros [= <- <-]. reflexivity.
Qed.

Lemma write_line_no_exit (buf : list ascii) (pos offset : nat) (s : Z) (e : string) :
  write_line buf pos offset <> Exit s e.
Proof.
  unfold write_line.
  destruct (print_run (skipn (pos + offset) buf)) as [o| |] eqn:E; cbn [bind]; try discriminate.
  exfalso. exact (print_run_no_exit _ _ _ E).
Qed.

(** ** The merging loop *)

Lemma merge_row_advances (air bar wind : web_data) (output : nat)
      (text : list ascii) (written : nat) :
  merge_row air bar wind output = Ok (text, written) -> 2 <= written.
Proof.
  unfold merge_row.
  destruct (write_line (buffer air) output 0) as [[l1 w1]| |] eqn:E1; cbn [bind]; try discriminate.
  destruct (write_line (buffer bar) output VALUE_READ_OFFSET) as [[l2 w2]| |]; cbn [bind]; try discriminate.
  destruct (write_line (buffer wind) output VALUE_READ_OFFSET) as [[l3 w3]| |]; cbn [bind]; try discriminate.
  intros [= _ <-]. apply write_line_advances in E1. lia.
Qed.

Lemma merge_row_no_exit (air bar wind : web_data) (output : nat) (s : Z) (e : string) :
  merge_row air bar wind output <> Exit s e.
Proof.
  unfold merge_row.
  destruct (write_line (buffer air) output 0) as [[l1 w1]| |] eqn:E1; cbn [bind];
    [| discriminate | exfalso; exact (write_line_no_exit _ _ _ _ _ E1)].
  destruct (write_line (buffer bar) output VALUE_READ_OFFSET) as [[l2 w2]| |] eqn:E2; cbn [bind];
    [| discriminate | exfalso; exact (write_line_no_exit _ _ _ _ _ E2)].
  destruct (write_line (buffer wind) output VALUE_READ_OFFSET) as [[l3 w3]| |] eqn:E3; cbn [bind];
    [| discriminate | exfalso; exact (write_line_no_exit _ _ _ _ _ E3)].
  discriminate.
Qed.

Lemma merge_row_out_of_bounds (air bar wind : web_data) (output : nat) :
  length (buffer bar) <= output + VALUE_READ_OFFSET \/
  length (buffer wind) <= output + VALUE_READ_OFFSET ->
  merge_row air bar wind output = OutOfBounds.
Proof.
  intros H. unfold merge_row.
  destruct (write_line (buffer air) output 0) as [[l1 w1]| |] eqn:E1; cbn [bind];
    [| reflexivity | exfalso; exact (write_line_no_exit _ _ _ _ _ E1)].
  destruct H as [H|H].
  - rewrite (write_line_out_of_bounds _ _ _ H). reflexivity.
  - destruct (write_line (buffer bar) output VALUE_READ_OFFSET) as [[l2 w2]| |] eqn:E2; cbn [bind];
      [| reflexivity | exfalso; exact (write_line_no_exit _ _ _ _ _ E2)].
    rewrite (write_line_out_of_bounds _ _ _ H). reflexivity.
Qed.

(** Fuel [bytes_read - output] is enough: every row advances [output]. *)
Lemma merge_loop_total (air bar wind : web_data) (bytes_read : nat) (fuel : nat) :
  forall (output : nat) (stdout : list ascii),
  bytes_read - output <= fuel ->
  exists r, merge_loop fuel air bar wind bytes_read output stdout = Some r /\
            forall out final, r = Ok (out, final) -> bytes_read <= final.
Proof.
  induction fuel as [|fuel IH]; intros output stdout Hf.
  - cbn [merge_loop]. destruct (Nat.ltb_spec output bytes_read) as [L|L]; [lia|].
    eexists; split; [reflexivity|]. intros out final [= _ <-]. exact L.
  - cbn [merge_loop]. destruct (Nat.ltb_spec output bytes_read) as [L|L].
    + destruct (merge_row air bar wind output) as [[text written]| |] eqn:E.
      * apply merge_row_advances in E. apply IH. lia.
      * eexists; split; [reflexivity|]. discriminate.
      * eexists; split; [reflexivity|]. discriminate.
    + eexists; split; [reflexivity|]. intros out final [= _ <-]. exact L.
Qed.

Lemma length_crlf_lines_cons (line : list ascii) (lines : list (list ascii)) :
  length (crlf_lines (line :: lines)) = length line + 2 + length (crlf_lines lines).
Proof.
  unfold crlf_lines. cbn [map concat]. rewrite !length_app. simpl. lia.
Qed.


(** ** Columns of floats under [compare] *)

Lemma in_int_range_spec (z : Z) :
  in_int_range z = true <-> (- 2 ^ 31 <= z < 2 ^ 31)%Z.
Proof.
  unfold in_int_range. rewrite andb_true_iff, Z.leb_le, Z.ltb_lt. reflexivity.
Qed.

Lemma no_wrap_agrees (l : list float32) :
  no_wrap l -> agrees compare int_key l.
Proof.
  intros H x y Hx Hy. specialize (H x y Hx Hy).
  apply in_int_range_spec in H.
  unfold compare. fold (int_key x) (int_key y).
  rewrite wrap_int_in_range by exact H. lia.
Qed.

Lemma int_key_inj (f g : float32) :
  valid f = true -> valid g = true -> int_key f = int_key g -> f = g.
Proof.
  intros Hf Hg H. apply bits_inj; try assumption.
  pose proof (bits_range f Hf) as Rf. pose proof (bits_range g Hg) as Rg.
  revert H. unfold int_key, as_int.
  destruct (Z.ltb_spec (bits f) (2 ^ 31)); destruct (Z.ltb_spec (bits g) (2 ^ 31));
    revert Rf Rg; unfold sign_bit; destruct (sign f), (sign g); pow2; lia.
Qed.

Lemma valid_key_inj (l : list float32) :
  Forall (fun f => valid f = true) l -> key_inj int_key l.
Proof.
  intros H x y Hx Hy. rewrite Forall_forall in H.
  apply int_key_inj; auto.
Qed.

Lemma nonneg_finite_valid (l : list float32) :
  Forall (fun f => nonneg_finite f = true) l -> Forall (fun f => valid f = true) l.
Proof.
  apply Forall_impl. intros f H. apply (nonneg_finite_inv f H).
Qed.

Lemma nonneg_finite_no_wrap (l : list float32) :
  Forall (fun f => nonneg_finite f = true) l -> no_wrap l.
Proof.
  intros H x y Hx Hy. rewrite Forall_forall in H.
  destruct (nonneg_finite_inv x (H x Hx)) as (Vx & Sx & _).
  destruct (nonneg_finite_inv y (H y Hy)) as (Vy & Sy & _).
  destruct (as_int_nonneg x Vx Sx) as [Ex Rx].
  destruct (as_int_nonneg y Vy Sy) as [Ey Ry].
  apply in_int_range_spec. unfold int_key. rewrite Ex, Ey. pow2. lia.
Qed.

(** Among non-negative finite numbers the order of the [int] keys is the
    numeric order. *)
Lemma value_compare_compare (a b : float32) :
  nonneg_finite a = true -> nonneg_finite b = true ->
  (value a ?= value b)%Q = (compare a b ?= 0)%Z.
Proof.
  intros Ha Hb.
  destruct (nonneg_finite_inv a Ha) as (Va & _ & _).
  destruct (nonneg_finite_inv b Hb) as (Vb & _ & _).
  rewrite value_compare_scaled, scaled_compare_bits by assumption.
  rewrite compare_nonneg_finite by assumption. apply Z.compare_sub.
Qed.

Lemma key_le_value_le (a b : float32) :
  nonneg_finite a = true -> nonneg_finite b = true ->
  key_le int_key a b -> value_le a b.
Proof.
  intros Ha Hb H. unfold value_le. apply Qle_alt.
  rewrite value_compare_compare by assumption.
  destruct (nonneg_finite_inv a Ha) as (Va & Sa & _).
  destruct (nonneg_finite_inv b Hb) as (Vb & Sb & _).
  destruct (as_int_nonneg a Va Sa) as [Ea _].
  destruct (as_int_nonneg b Vb Sb) as [Eb _].
  rewrite compare_nonneg_finite by assumption.
  unfold key_le, int_key in H. rewrite Ea, Eb in H.
  apply Z.compare_le_iff. lia.
Qed.

Lemma StronglySorted_impl_in {A : Type} (R R' : A -> A -> Prop) (l : list A) :
  (forall x y, In x l -> In y l -> R x y -> R' x y) ->
  StronglySorted R l -> StronglySorted R' l.
Proof.
  intros H S. induction S as [|x l S IH F].
  - constructor.
  - constructor.
    + apply IH. intros a b Ha Hb. apply H; right; assumption.
    + rewrite Forall_forall in F |- *. intros y Hy.
      apply H; [left; reflexivity | right; exact Hy | apply F, Hy].
Qed.

(** Whatever the column, [qsort] returns and leaves the same elements. *)
Lemma qsort_whole_column (v : list float32) :
  qsort compare v (length v) = Ok (isort compare v).
Proof.
  unfold qsort. rewrite Nat.leb_refl, firstn_all, skipn_all, app_nil_r. reflexivity.
Qed.

Lemma isort_nonneg_finite_ascending (v : list float32) :
  Forall (fun f => nonneg_finite f = true) v ->
  StronglySorted value_le (isort compare v).
Proof.
  intros H.
  apply StronglySorted_impl_in with (R := key_le int_key).
  - assert (H' : Forall (fun f => nonneg_finite f = true) (isort compare v)).
    { rewrite Forall_forall in H |- *. intros x Hx. apply H.
      apply Permutation_in with (l := isort compare v); [apply isort_perm | exact Hx]. }
    rewrite Forall_forall in H'.
    intros x y Hx Hy. apply key_le_value_le; auto.
  - apply isort_sorted, no_wrap_agrees, nonneg_finite_no_wrap, H.
Qed.

Lemma get_median_array (v : list float32) (m : float32) (v' : list float32) :
  get_median v (length v) = Ok (m, v') -> v' = isort compare v.
Proof.
  unfold get_median. rewrite qsort_whole_column; cbn [bind].
  destruct (negb (length v mod 2 =? 0)).
  - destruct (load (isort compare v) (length v / 2 + 1)) as [x| |]; cbn [bind]; try discriminate.
    intros [= _ <-]. reflexivity.
  - destruct (load (isort compare v) (length v / 2)) as [x| |]; cbn [bind]; try discriminate.
    destruct (load (isort compare v) (length v / 2 + 1)) as [y| |]; cbn [bind]; try discriminate.
    intros [= _ <-]. reflexivity.
Qed.

(** The patterns of [30.07f], [2.0f] and [-1.0f]. *)
Example bits_examples :
  bits (dec2 3007) = 0x41f08f5c%Z /\ bits (of_int 2) = 0x40000000%Z /\
  bits (of_int (-1)) = 0xbf800000%Z /\ as_int (bits (of_int (-1))) = (-0x40800000)%Z.
Proof. repeat split. Qed.

(** ** Termination of the reading loop *)

Lemma read_row_consumes (stdin : list ascii) : forall (line : list ascii) (offset n : nat)
    (line' stdin' : list ascii),
  read_row stdin line offset = Ok (n, line', stdin') ->
  offset <= n /\ length stdin' + (n - offset) <= length stdin.
Proof.
  induction stdin as [|c rest IH]; intros line offset n line' stdin'; cbn [read_row].
  - intros [= <- _ <-]. simpl. lia.
  - destruct (Ascii.eqb c EOF_byte); [intros [= <- _ <-]; simpl; lia|].
    destruct (Ascii.eqb c newline); [intros [= <- _ <-]; simpl; lia|].
    destruct (store line offset c) as [l1| |]; cbn [bind]; try discriminate.
    intros H. apply IH in H. simpl. lia.
Qed.

Section ReadLoop.
Variable strtof : list ascii -> outcome (float32 * list ascii).
Variable junk : float32.
Variable allocates : nat -> nat -> bool.

(** A pass of the loop that stores a row has read a line of at least one
    character. *)
Lemma loop_body_reads (st st' : state) :
  loop_body strtof junk allocates st = Ok (Some st') ->
  exists n, n <> 0 /\
    read_row (stdin st) (row st) 0 = Ok (n, row st', stdin st').
Proof.
  unfold loop_body.
  destruct (read_row (stdin st) (row st) 0) as [[[n row'] stdin']| |] eqn:R;
    cbn [bind]; try discriminate.
  destruct (Nat.eqb_spec n 0) as [Z|NZ]; [discriminate|].
  match goal with
  | |- bind ?m _ = _ -> _ => destruct m as [[[[date' a] b] w]| |]
  end; cbn [bind]; try discriminate.
  destruct (process_row strtof (row_count st) row' a b w) as [[[a' b'] w']| |];
    cbn [bind]; try discriminate.
  intros [= <-]. exists n. split; [exact NZ | reflexivity].
Qed.

Lemma loop_body_consumes (st st' : state) :
  loop_body strtof junk allocates st = Ok (Some st') ->
  length (stdin st') < length (stdin st).
Proof.
  intros H. destruct (loop_body_reads st st' H) as (n & NZ & R).
  apply read_row_consumes in R. lia.
Qed.

(** The loop of [main] ends on every input: fuel beyond the length of the
    input is never used up. *)
Lemma read_loop_total (fuel : nat) : forall st : state,
  length (stdin st) < fuel ->
  exists r, read_loop strtof junk allocates fuel st = Some r.
Proof.
  induction fuel as [|fuel IH]; intros st H; [lia|]. cbn [read_loop].
  destruct (loop_body strtof junk allocates st) as [[st'|]| |] eqn:B.
  - apply IH. apply loop_body_consumes in B. lia.
  - eexists; reflexivity.
  - eexists; reflexivity.
  - eexists; reflexivity.
Qed.

Lemma crunch_main_total (input row0 date0 : list ascii) :
  crunch_data.main strtof junk allocates input row0 date0 <> None.
Proof.
  unfold crunch_data.main.
  destruct (read_loop_total (S (length input)) (initial input row0 date0))
    as [r ->]; [cbn; lia|].
  destruct r; discriminate.
Qed.
End ReadLoop.

(** ** Rounding in [SpecFloat]

    [SFdiv] divides the mantissas as integers, keeps where the remainder
    lies as a [location], and hands both to [binary_round_aux], which
    shifts the mantissa to the precision of the format and rounds to
    nearest, ties to even.  The lemmas follow that path with [located]:
    the exact quotient is a fraction [N/D], and every step keeps the
    mantissa and location it computes true of that fraction. *)

Local Open Scope Z_scope.

(** The location [SFdiv] derives from the remainder of the division. *)
Lemma new_location_located (q r d : Z) :
  0 < d -> 0 <= r < d -> located q (q * d + r) d (new_location d r).
Proof.
  intros Hd Hr. unfold located. split; [exact Hd|]. split; [lia|].
  unfold new_location, new_location_even, new_location_odd.
  destruct (Z.even d) eqn:Ev.
  - destruct (Z.eqb_spec r 0) as [->|Hn]; [lia|].
    destruct (Z.compare_spec (2 * r) d); lia.
  - destruct (Z.eqb_spec r 0) as [->|Hn]; [lia|].
    assert (Od : Z.odd d = true) by (rewrite <- Z.negb_even, Ev; reflexivity).
    apply Z.odd_spec in Od as [a Ha].
    destruct (Z.compare_spec (2 * r + 1) d); lia.
Qed.

(** One shift to the right: the mantissa is halved, the bit shifted out
    becomes the round bit, and the sticky bit remembers the old ones. *)
Lemma shr_1_eq (m : Z) (r s : bool) :
  0 <= m ->
  shr_1 (Build_shr_record m r s) = Build_shr_record (Z.div2 m) (Z.odd m) (r || s).
Proof.
  intros Hm. destruct m as [|[p|p|]|p]; try reflexivity. lia.
Qed.

Lemma shr_1_located (mrs : shr_record) (N D : Z) :
  0 <= shr_m mrs ->
  located (shr_m mrs) N D (loc_of_shr_record mrs) ->
  located (shr_m (shr_1 mrs)) N (2 * D) (loc_of_shr_record (shr_1 mrs)) /\
  shr_m (shr_1 mrs) = shr_m mrs / 2.
Proof.
  destruct mrs as [m r s]. cbn [shr_m]. intros Hm (HD & HN & Hl).
  rewrite shr_1_eq by exact Hm. cbn [shr_m]. rewrite <- Z.div2_div.
  split; [|reflexivity].
  pose proof (Z.div2_odd m) as E. set (h := Z.div2 m) in *.
  unfold located.
  destruct (Z.odd m), r, s; cbn [loc_of_shr_record orb Z.b2z] in *;
    repeat split; nia.
Qed.

Lemma iter_shr_1_located (p : positive) : forall (mrs : shr_record) (N D : Z),
  0 <= shr_m mrs ->
  located (shr_m mrs) N D (loc_of_shr_record mrs) ->
  let mrs' := SpecFloat.iter_pos shr_1 p mrs in
  located (shr_m mrs') N (2 ^ Zpos p * D) (loc_of_shr_record mrs') /\
  shr_m mrs' = shr_m mrs / 2 ^ Zpos p.
Proof.
  induction p as [p IH|p IH|]; intros mrs N D Hm Hl; cbn [SpecFloat.iter_pos]; cbv zeta.
  - destruct (shr_1_located mrs N D Hm Hl) as [L1 E1].
    assert (H1 : 0 <= shr_m (shr_1 mrs)) by (rewrite E1; apply Z.div_pos; lia).
    destruct (IH _ _ _ H1 L1) as [L2 E2]. cbv zeta in L2, E2.
    assert (H2 : 0 <= shr_m (SpecFloat.iter_pos shr_1 p (shr_1 mrs)))
      by (rewrite E2; apply Z.div_pos; [lia | apply Z.pow_pos_nonneg; lia]).
    destruct (IH _ _ _ H2 L2) as [L3 E3]. cbv zeta in L3, E3.
    assert (P : 2 ^ Zpos p~1 = 2 ^ Zpos p * (2 ^ Zpos p * 2)).
    { rewrite Pos2Z.inj_xI, Z.pow_add_r, Z.pow_mul_r, Z.pow_2_r by lia.
      change (2 ^ 1) with 2. change (2 * 2) with (2 ^ 2). 
      rewrite <- Z.pow_mul_r, Z.mul_comm with (n := 2) by lia.
      rewrite Z.pow_mul_r, Z.pow_2_r by lia. ring. }
    split.
    + rewrite P. replace (2 ^ Zpos p * (2 ^ Zpos p * 2) * D)
        with (2 ^ Zpos p * (2 ^ Zpos p * (2 * D))) by ring. exact L3.
    + rewrite E3, E2, E1, P.
      rewrite !Z.div_div by (try apply Z.pow_pos_nonneg; lia).
      f_equal. ring.
  - destruct (IH _ _ _ Hm Hl) as [L2 E2]. cbv zeta in L2, E2.
    assert (H2 : 0 <= shr_m (SpecFloat.iter_pos shr_1 p mrs))
      by (rewrite E2; apply Z.div_pos; [lia | apply Z.pow_pos_nonneg; lia]).
    destruct (IH _ _ _ H2 L2) as [L3 E3]. cbv zeta in L3, E3.
    assert (P : 2 ^ Zpos p~0 = 2 ^ Zpos p * 2 ^ Zpos p).
    { rewrite Pos2Z.inj_xO, <- Z.pow_add_r by lia. f_equal. lia. }
    split.
    + rewrite P, <- Z.mul_assoc. exact L3.
    + rewrite E3, E2, P.
      rewrite Z.div_div by
        first [apply Z.pow_pos_nonneg; lia | apply Z.pow_nonzero; lia].
      reflexivity.
  - change (2 ^ 1) with 2. apply shr_1_located; assumption.
Qed.

(** [shr] by [n] positions, or by none when [n] is not positive. *)
Lemma shr_located (mrs : shr_record) (e n N D : Z) :
  0 <= shr_m mrs ->
  located (shr_m mrs) N D (loc_of_shr_record mrs) ->
  let k := Z.max 0 n in
  located (shr_m (fst (shr mrs e n))) N (2 ^ k * D)
          (loc_of_shr_record (fst (shr mrs e n))) /\
  shr_m (fst (shr mrs e n)) = shr_m mrs / 2 ^ k /\
  snd (shr mrs e n) = e + k.
Proof.
  intros Hm Hl. cbv zeta. unfold shr. destruct n as [|p|p]; cbn [fst snd].
  - change (2 ^ Z.max 0 0) with 1. rewrite Z.mul_1_l, Z.div_1_r, Z.add_0_r. auto.
  - replace (Z.max 0 (Zpos p)) with (Zpos p) by lia.
    destruct (iter_shr_1_located p mrs N D Hm Hl) as [L E]. auto.
  - replace (Z.max 0 (Zneg p)) with 0 by lia.
    change (2 ^ 0) with 1. rewrite Z.mul_1_l, Z.div_1_r, Z.add_0_r. auto.
Qed.

Lemma shr_record_of_loc_located (m : Z) (l : location) :
  shr_m (shr_record_of_loc m l) = m /\
  loc_of_shr_record (shr_record_of_loc m l) = l.
Proof. destruct l as [|[| |]]; split; reflexivity. Qed.

(** Rounding moves to a neighbour at most half a unit away. *)
Lemma round_nearest_even_located (m N D : Z) (l : location) :
  located m N D l ->
  m <= round_nearest_even m l <= m + 1 /\
  - D <= 2 * (round_nearest_even m l * D - N) <= D.
Proof.
  intros (HD & HN & Hl). unfold round_nearest_even.
  destruct l as [|[| |]]; try destruct (Z.even m); split; nia.
Qed.

(** Digits of non-negative integers. *)
Lemma Zdigits2_bounds (m : Z) :
  0 < m -> 2 ^ (Zdigits2 m - 1) <= m < 2 ^ Zdigits2 m.
Proof.
  destruct m as [|p|p]; try lia. intros _. apply digits2_pos_bounds.
Qed.

Lemma Zdigits2_nonneg (m : Z) : 0 <= Zdigits2 m.
Proof. destruct m; simpl; lia. Qed.

Lemma Zdigits2_le (m d : Z) :
  0 <= d -> 0 <= m < 2 ^ d -> Zdigits2 m <= d.
Proof.
  intros Hd [H0 H]. destruct (Z.eq_dec m 0) as [->|Hn]; [simpl; lia|].
  destruct (Zdigits2_bounds m) as [L _]; [lia|].
  destruct (Z.le_gt_cases (Zdigits2 m) d) as [C|C]; [exact C|].
  assert (2 ^ d <= 2 ^ (Zdigits2 m - 1)) by (apply Z.pow_le_mono_r; lia). lia.
Qed.

Lemma Zdigits2_ge (m d : Z) :
  2 ^ (d - 1) <= m -> 1 <= d -> d <= Zdigits2 m.
Proof.
  intros H Hd.
  assert (0 < m) by (assert (0 < 2 ^ (d - 1)) by (apply Z.pow_pos_nonneg; lia); lia).
  destruct (Zdigits2_bounds m) as [_ U]; [lia|].
  destruct (Z.le_gt_cases d (Zdigits2 m)) as [C|C]; [exact C|].
  assert (2 ^ Zdigits2 m <= 2 ^ (d - 1))
    by (apply Z.pow_le_mono_r; pose proof (Zdigits2_nonneg m); lia). lia.
Qed.

Lemma fexp_eq (x : Z) : fexp prec emax x = Z.max (x - 24) (-149).
Proof. reflexivity. Qed.

(** Shifting [k] bits out leaves at most [k] digits fewer. *)
Lemma Zdigits2_div_pow2 (m k : Z) :
  0 <= m -> 0 <= k -> Zdigits2 (m / 2 ^ k) <= Z.max 0 (Zdigits2 m - k).
Proof.
  intros Hm Hk.
  assert (P : 0 < 2 ^ k) by (apply Z.pow_pos_nonneg; lia).
  destruct (Z.eq_dec m 0) as [->|Hn].
  - rewrite Z.div_0_l by lia. simpl. lia.
  - destruct (Zdigits2_bounds m) as [_ U]; [lia|].
    destruct (Z.le_gt_cases k (Zdigits2 m)) as [C|C].
    + apply Zdigits2_le; [lia|]. split; [apply Z.div_pos; lia|].
      apply Z.div_lt_upper_bound; [lia|].
      replace (Z.max 0 (Zdigits2 m - k)) with (Zdigits2 m - k) by lia.
      rewrite <- Z.pow_add_r by lia.
      replace (k + (Zdigits2 m - k)) with (Zdigits2 m) by lia. exact U.
    + assert (m < 2 ^ k).
      { apply Z.lt_le_trans with (1 := U). apply Z.pow_le_mono_r; lia. }
      rewrite Z.div_small by lia. simpl. lia.
Qed.

(** What [binary_round_aux] returns for a non-negative mantissa [mx],
    exponent [ex] and location [lx] that stand for [N/D * 2^ex]: a mantissa
    [m] on the grid [2^E] at most half a step away, [E] being the larger of
    [ex] and the exponent the format gives to numbers of that size. *)
Lemma binary_round_aux_spec (sx : bool) (mx ex : Z) (lx : location) (N D : Z) :
  0 <= mx -> located mx N D lx ->
  let E := Z.max ex (fexp prec emax (Zdigits2 mx + ex)) in
  exists m : Z,
    0 <= m /\
    - (2 ^ (E - ex) * D) <= 2 * (m * (2 ^ (E - ex) * D) - N) <= 2 ^ (E - ex) * D /\
    match binary_round_aux prec emax sx mx ex lx with
    | S754_zero s => s = sx /\ m = 0
    | S754_finite s m' e' =>
        s = sx /\ Zpos m' * 2 ^ (e' - E) = m /\ e' <= 104 /\
        (e' = E \/ (e' = E + 1 /\ m = 2 ^ 24)) /\
        (ex <= fexp prec emax (Zdigits2 mx + ex) ->
         valid (S754_finite s m' e') = true)
    | S754_infinity s =>
        s = sx /\ 0 < m /\ (104 < E \/ (E = 104 /\ m = 2 ^ 24))
    | S754_nan => False
    end.
Proof.
  intros Hmx Hl. cbv zeta.
  set (E := Z.max ex (fexp prec emax (Zdigits2 mx + ex))).
  unfold binary_round_aux, shr_fexp.
  (* first shift *)
  destruct (shr_record_of_loc_located mx lx) as [R1 R2].
  pose proof (shr_located (shr_record_of_loc mx lx) ex
                (fexp prec emax (Zdigits2 mx + ex) - ex) N D) as S1.
  rewrite R1, R2 in S1. specialize (S1 Hmx Hl). cbv zeta in S1.
  replace (Z.max 0 (fexp prec emax (Zdigits2 mx + ex) - ex)) with (E - ex) in S1
    by (unfold E; lia).
  destruct (shr (shr_record_of_loc mx lx) ex (fexp prec emax (Zdigits2 mx + ex) - ex))
    as [mrs1 e1]. cbn [fst snd] in S1. destruct S1 as (L1 & M1 & E1).
  replace (ex + (E - ex)) with E in E1 by lia. subst e1.
  set (m1 := shr_m mrs1) in *.
  assert (Hk1 : 0 <= E - ex) by (unfold E; lia).
  assert (P1 : 0 < 2 ^ (E - ex)) by (apply Z.pow_pos_nonneg; lia).
  assert (Hm1 : 0 <= m1) by (rewrite M1; apply Z.div_pos; lia).
  (* rounding *)
  destruct (round_nearest_even_located m1 N (2 ^ (E - ex) * D) _ L1) as [B2 Q2].
  set (m2 := round_nearest_even m1 (loc_of_shr_record mrs1)) in *.
  (* digits of the shifted mantissa *)
  pose proof (Zdigits2_div_pow2 mx (E - ex) Hmx Hk1) as D1. rewrite <- M1 in D1.
  pose proof (Zdigits2_nonneg mx) as Dmx.
  pose proof (Zdigits2_nonneg m1) as Dm1.
  assert (D24 : Zdigits2 m1 <= 24).
  { revert D1. unfold E. rewrite fexp_eq. lia. }
  assert (EE : -149 <= E) by (unfold E; rewrite fexp_eq; lia).
  assert (U1 : m1 < 2 ^ Zdigits2 m1).
  { destruct (Z.eq_dec m1 0) as [Z0|NZ].
    - rewrite Z0. reflexivity.
    - apply Zdigits2_bounds. lia. }
  (* second shift *)
  destruct (shr_record_of_loc_located m2 loc_Exact) as [R3 R4].
  pose proof (shr_located (shr_record_of_loc m2 loc_Exact) E
                (fexp prec emax (Zdigits2 m2 + E) - E) m2 1) as S2.
  rewrite R3, R4 in S2.
  assert (Hm2 : 0 <= m2) by lia.
  specialize (S2 Hm2). cbv zeta in S2.
  assert (Lm2 : located m2 m2 1 loc_Exact) by (unfold located; lia).
  specialize (S2 Lm2).
  set (k2 := Z.max 0 (fexp prec emax (Zdigits2 m2 + E) - E)) in *.
  assert (X2 : k2 = 0 \/ (k2 = 1 /\ m2 = 2 ^ 24)).
  { destruct (Z.eq_dec m2 (2 ^ Zdigits2 m1)) as [Epow|Npow].
    - assert (Zdigits2 m2 <= Zdigits2 m1 + 1).
      { apply Zdigits2_le; [lia|]. split; [lia|]. rewrite Epow.
        apply Z.pow_lt_mono_r; lia. }
      unfold k2. rewrite fexp_eq.
      destruct (Z.eq_dec (Zdigits2 m1) 24) as [E24|N24].
      + rewrite E24 in Epow. right. split; [|exact Epow].
        rewrite Epow. change (Zdigits2 (2 ^ 24)) with 25. lia.
      + left. lia.
    - assert (Zdigits2 m2 <= Zdigits2 m1) by (apply Zdigits2_le; lia).
      left. unfold k2. rewrite fexp_eq. lia. }
  destruct (shr (shr_record_of_loc m2 loc_Exact) E (fexp prec emax (Zdigits2 m2 + E) - E))
    as [mrs2 e2]. cbn [fst snd] in S2. destruct S2 as (L2 & M2 & E2). subst e2.
  set (m3 := shr_m mrs2) in *.
  assert (X3 : m3 * 2 ^ k2 = m2 /\ 0 <= m3).
  { destruct X2 as [K|[K Em2]]; rewrite K in *.
    - change (2 ^ 0) with 1 in M2. rewrite Z.div_1_r in M2. lia.
    - rewrite M2, Em2. split; [reflexivity|]. apply Z.div_pos; lia. }
  destruct X3 as [X3 Hm3].
  exists m2. split; [exact Hm2|]. split; [exact Q2|].
  assert (Hk2 : 0 <= k2) by (unfold k2; lia).
  destruct m3 as [|p|p] eqn:Em3.
  - split; [reflexivity|]. lia.
  - assert (P2 : 0 < 2 ^ k2) by (apply Z.pow_pos_nonneg; lia).
    destruct (Z.leb_spec (E + k2) (emax - prec)) as [Le|Gt];
      change (emax - prec) with 104 in *.
    + split; [reflexivity|]. split.
      * replace (E + k2 - E) with k2 by lia. exact X3.
      * split; [exact Le|]. split; [destruct X2 as [K|[K Em2]]; [left|right]; lia|].
        (* enough digits going in: the result is canonical *)
        intros Hcan. unfold valid, valid_binary, bounded, canonical_mantissa.
        apply andb_true_iff. split; [|apply Z.leb_le; exact Le].
        apply Z.eqb_eq. rewrite fexp_eq.
        change (Zpos (digits2_pos p)) with (Zdigits2 (Zpos p)).
        destruct X2 as [K|[K Em2]]; rewrite K in *.
        -- change (2 ^ 0) with 1 in X3.
           assert (Ep : Zpos p = m2) by lia. rewrite Ep.
           assert (K0 : fexp prec emax (Zdigits2 m2 + E) <= E) by (unfold k2 in K; lia).
           rewrite fexp_eq in K0, Hcan.
           destruct (Z.eq_dec E (-149)) as [C|C]; [lia|].
           assert (EE' : E = Zdigits2 mx + ex - 24) by (unfold E in *; rewrite fexp_eq in *; lia).
           assert (Hmx' : 0 < mx).
           { destruct (Z.eq_dec mx 0) as [Z0|NZ]; [|lia].
             exfalso. rewrite Z0 in EE', Hcan. simpl in EE', Hcan. lia. }
           destruct (Zdigits2_bounds mx Hmx') as [Lmx _].
           assert (G : 2 ^ 23 <= m1).
           { rewrite M1. apply Z.div_le_lower_bound; [lia|].
             rewrite <- Z.pow_add_r by lia.
             replace (E - ex + 23) with (Zdigits2 mx - 1) by lia. exact Lmx. }
           assert (24 <= Zdigits2 m2) by (apply Zdigits2_ge; lia).
           lia.
        -- assert (Ep : Zpos p = 2 ^ 23).
           { rewrite Em2 in X3. change (2 ^ 1) with 2 in X3.
             change (2 ^ 24) with (2 ^ 23 * 2) in X3. lia. }
           rewrite Ep. change (Zdigits2 (2 ^ 23)) with 24. lia.
    + split; [reflexivity|]. split; [nia|].
      destruct X2 as [K|[K Em2]]; [left|]; lia.
  - lia.
Qed.

(** [shl_align] shifts the mantissa to the left and keeps the value. *)
Lemma pos_iter_xO (p d : positive) : Zpos (Pos.iter xO p d) = Zpos p * 2 ^ Zpos d.
Proof.
  induction d as [|d IH] using Pos.peano_ind.
  - simpl. lia.
  - rewrite Pos.iter_succ, Pos2Z.inj_xO, IH, Pos2Z.inj_succ, Z.pow_succ_r by lia. ring.
Qed.

Lemma shl_align_spec (mx : positive) (ex ex' : Z) :
  snd (shl_align mx ex ex') = Z.min ex ex' /\
  Zpos (fst (shl_align mx ex ex')) = Zpos mx * 2 ^ (ex - Z.min ex ex').
Proof.
  unfold shl_align. destruct (ex' - ex) as [|d|d] eqn:E; cbn [fst snd].
  - replace (Z.min ex ex') with ex by lia. rewrite Z.sub_diag. simpl. lia.
  - replace (Z.min ex ex') with ex by lia. rewrite Z.sub_diag. simpl. lia.
  - replace (Z.min ex ex') with ex' by lia. split; [reflexivity|].
    rewrite pos_iter_xO. f_equal. f_equal. lia.
Qed.

Lemma Zdigits2_mul_pow2 (m k : Z) :
  0 < m -> 0 <= k -> Zdigits2 (m * 2 ^ k) = Zdigits2 m + k.
Proof.
  intros Hm Hk. destruct (Zdigits2_bounds m Hm) as [L U].
  pose proof (Zdigits2_nonneg m) as Dn.
  assert (D1 : 1 <= Zdigits2 m).
  { destruct (Z.le_gt_cases 1 (Zdigits2 m)) as [C|C]; [exact C|].
    replace (Zdigits2 m) with 0 in U by lia. simpl in U. lia. }
  assert (P : 0 < 2 ^ k) by (apply Z.pow_pos_nonneg; lia).
  apply Z.le_antisymm.
  - apply Zdigits2_le; [lia|]. split; [nia|].
    rewrite Z.pow_add_r by lia. nia.
  - apply Zdigits2_ge; [|lia].
    replace (Zdigits2 m + k - 1) with (Zdigits2 m - 1 + k) by lia.
    rewrite Z.pow_add_r by lia. nia.
Qed.

(** The conversion of a count up to [2^24] is exact. *)
Lemma of_int_exact (c : Z) :
  1 <= c <= 2 ^ 24 ->
  exists (m : positive) (e : Z),
    of_int c = S754_finite false m e /\
    2 ^ 23 <= Zpos m < 2 ^ 24 /\ -23 <= e <= 1 /\
    Zpos m * 2 ^ (e + 23) = c * 2 ^ 23.
Proof.
  intros Hc. destruct c as [|pc|pc]; try lia.
  unfold of_int, binary_normalize, binary_round.
  destruct (shl_align_spec pc 0 (fexp prec emax (Zpos (digits2_pos pc) + 0))) as [Se Sm].
  destruct (shl_align pc 0 (fexp prec emax (Zpos (digits2_pos pc) + 0))) as [mz ez].
  cbn [fst snd] in Se, Sm.
  destruct (digits2_pos_bounds pc) as [DL DU].
  set (dc := Zpos (digits2_pos pc)) in *.
  assert (Hdc : 1 <= dc <= 25).
  { split; [unfold dc; lia|].
    destruct (Z.le_gt_cases dc 25) as [C|C]; [exact C|].
    assert (2 ^ 25 <= 2 ^ (dc - 1)) by (apply Z.pow_le_mono_r; lia).
    pow2. change (2 ^ 25) with 33554432 in *. lia. }
  rewrite fexp_eq in Se, Sm. rewrite <- Se in Sm.
  assert (Ez : ez = Z.min 0 (dc - 24)) by lia.
  assert (Dz : Zdigits2 (Zpos mz) = dc + (0 - ez)).
  { rewrite Sm. apply Zdigits2_mul_pow2; lia. }
  assert (Lz : located (Zpos mz) (Zpos mz) 1 loc_Exact) by (unfold located; lia).
  destruct (binary_round_aux_spec false (Zpos mz) ez loc_Exact (Zpos mz) 1
              ltac:(lia) Lz) as (m & Hm & Q & R).
  cbv zeta in Q, R. rewrite Dz, fexp_eq in Q, R.
  set (E := Z.max ez (Z.max (dc + (0 - ez) + ez - 24) (-149))) in *.
  assert (EE : E = Z.max 0 (dc - 24) + ez) by (unfold E; lia).
  assert (PE : 2 ^ (E - ez) = if Z.eq_dec dc 25 then 2 else 1).
  { destruct (Z.eq_dec dc 25) as [C|C].
    - replace (E - ez) with 1 by lia. reflexivity.
    - replace (E - ez) with 0 by lia. reflexivity. }
  assert (Pz : 2 ^ (0 - ez) * 2 ^ (ez + 23) = 2 ^ 23).
  { rewrite <- Z.pow_add_r by lia. f_equal. lia. }
  assert (Mz : Zpos mz < 2 ^ 25 /\ 2 ^ 23 <= Zpos mz).
  { destruct (Zdigits2_bounds (Zpos mz)) as [L U]; [lia|].
    rewrite Dz in L, U. split.
    - apply Z.lt_le_trans with (1 := U). apply Z.pow_le_mono_r; lia.
    - apply Z.le_trans with (2 := L). apply Z.pow_le_mono_r; lia. }
  assert (C25 : dc = 25 -> Zpos mz = 2 ^ 24).
  { intros C. rewrite C in DL. change (25 - 1) with 24 in DL.
    replace ez with 0 in Sm by lia. change (2 ^ (0 - 0)) with 1 in Sm. pow2. lia. }
  assert (Em : m * 2 ^ (E - ez) = Zpos mz /\ 2 ^ 23 <= m < 2 ^ 24).
  { rewrite PE in *. destruct (Z.eq_dec dc 25) as [C|C].
    - specialize (C25 C). pow2. lia.
    - assert (Zdigits2 (Zpos mz) = 24) by lia.
      destruct (Zdigits2_bounds (Zpos mz)) as [L U]; [lia|].
      replace (Zdigits2 (Zpos mz)) with 24 in L, U. change (24 - 1) with 23 in L.
      pow2. lia. }
  destruct Em as [Em Bm].
  destruct (binary_round_aux prec emax false (Zpos mz) ez loc_Exact) as [s|s| |s m' e'].
  - pow2. lia.
  - exfalso. destruct R as (_ & _ & [R|[R _]]); lia.
  - contradiction.
  - destruct R as (-> & R1 & R2 & R3 & _).
    assert (e' = E) by (destruct R3 as [R3|[_ R3]]; [exact R3 | pow2; lia]). subst e'.
    rewrite Z.sub_diag in R1. change (2 ^ 0) with 1 in R1.
    exists m', E. split; [reflexivity|]. split; [lia|]. split; [lia|].
    rewrite Sm in Em.
    replace (Zpos m') with m by lia.
    assert (T : m * 2 ^ (E - ez) * 2 ^ (ez + 23) = Zpos pc * 2 ^ 23).
    { rewrite Em, <- Z.mul_assoc, Pz. reflexivity. }
    rewrite <- T, <- Z.mul_assoc, <- Z.pow_add_r by lia. f_equal. f_equal. lia.
Qed.

(** The integer division inside [SFdiv]: the dividend is first shifted
    left far enough for the quotient to have the digits of the format. *)
Lemma SFdiv_core_binary_spec (mx my : positive) (ex ey : Z) :
  let a := Z.min (fexp prec emax (Zdigits2 (Zpos mx) + ex - (Zdigits2 (Zpos my) + ey)))
                 (ex - ey) in
  exists q r,
    SFdiv_core_binary prec emax (Zpos mx) ex (Zpos my) ey
    = (q, a, new_location (Zpos my) r) /\
    Zpos mx * 2 ^ (ex - ey - a) = q * Zpos my + r /\
    0 <= r < Zpos my /\ 0 <= q.
Proof.
  cbv zeta. unfold SFdiv_core_binary.
  set (a := Z.min (fexp prec emax (Zdigits2 (Zpos mx) + ex - (Zdigits2 (Zpos my) + ey)))
                  (ex - ey)).
  set (s := ex - ey - a).
  assert (Hs : 0 <= s) by (unfold s, a; lia).
  set (m' := match s with
             | 0 => Zpos mx
             | Zpos _ => Z.shiftl (Zpos mx) s
             | Zneg _ => 0
             end).
  assert (Em : m' = Zpos mx * 2 ^ s).
  { unfold m'. destruct s as [|p|p] eqn:Es.
    - simpl. lia.
    - apply Z.shiftl_mul_pow2. lia.
    - lia. }
  pose proof (Z_div_mod m' (Zpos my) ltac:(lia)) as DM.
  destruct (Z.div_eucl m' (Zpos my)) as [q r]. destruct DM as [DM Hr].
  exists q, r. split; [reflexivity|]. split; [lia|]. split; [lia|].
  assert (0 <= m') by (rewrite Em; apply Z.mul_nonneg_nonneg; [lia | apply Z.pow_nonneg; lia]).
  nia.
Qed.

(** The quotient of a finite number by a normal one of exponent between
    [-23] and [1], such as a converted count: a mantissa [m] on a grid
    [2^E], at most half a grid step from the exact quotient, the step
    being [2^-149] or at most [2^-23] times the quotient. *)
Lemma fdiv_core_facts (sx : bool) (mx my : positive) (ex ey : Z) :
  valid (S754_finite sx mx ex) = true ->
  2 ^ 23 <= Zpos my < 2 ^ 24 -> -23 <= ey <= 1 ->
  exists m E a : Z,
    0 <= E - a /\ 0 <= ex - ey - a /\ -149 <= E /\ 0 <= m /\
    - (2 ^ (E - a) * Zpos my)
      <= 2 * (m * (2 ^ (E - a) * Zpos my) - Zpos mx * 2 ^ (ex - ey - a))
      <= 2 ^ (E - a) * Zpos my /\
    (E = -149 \/ 2 ^ (E - a + 23) * Zpos my <= Zpos mx * 2 ^ (ex - ey - a)) /\
    ((fdiv (S754_finite sx mx ex) (S754_finite false my ey) = S754_zero sx /\ m = 0) \/
     exists m' e',
       fdiv (S754_finite sx mx ex) (S754_finite false my ey) = S754_finite sx m' e' /\
       Zpos m' * 2 ^ (e' - E) = m /\ E <= e').
Proof.
  intros Vx Hmy Hey.
  apply valid_finite_inv in Vx.
  assert (Bx : 0 < Zpos mx < 2 ^ 24 /\ -149 <= ex <= 104).
  { destruct Vx as [[? ?]|[? ?]]; pow2; lia. }
  destruct (digits2_pos_bounds mx) as [D1L D1U].
  set (d1 := Zpos (digits2_pos mx)) in *.
  assert (Hd1 : 1 <= d1 <= 24).
  { split; [unfold d1; lia|].
    destruct (Z.le_gt_cases d1 24) as [C|C]; [exact C|].
    assert (2 ^ 24 <= 2 ^ (d1 - 1)) by (apply Z.pow_le_mono_r; lia). lia. }
  assert (Hd2 : Zdigits2 (Zpos my) = 24).
  { apply Z.le_antisymm.
    - apply Zdigits2_le; lia.
    - apply Zdigits2_ge; [exact (proj1 Hmy) | lia]. }
  destruct (SFdiv_core_binary_spec mx my ex ey) as (q & r & Ec & Eq & Hr & Hq).
  cbv zeta in Ec, Eq. rewrite Hd2 in Ec, Eq. change (Zdigits2 (Zpos mx)) with d1 in Ec, Eq.
  rewrite fexp_eq in Ec, Eq.
  set (a := Z.min (Z.max (d1 + ex - (24 + ey) - 24) (-149)) (ex - ey)) in *.
  set (s := ex - ey - a) in *.
  assert (Hs : 0 <= s) by (unfold s, a; lia).
  assert (Ps : 0 < 2 ^ s) by (apply Z.pow_pos_nonneg; lia).
  pose proof (new_location_located q r (Zpos my) ltac:(lia) Hr) as Lq.
  rewrite <- Eq in Lq.
  destruct (binary_round_aux_spec (xorb sx false) q a (new_location (Zpos my) r)
              (Zpos mx * 2 ^ s) (Zpos my) Hq Lq) as (m & Hm & Q & R).
  cbv zeta in Q, R. rewrite fexp_eq in Q, R.
  set (dq := Zdigits2 q) in *.
  set (E := Z.max a (Z.max (dq + a - 24) (-149))) in *.
  assert (Hk : 0 <= E - a) by (unfold E; lia).
  assert (Pk : 0 < 2 ^ (E - a)) by (apply Z.pow_pos_nonneg; lia).
  assert (HE : -149 <= E) by (unfold E; lia).
  pose proof (Zdigits2_nonneg q) as Hdq. fold dq in Hdq.
  (* the mantissa of the dividend against its digits *)
  assert (Mx : 2 ^ (d1 - 1 + s) <= Zpos mx * 2 ^ s).
  { rewrite Z.pow_add_r by lia. nia. }
  (* the grid step against the quotient *)
  assert (J : E = -149 \/ 2 ^ (E - a + 23) * Zpos my <= Zpos mx * 2 ^ s).
  { destruct (Z.eq_dec E (-149)) as [C|C]; [left; exact C | right].
    destruct (Z.eq_dec E a) as [Ea|Na].
    - rewrite Ea, Z.sub_diag. change (2 ^ (0 + 23)) with (2 ^ 23).
      assert (47 <= d1 - 1 + s) by (unfold s, a in *; lia).
      assert (2 ^ 47 <= 2 ^ (d1 - 1 + s)) by (apply Z.pow_le_mono_r; lia).
      change (2 ^ 47) with (2 ^ 23 * 2 ^ 24) in *. pow2. nia.
    - assert (Eq' : E = dq + a - 24) by (unfold E in *; lia).
      assert (Hq' : 0 < q).
      { destruct (Z.eq_dec q 0) as [Z0|NZ]; [|lia].
        exfalso. unfold dq in Eq'. rewrite Z0 in Eq'. simpl in Eq'. unfold E in *. lia. }
      destruct (Zdigits2_bounds q Hq') as [QL _]. fold dq in QL.
      replace (E - a + 23) with (dq - 1) by lia. nia. }
  (* the quotient against the dividend: no overflow *)
  assert (Dq : dq <= Z.max 0 (d1 + s - 23)).
  { apply Zdigits2_le; [lia|]. split; [exact Hq|].
    assert (Ux : Zpos mx * 2 ^ s < 2 ^ (d1 + s)).
    { rewrite Z.pow_add_r by lia. nia. }
    destruct (Z.le_gt_cases 23 (d1 + s)) as [C|C].
    - replace (Z.max 0 (d1 + s - 23)) with (d1 + s - 23) by lia.
      assert (2 ^ (d1 + s) = 2 ^ (d1 + s - 23) * 2 ^ 23).
      { rewrite <- Z.pow_add_r by lia. f_equal. lia. }
      nia.
    - replace (Z.max 0 (d1 + s - 23)) with 0 by lia. change (2 ^ 0) with 1.
      assert (2 ^ (d1 + s) <= 2 ^ 23) by (apply Z.pow_le_mono_r; lia).
      nia. }
  assert (E104 : E <= 104) by (unfold E, s, a in *; lia).
  exists m, E, a. fold s.
  split; [exact Hk|]. split; [exact Hs|]. split; [exact HE|]. split; [exact Hm|].
  split; [exact Q|]. split; [exact J|].
  unfold fdiv, SFdiv. rewrite Ec.
  replace (xorb sx false) with sx in * by (destruct sx; reflexivity).
  destruct (binary_round_aux prec emax sx q a (new_location (Zpos my) r))
    as [s0|s0| |s0 m' e'].
  - left. destruct R as [-> ->]. split; reflexivity.
  - exfalso. destruct R as (_ & Hm0 & [R|[R1 R2]]); [lia|].
    (* E = 104 and m = 2^24 would put the result above the dividend *)
    assert (Ks : s <= E - a + 23) by (unfold s; lia).
    assert (Hp : 2 ^ s <= 2 ^ (E - a + 23)) by (apply Z.pow_le_mono_r; lia).
    rewrite Z.pow_add_r in Hp by lia. pow2. nia.
  - contradiction.
  - right. destruct R as (-> & R1 & R2 & R3 & _). exists m', e'.
    split; [reflexivity|]. split; [exact R1|]. lia.
Qed.

(** ** Sums stay within the format *)

(** [binary_round] aligns the mantissa before it rounds, so what it
    returns is a number of the format. *)
Lemma binary_round_valid (sx : bool) (mx : positive) (ex : Z) :
  valid (binary_round prec emax sx mx ex) = true.
Proof.
  unfold binary_round.
  destruct (shl_align_spec mx ex (fexp prec emax (Zpos (digits2_pos mx) + ex))) as [Se Sm].
  destruct (shl_align mx ex (fexp prec emax (Zpos (digits2_pos mx) + ex))) as [mz ez].
  cbn [fst snd] in Se, Sm.
  change (Zpos (digits2_pos mx)) with (Zdigits2 (Zpos mx)) in Se, Sm.
  assert (Dz : Zdigits2 (Zpos mz) + ez = Zdigits2 (Zpos mx) + ex).
  { rewrite Sm, Zdigits2_mul_pow2 by lia. lia. }
  assert (Lz : located (Zpos mz) (Zpos mz) 1 loc_Exact) by (unfold located; lia).
  destruct (binary_round_aux_spec sx (Zpos mz) ez loc_Exact (Zpos mz) 1
              ltac:(lia) Lz) as (m & _ & _ & R).
  cbv zeta in R.
  destruct (binary_round_aux prec emax sx (Zpos mz) ez loc_Exact) as [s|s| |s m' e'];
    try reflexivity.
  destruct R as (_ & _ & _ & _ & V). apply V. rewrite Dz. lia.
Qed.

Lemma binary_normalize_valid (m e : Z) (szero : bool) :
  valid (binary_normalize prec emax m e szero) = true.
Proof.
  destruct m as [|p|p]; cbn [binary_normalize];
    [reflexivity | apply binary_round_valid | apply binary_round_valid].
Qed.

Lemma fadd_valid (a b : float32) :
  valid a = true -> valid b = true -> valid (fadd a b) = true.
Proof.
  intros Va Vb. unfold fadd.
  destruct a as [sa|sa| |sa ma ea]; destruct b as [sb|sb| |sb mb eb];
    cbn [SFadd]; try assumption; try reflexivity;
    try (destruct sa, sb; reflexivity).
  apply binary_normalize_valid.
Qed.

Lemma fsum_valid (v : list float32) :
  Forall (fun f => valid f = true) v -> valid (fsum v) = true.
Proof.
  unfold fsum. assert (V0 : valid fzero = true) by reflexivity.
  revert V0. generalize fzero.
  induction v as [|f v IH]; intros total Vt Hv; cbn [fold_left].
  - exact Vt.
  - inversion Hv as [|? ? Hf Hrest]; subst.
    apply IH; [apply fadd_valid; assumption | exact Hrest].
Qed.

(** ** Rounding error of the division in [get_mean] *)

Local Open Scope Q_scope.

Lemma Q2_pos (e : Z) : 0 < Q2 e.
Proof. apply Qpower_0_lt. reflexivity. Qed.

Lemma Q2_add (a b : Z) : Q2 (a + b) == Q2 a * Q2 b.
Proof. apply Qpower_plus. discriminate. Qed.

Lemma Q2_inject (k : Z) : (0 <= k)%Z -> inject_Z (2 ^ k) == Q2 k.
Proof. intros H. apply (Zpower_Qpower 2 k H). Qed.

(** The magnitude of a finite number. *)
Lemma Qabs_value_finite (s : bool) (m : positive) (e : Z) :
  Qabs (value (S754_finite s m e)) == inject_Z (Zpos m) * Q2 e.
Proof.
  unfold value. rewrite Qabs_Qmult.
  rewrite (Qabs_pos (Qpower 2 e)) by (apply Qlt_le_weak, Q2_pos).
  apply Qmult_comp; [|reflexivity].
  destruct s; cbn [cond_Zopp].
  - change (inject_Z (- Zpos m)) with (- inject_Z (Zpos m)).
    rewrite Qabs_opp. apply Qabs_pos. rewrite <- (Zle_Qle 0). lia.
  - apply Qabs_pos. rewrite <- (Zle_Qle 0). lia.
Qed.

Lemma value_finite_signed (s : bool) (m : positive) (e : Z) :
  value (S754_finite s m e)
  == (if s then - (inject_Z (Zpos m) * Q2 e) else inject_Z (Zpos m) * Q2 e).
Proof.
  unfold value. destruct s; cbn [cond_Zopp].
  - change (inject_Z (- Zpos m)) with (- inject_Z (Zpos m)). unfold Q2. ring.
  - reflexivity.
Qed.

(** Dividing a finite sum by a count of at most [2^24]: the quotient is
    finite, and multiplied by the count it is within the tolerance of the
    sum. *)
Lemma fdiv_count_error (t : float32) (c : Z) :
  valid t = true -> is_finite t = true -> (1 <= c <= 2 ^ 24)%Z ->
  is_finite (fdiv t (of_int c)) = true /\
  Qabs (value (fdiv t (of_int c)) * inject_Z c - value t)
  <= Qmax (Qabs (value t) * Q2 (-24)) (inject_Z c * Q2 (-150)).
Proof.
  intros Vt Ft Hc.
  destruct (of_int_exact c Hc) as (my & ey & -> & Hmy & Hey & Ec).
  destruct t as [s|s| |sx mx ex]; try discriminate.
  - (* the sum is a zero *)
    split; [reflexivity|]. cbn [fdiv SFdiv value].
    setoid_replace (0 * inject_Z c - 0) with 0 by ring.
    apply Q.max_le_iff. right.
    apply Qmult_le_0_compat; [rewrite <- (Zle_Qle 0); lia | apply Qlt_le_weak, Q2_pos].
  - destruct (fdiv_core_facts sx mx my ex ey Vt Hmy Hey)
      as (m & E & a & Hk & Hs & HE & Hm & HQ & J & HR).
    set (k := (E - a)%Z) in *. set (s := (ex - ey - a)%Z) in *.
    (* the count as a rational *)
    assert (Cq : inject_Z (Zpos my) * Q2 ey == inject_Z c).
    { apply (f_equal inject_Z) in Ec. rewrite !inject_Z_mult in Ec.
      assert (Ec' : inject_Z (Zpos my) * inject_Z (2 ^ (ey + 23))
                    == inject_Z c * inject_Z (2 ^ 23)) by (rewrite Ec; reflexivity).
      rewrite !Q2_inject, Q2_add in Ec' by lia.
      apply (Qmult_inj_r _ _ (Q2 23)); [apply Qnot_eq_sym, Qlt_not_eq, Q2_pos|].
      rewrite <- Ec'. ring. }
    (* everything in units of [2^(a+ey)] *)
    set (Pa := Q2 (a + ey)).
    assert (HPa : 0 < Pa) by apply Q2_pos.
    assert (EB : Q2 E * inject_Z c == Pa * inject_Z (2 ^ k * Zpos my)).
    { rewrite <- Cq, inject_Z_mult, Q2_inject by lia. unfold Pa.
      replace E with (k + a)%Z at 1 by (unfold k; lia).
      rewrite !Q2_add. ring. }
    assert (ET : inject_Z (Zpos mx) * Q2 ex == Pa * inject_Z (Zpos mx * 2 ^ s)).
    { rewrite inject_Z_mult, Q2_inject by lia. unfold Pa.
      replace ex with (s + (a + ey))%Z at 1 by (unfold s; lia).
      rewrite !Q2_add. ring. }
    assert (EZ : inject_Z m * Q2 E * inject_Z c
                 == Pa * inject_Z (m * (2 ^ k * Zpos my))).
    { rewrite <- Qmult_assoc, EB, !inject_Z_mult.
      generalize (inject_Z (2 ^ k)). intros u. ring. }
    set (B := Q2 E * inject_Z c) in *.
    set (vt := inject_Z (Zpos mx) * Q2 ex) in *.
    set (vz := inject_Z m * Q2 E) in *.
    (* half a grid step *)
    assert (T1 : - B <= 2 * (vz * inject_Z c - vt) <= B).
    { assert (I1 : inject_Z (- (2 ^ k * Zpos my))
                   <= inject_Z (2 * (m * (2 ^ k * Zpos my) - Zpos mx * 2 ^ s)))
        by (rewrite <- Zle_Qle; lia).
      assert (I2 : inject_Z (2 * (m * (2 ^ k * Zpos my) - Zpos mx * 2 ^ s))
                   <= inject_Z (2 ^ k * Zpos my))
        by (rewrite <- Zle_Qle; lia).
      apply (Qmult_le_l _ _ Pa HPa) in I1, I2.
      assert (X : Pa * inject_Z (2 * (m * (2 ^ k * Zpos my) - Zpos mx * 2 ^ s))
                  == 2 * (vz * inject_Z c - vt)).
      { rewrite EZ, ET. unfold Z.sub.
        rewrite inject_Z_mult, inject_Z_plus, inject_Z_opp.
        generalize (inject_Z (m * (2 ^ k * Zpos my))) (inject_Z (Zpos mx * 2 ^ s)).
        intros u v. ring. }
      rewrite X in I1, I2. rewrite inject_Z_opp in I1.
      setoid_replace (Pa * - inject_Z (2 ^ k * Zpos my))
        with (- (Pa * inject_Z (2 ^ k * Zpos my))) in I1 by ring.
      rewrite <- EB in I1, I2. split; assumption. }
    (* the grid step against the tolerance *)
    assert (T2 : B <= 2 * Qmax (vt * Q2 (-24)) (inject_Z c * Q2 (-150))).
    { destruct J as [J|J].
      - apply Qle_trans with (2 * (inject_Z c * Q2 (-150))).
        + subst B. rewrite J.
          setoid_replace (Q2 (-149)) with (2 * Q2 (-150)) by reflexivity.
          apply Qle_lteq. right. ring.
        + apply Qmult_le_l; [reflexivity|]. apply Q.le_max_r.
      - apply Qle_trans with (2 * (vt * Q2 (-24))).
        + assert (I : inject_Z (2 ^ (k + 23) * Zpos my) <= inject_Z (Zpos mx * 2 ^ s))
            by (rewrite <- Zle_Qle; exact J).
          apply (Qmult_le_l _ _ Pa HPa) in I.
          rewrite <- ET in I. fold vt in I.
          assert (X : Pa * inject_Z (2 ^ (k + 23) * Zpos my) == Q2 23 * B).
          { rewrite EB, !inject_Z_mult, !Q2_inject, Q2_add by lia. ring. }
          rewrite X in I.
          setoid_replace (2 * (vt * Q2 (-24))) with (vt * Q2 (-23)).
          2:{ setoid_replace (Q2 (-23)) with (2 * Q2 (-24)) by reflexivity. ring. }
          apply (Qmult_le_r _ _ (Q2 23)); [apply Q2_pos|].
          setoid_replace (vt * Q2 (-23) * Q2 23) with vt.
          2:{ rewrite <- Qmult_assoc, <- Q2_add. change (Q2 (-23 + 23)) with 1. ring. }
          rewrite Qmult_comm. exact I.
        + apply Qmult_le_l; [reflexivity|]. apply Q.le_max_l. }
    set (M := Qmax (vt * Q2 (-24)) (inject_Z c * Q2 (-150))) in *.
    assert (T : - M <= vz * inject_Z c - vt <= M).
    { destruct T1 as [T1a T1b]. split.
      - apply (Qmult_le_l _ _ 2); [reflexivity|].
        apply Qle_trans with (- B); [|exact T1a].
        setoid_replace (2 * - M) with (- (2 * M)) by ring.
        apply Qopp_le_compat. exact T2.
      - apply (Qmult_le_l _ _ 2); [reflexivity|].
        apply Qle_trans with B; assumption. }
    assert (AV : Qabs (value (S754_finite sx mx ex)) == vt) by apply Qabs_value_finite.
    assert (SV : value (S754_finite sx mx ex) == if sx then - vt else vt)
      by apply value_finite_signed.
    assert (Fz : is_finite (fdiv (S754_finite sx mx ex) (S754_finite false my ey)) = true /\
                 value (fdiv (S754_finite sx mx ex) (S754_finite false my ey))
                 == if sx then - vz else vz).
    { destruct HR as [[HR Zm]|(m' & e' & HR & Rm & Re)]; rewrite HR.
      - split; [reflexivity|]. subst vz. rewrite Zm. cbn [value].
        destruct sx; ring.
      - split; [reflexivity|]. rewrite value_finite_signed.
        assert (Em : inject_Z (Zpos m') * Q2 e' == vz).
        { subst vz. rewrite <- Rm, inject_Z_mult, Q2_inject by lia.
          replace e' with ((e' - E) + E)%Z at 1 by lia.
          rewrite Q2_add. ring. }
        destruct sx; rewrite Em; reflexivity. }
    destruct Fz as [Fz VZ]. split; [exact Fz|].
    rewrite AV, VZ, SV. fold M.
    apply Qabs_Qle_condition. destruct T as [Ta Tb].
    destruct sx.
    + setoid_replace (- vz * inject_Z c - - vt) with (- (vz * inject_Z c - vt)) by ring.
      split.
      * apply Qopp_le_compat. exact Tb.
      * setoid_replace M with (- - M) by ring. apply Qopp_le_compat. exact Ta.
    + split; assumption.
Qed.

Local Close Scope Q_scope.
Local Close Scope Z_scope.

(** ** More on loads *)

Lemma load_ok_iff {A : Type} (v : list A) (n : nat) :
  (exists x, load v n = Ok x) <-> n < length v.
Proof.
  unfold load. split.
  - intros [x H]. destruct (nth_error v n) eqn:E; [|discriminate].
    apply nth_error_Some. congruence.
  - intros H. apply nth_error_Some in H.
    destruct (nth_error v n) as [x|]; [exists x; reflexivity | congruence].
Qed.

Lemma load_cases {A : Type} (v : list A) (n : nat) :
  (n < length v /\ exists x, load v n = Ok x) \/
  (length v <= n /\ load v n = OutOfBounds).
Proof.
  destruct (Nat.lt_ge_cases n (length v)) as [L|L].
  - left. split; [exact L|]. apply load_ok_iff. exact L.
  - right. split; [exact L|]. apply load_out_of_bounds. exact L.
Qed.

(** ** [read_row] on a line *)

Lemma ends_row_false (c : ascii) :
  ends_row c = false ->
  Ascii.eqb c EOF_byte = false /\ Ascii.eqb c crunch_data.newline = false.
Proof. unfold ends_row. intros H. apply orb_false_iff in H. exact H. Qed.

Lemma read_row_at_end (t : ascii) (rest buf : list ascii) (offset : nat) :
  ends_row t = true -> read_row (t :: rest) buf offset = Ok (offset, buf, rest).
Proof.
  unfold ends_row. intros H. cbn [read_row].
  destruct (Ascii.eqb t EOF_byte); [reflexivity|].
  cbn [orb] in H. rewrite H. reflexivity.
Qed.

(** [read_row] on a line of the input: the characters go into the buffer
    from [offset] on, and the rest of the buffer stays as it was. *)
Lemma read_row_line (line : list ascii) :
  forall (tail buf : list ascii) (offset : nat),
  plain line ->
  tail = [] \/ (exists t rest, tail = t :: rest /\ ends_row t = true) ->
  offset <= length buf ->
  read_row (line ++ tail) buf offset =
  if offset + length line <=? length buf
  then Ok (offset + length line,
           firstn offset buf ++ line ++ skipn (offset + length line) buf,
           tl tail)
  else OutOfBounds.
Proof.
  induction line as [|c line IH]; intros tail buf offset Hp Ht Ho.
  - cbn [app length]. rewrite Nat.add_0_r.
    destruct (Nat.leb_spec offset (length buf)) as [L|L]; [|lia].
    rewrite firstn_skipn.
    destruct Ht as [->|(t & rest & -> & Ht)]; [reflexivity|].
    apply read_row_at_end. exact Ht.
  - inversion Hp as [|? ? Hc Hl]; subst.
    destruct (ends_row_false c Hc) as [E1 E2].
    cbn [app read_row length]. rewrite E1, E2.
    destruct (Nat.ltb_spec offset (length buf)) as [L|L].
    + rewrite store_in_bounds by exact L. cbn [bind].
      rewrite IH; [| exact Hl | exact Ht |].
      * rewrite length_app, length_firstn. cbn [length]. rewrite length_skipn.
        replace (Nat.min offset (length buf) + S (length buf - S offset)) with (length buf) by lia.
        replace (S offset + length line) with (offset + S (length line)) by lia.
        destruct (Nat.leb_spec (offset + S (length line)) (length buf)) as [L2|L2]; [|reflexivity].
        rewrite firstn_update by lia.
        rewrite skipn_update by lia.
        rewrite <- app_assoc. reflexivity.
      * rewrite length_app, length_firstn. cbn [length]. rewrite length_skipn. lia.
    + unfold store. destruct (Nat.ltb_spec offset (length buf)); [lia|]. cbn [bind].
      destruct (Nat.leb_spec (offset + S (length line)) (length buf)); [lia|reflexivity].
Qed.

(** ** The reading loop, line by line *)

Lemma length_overlay (line buf : list ascii) :
  length line <= length buf -> length (overlay line buf) = length buf.
Proof.
  intros H. unfold overlay. rewrite length_app, length_skipn. lia.
Qed.

Section CrunchRows.
Variable strtof : list ascii -> outcome (float32 * list ascii).
Variable junk : float32.
Variable allocates : nat -> nat -> bool.

Lemma row_values_calls (buf : list ascii) (a b w : float32) :
  row_values strtof buf = Ok (a, b, w) ->
  TABLE_OFFSET <= length buf /\
  exists v2 v3 v4,
    strtof (skipn TABLE_OFFSET buf) = Ok (a, v2) /\
    strtof v2 = Ok (b, v3) /\ strtof v3 = Ok (w, v4).
Proof.
  unfold row_values.
  destruct (Nat.leb_spec TABLE_OFFSET (length buf)) as [L|L]; cbn [bind]; [|discriminate].
  destruct (strtof (skipn TABLE_OFFSET buf)) as [[a' v2]| |] eqn:E1; cbn [bind];
    try discriminate.
  destruct (strtof v2) as [[b' v3]| |] eqn:E2; cbn [bind]; try discriminate.
  destruct (strtof v3) as [[w' v4]| |] eqn:E3; cbn [bind]; try discriminate.
  intros [= <- <- <-]. split; [exact L|]. exists v2, v3, v4. auto.
Qed.

(** The first row goes into the one-element blocks of [malloc]. *)
Lemma process_row_first (buf : list ascii) (a b w : float32) :
  row_values strtof buf = Ok (a, b, w) ->
  process_row strtof 0 buf [junk] [junk] [junk] = Ok ([a], [b], [w]).
Proof.
  intros H. destruct (row_values_calls buf a b w H) as (L & v2 & v3 & v4 & E1 & E2 & E3).
  unfold process_row.
  destruct (Nat.leb_spec TABLE_OFFSET (length buf)) as [_|]; [|lia].
  cbn [bind]. rewrite E1. cbn [bind store length Nat.ltb Nat.leb firstn skipn app].
  rewrite E2. cbn [bind]. rewrite E3. reflexivity.
Qed.

(** A row for which the array has no element is stored outside it. *)
Lemma process_row_out_of_bounds (n : nat) (buf : list ascii) (air bar wind : list float32)
      (a : float32) (v2 : list ascii) :
  TABLE_OFFSET <= length buf ->
  strtof (skipn TABLE_OFFSET buf) = Ok (a, v2) ->
  length air <= n ->
  process_row strtof n buf air bar wind = OutOfBounds.
Proof.
  intros L E H. unfold process_row.
  destruct (Nat.leb_spec TABLE_OFFSET (length buf)) as [_|]; [|lia].
  cbn [bind]. rewrite E. cbn [bind].
  unfold store. destruct (Nat.ltb_spec n (length air)); [lia|]. reflexivity.
Qed.

Lemma loop_body_first (st : state) (line rest : list ascii) (t : ascii) (a b w : float32) :
  row_count st = 0 ->
  plain line -> 0 < length line <= length (row st) -> ends_row t = true ->
  stdin st = line ++ t :: rest ->
  10 <= length (row st) -> 11 <= length (date_string st) ->
  allocates 0 0 = true -> allocates 0 1 = true -> allocates 0 2 = true ->
  row_values strtof (overlay line (row st)) = Ok (a, b, w) ->
  loop_body strtof junk allocates st
  = Ok (Some (with_stdin rest (first_row line a b w (row st) (date_string st)))).
Proof.
  intros Hz Hp Hl Ht Hs Hr Hd A0 A1 A2 Hv. unfold loop_body.
  rewrite Hs, read_row_line; [| exact Hp | right; eauto | lia].
  cbn [Nat.add tl]. destruct (Nat.leb_spec (length line) (length (row st))) as [L|L]; [|lia].
  cbn [bind firstn app]. fold (overlay line (row st)).
  destruct (Nat.eqb_spec (length line) 0) as [Z|NZ]; [lia|].
  assert (Lo : length (overlay line (row st)) = length (row st))
    by (apply length_overlay; lia).
  rewrite Hz. cbn [Nat.eqb].
  rewrite set_date_spec by lia. cbn [bind].
  rewrite A0, A1, A2. unfold malloc. rewrite exact_slots_first. cbn [repeat].
  rewrite (process_row_first _ a b w Hv). cbn [bind].
  reflexivity.
Qed.

Lemma loop_body_later (st : state) (n : nat) (row' stdin' : list ascii)
      (a : float32) (v2 : list ascii) :
  columns_in_step st -> 0 < row_count st ->
  read_row (stdin st) (row st) 0 = Ok (n, row', stdin') -> n <> 0 ->
  allocates (row_count st) 0 = true -> allocates (row_count st) 1 = true ->
  allocates (row_count st) 2 = true ->
  TABLE_OFFSET <= length row' ->
  strtof (skipn TABLE_OFFSET row') = Ok (a, v2) ->
  loop_body strtof junk allocates st = OutOfBounds.
Proof.
  intros (Ha & Hb & Hw) Hn R NZ A0 A1 A2 L E. unfold loop_body.
  rewrite R. cbn [bind].
  destruct (Nat.eqb_spec n 0) as [|_]; [contradiction|].
  destruct (Nat.eqb_spec (row_count st) 0) as [|_]; [lia|].
  rewrite A0, A1, A2. cbn [andb bind].
  rewrite (process_row_out_of_bounds _ _ _ _ _ a v2 L E); [reflexivity|].
  rewrite length_realloc, exact_slots_next. lia.
Qed.

Lemma loop_body_end (st : state) (tail : list ascii) :
  tail = [] \/ (exists t rest, tail = t :: rest /\ ends_row t = true) ->
  stdin st = tail -> loop_body strtof junk allocates st = Ok None.
Proof.
  intros Ht Hs. unfold loop_body. rewrite Hs.
  destruct Ht as [->|(t & rest & -> & Ht)].
  - reflexivity.
  - rewrite read_row_at_end by exact Ht. reflexivity.
Qed.

(** The loop is left only when [read_row] returns 0. *)
Lemma loop_body_none (st : state) :
  loop_body strtof junk allocates st = Ok None ->
  exists row' stdin', read_row (stdin st) (row st) 0 = Ok (0, row', stdin').
Proof.
  unfold loop_body.
  destruct (read_row (stdin st) (row st) 0) as [[[n row'] stdin']| |];
    cbn [bind]; try discriminate.
  destruct (Nat.eqb_spec n 0) as [->|NZ]; [intros _; eauto|].
  match goal with
  | |- bind ?m _ = _ -> _ => destruct m as [[[[date' a] b] w]| |]
  end; cbn [bind]; try discriminate.
  destruct (process_row strtof (row_count st) row' a b w) as [[[a' b'] w']| |];
    cbn [bind]; discriminate.
Qed.

(** With a row stored, a further line of the input ends the loop outside
    an array or in an exit. *)
Lemma loop_body_second_row (st : state) (line rest : list ascii) (t : ascii) :
  columns_in_step st -> 0 < row_count st ->
  plain line -> 0 < length line -> ends_row t = true ->
  stdin st = line ++ t :: rest ->
  forall o, loop_body strtof junk allocates st <> Ok o.
Proof.
  intros Hc Hn Hp Hl Ht Hs [st'|] H.
  - destruct (loop_body_first_row_only strtof junk allocates st st' Hc H). lia.
  - apply loop_body_none in H. destruct H as (row' & stdin' & R).
    rewrite Hs, read_row_line in R; [| exact Hp | right; eauto | lia].
    cbn [Nat.add] in R.
    destruct (length line <=? length (row st)); [|discriminate].
    injection R as R _ _. lia.
Qed.

Lemma length_newline_lines (lines : list (list ascii)) :
  length lines <= length (newline_lines lines).
Proof.
  induction lines as [|l ls IH]; [simpl; lia|].
  unfold newline_lines in *. cbn [map concat length].
  rewrite !length_app. simpl. lia.
Qed.

Lemma first_row_in_step (line : list ascii) (a b w : float32) (row0 date0 input : list ascii) :
  columns_in_step (with_stdin input (first_row line a b w row0 date0)).
Proof. repeat split. Qed.

(** The reading loop on lines of input: the first row is stored, and a
    second line is more than the columns hold. *)
Lemma read_loop_first_row (line : list ascii) (more : list (list ascii))
      (tail row0 date0 : list ascii) (a b w : float32) (fuel : nat) :
  plain line -> 0 < length line <= length row0 ->
  Forall (fun l => plain l /\ 0 < length l) more ->
  tail = [] \/ (exists t rest, tail = t :: rest /\ ends_row t = true) ->
  10 <= length row0 -> 11 <= length date0 ->
  allocates 0 0 = true -> allocates 0 1 = true -> allocates 0 2 = true ->
  row_values strtof (overlay line row0) = Ok (a, b, w) ->
  let input := newline_lines (line :: more) ++ tail in
  let st1 := with_stdin (newline_lines more ++ tail) (first_row line a b w row0 date0) in
  rows strtof junk allocates 1 (initial input row0 date0) = Ok (Some st1) /\
  (more = [] -> read_loop strtof junk allocates (S (S fuel)) (initial input row0 date0)
                = Some (Ok st1)) /\
  (more <> [] -> forall st, read_loop strtof junk allocates (S (S fuel))
                                      (initial input row0 date0) <> Some (Ok st)).
Proof.
  intros Hp Hl Hm Ht Hr Hd A0 A1 A2 Hv input st1.
  assert (B : loop_body strtof junk allocates (initial input row0 date0) = Ok (Some st1)).
  { apply (loop_body_first (initial input row0 date0) line (newline_lines more ++ tail)
             crunch_data.newline a b w); try assumption; try reflexivity.
    unfold input, newline_lines. cbn [map concat initial stdin].
    rewrite <- !app_assoc. reflexivity. }
  split; [cbn [rows bind]; exact B|].
  split.
  - intros ->. cbn [read_loop]. rewrite B.
    rewrite (loop_body_end st1 tail Ht); reflexivity.
  - intros Hne st. cbn [read_loop]. rewrite B.
    destruct more as [|l2 more]; [congruence|].
    inversion Hm as [|? ? [Hp2 Hl2] _]; subst.
    destruct (loop_body strtof junk allocates st1) as [o| |] eqn:E; try discriminate.
    exfalso.
    apply (loop_body_second_row st1 l2 (newline_lines more ++ tail) crunch_data.newline)
      with (o := o); try assumption; try reflexivity.
    + apply first_row_in_step.
    + cbn. lia.
    + unfold st1, newline_lines. cbn [map concat with_stdin stdin].
      rewrite <- !app_assoc. reflexivity.
Qed.
End CrunchRows.

(** ** Bounds of [get_mean] and [get_median] *)

Lemma get_mean_loop_out_of_bounds (v : list float32) (k : nat) :
  forall (x : nat) (total : float32),
  length v < x + k -> x <= length v ->
  get_mean_loop v k x total = OutOfBounds.
Proof.
  induction k as [|k IH]; intros x total H Hx; [lia|]. cbn [get_mean_loop].
  destruct (load_cases v x) as [[L [f ->]]|[L ->]]; [|reflexivity].
  cbn [bind]. apply IH; lia.
Qed.

Lemma get_mean_cases (v : list float32) (c : nat) :
  get_mean v c =
  if c <=? length v
  then Ok (fdiv (fsum (firstn c v)) (of_int (Z.of_nat c)))
  else OutOfBounds.
Proof.
  unfold get_mean. destruct (Nat.leb_spec c (length v)) as [L|L].
  - rewrite get_mean_loop_spec by lia. reflexivity.
  - rewrite get_mean_loop_out_of_bounds by lia. reflexivity.
Qed.

Lemma length_isort {A : Type} (cmp : A -> A -> Z) (l : list A) :
  length (isort cmp l) = length l.
Proof. apply Permutation_length, isort_perm. Qed.

Lemma qsort_cases {A : Type} (cmp : A -> A -> Z) (v : list A) (c : nat) :
  (c <= length v /\ exists v', qsort cmp v c = Ok v' /\ length v' = length v) \/
  (length v < c /\ qsort cmp v c = OutOfBounds).
Proof.
  unfold qsort. destruct (Nat.leb_spec c (length v)) as [L|L].
  - left. split; [exact L|]. eexists. split; [reflexivity|].
    rewrite length_app, length_isort, length_firstn, length_skipn. lia.
  - right. split; [exact L | reflexivity].
Qed.

Lemma get_median_cases (v : list float32) (c : nat) :
  (c <= length v /\ c / 2 + 1 < length v /\
   exists m v', get_median v c = Ok (m, v') /\ length v' = length v) \/
  ((length v < c \/ length v <= c / 2 + 1) /\ get_median v c = OutOfBounds).
Proof.
  unfold get_median.
  destruct (qsort_cases compare v c) as [(L & v' & -> & Hl)|(L & ->)];
    [|right; split; [left; exact L | reflexivity]].
  cbn [bind].
  destruct (negb (c mod 2 =? 0)).
  - destruct (load_cases v' (c / 2 + 1)) as [[L1 [m ->]]|[L1 ->]]; cbn [bind].
    + left. split; [exact L|]. split; [lia|]. eauto.
    + right. split; [right; lia | reflexivity].
  - destruct (load_cases v' (c / 2)) as [[L0 [a ->]]|[L0 ->]]; cbn [bind].
    + destruct (load_cases v' (c / 2 + 1)) as [[L1 [b ->]]|[L1 ->]]; cbn [bind].
      * left. split; [exact L|]. split; [lia|]. eauto.
      * right. split; [right; lia | reflexivity].
    + right. split; [right; lia | reflexivity].
Qed.

Lemma half_plus_one_lt (c : nat) : c / 2 + 1 < c <-> 3 <= c.
Proof.
  split; intros H.
  - destruct c as [|[|[|c]]]; [simpl in H; lia ..|lia].
  - pose proof (Nat.Div0.div_lt_upper_bound c 2 (c - 1)). lia.
Qed.

Lemma report_cases (st : state) :
  columns_in_step st ->
  (3 <= row_count st /\ exists s, report st = Ok s /\ date s = date_string st) \/
  (row_count st < 3 /\ report st = OutOfBounds).
Proof.
  intros (Ha & Hb & Hw). unfold report.
  rewrite !get_mean_cases, Ha, Hb, Hw, Nat.leb_refl. cbn [bind].
  pose proof (half_plus_one_lt (row_count st)) as T.
  destruct (get_median_cases (air_temp st) (row_count st))
    as [(_ & L & m1 & v1 & -> & _)|([L|L] & ->)];
    [| right; split; [lia | reflexivity] ..].
  cbn [bind].
  destruct (get_median_cases (bar_press st) (row_count st))
    as [(_ & _ & m2 & v2 & -> & _)|([L2|L2] & ->)]; [| exfalso; lia ..].
  cbn [bind].
  destruct (get_median_cases (wind_speed st) (row_count st))
    as [(_ & _ & m3 & v3 & -> & _)|([L3|L3] & ->)]; [| exfalso; lia ..].
  cbn [bind]. left. split; [lia|]. eexists. split; reflexivity.
Qed.

(** ** What follows a blank line is not read *)

Lemma read_row_same_to_blank (s : list ascii) :
  forall (r1 r2 buf : list ascii) (offset : nat),
  match read_row (s ++ blank ++ r1) buf offset,
        read_row (s ++ blank ++ r2) buf offset with
  | Ok (n1, b1, i1), Ok (n2, b2, i2) => n1 = n2 /\ b1 = b2 /\ same_to_blank i1 i2
  | OutOfBounds, OutOfBounds => True
  | _, _ => False
  end.
Proof.
  induction s as [|c s IH]; intros r1 r2 buf offset.
  - cbn [app blank read_row]. cbn.
    split; [reflexivity|]. split; [reflexivity|]. right. eauto.
  - cbn [app read_row].
    destruct (Ascii.eqb c EOF_byte);
      [split; [reflexivity|]; split; [reflexivity|]; left; eauto|].
    destruct (Ascii.eqb c crunch_data.newline);
      [split; [reflexivity|]; split; [reflexivity|]; left; eauto|].
    unfold store. destruct (offset <? length buf); cbn [bind]; [apply IH | exact I].
Qed.

Section BlankLine.
Variable strtof : list ascii -> outcome (float32 * list ascii).
Variable junk : float32.
Variable allocates : nat -> nat -> bool.

Lemma loop_body_alike (st1 st2 : state) :
  alike st1 st2 ->
  match loop_body strtof junk allocates st1, loop_body strtof junk allocates st2 with
  | Ok (Some a), Ok (Some b) => alike a b
  | Ok None, Ok None => True
  | OutOfBounds, OutOfBounds => True
  | Exit s e, Exit s' e' => s = s' /\ e = e'
  | _, _ => False
  end.
Proof.
  intros [E S]. destruct st1 as [i1 r d n a b w], st2 as [i2 r' d' n' a' b' w'].
  unfold with_stdin in E; cbn in E. injection E as <- <- <- <- <- <-.
  cbn [stdin] in S. unfold loop_body; cbn [stdin row date_string row_count air_temp bar_press wind_speed].
  destruct S as [(s & r1 & r2 & -> & ->)|(r1 & r2 & -> & ->)].
  - pose proof (read_row_same_to_blank s r1 r2 r 0) as H.
    destruct (read_row (s ++ blank ++ r1) r 0) as [[[n1 b1] j1]| |];
      destruct (read_row (s ++ blank ++ r2) r 0) as [[[n2 b2] j2]| |];
      try contradiction; cbn [bind]; [|exact I].
    destruct H as (<- & <- & S).
    destruct (n1 =? 0); [exact I|].
    match goal with
    | |- match bind ?m _ with _ => _ end => destruct m as [[[[date' x] y] z]| |]
    end; cbn [bind]; [| exact I | split; reflexivity].
    destruct (process_row strtof n b1 x y z) as [[[x' y'] z']| |]; cbn [bind];
      [| exact I | split; reflexivity].
    split; [reflexivity | exact S].
  - cbn [read_row]. cbn. exact I.
Qed.

Lemma read_loop_alike (fuel : nat) : forall st1 st2 : state,
  alike st1 st2 ->
  match read_loop strtof junk allocates fuel st1,
        read_loop strtof junk allocates fuel st2 with
  | Some (Ok a), Some (Ok b) => with_stdin [] a = with_stdin [] b
  | Some OutOfBounds, Some OutOfBounds => True
  | Some (Exit s e), Some (Exit s' e') => s = s' /\ e = e'
  | None, None => True
  | _, _ => False
  end.
Proof.
  induction fuel as [|fuel IH]; intros st1 st2 H; cbn [read_loop]; [exact I|].
  pose proof (loop_body_alike st1 st2 H) as B.
  destruct (loop_body strtof junk allocates st1) as [[a|]| |];
    destruct (loop_body strtof junk allocates st2) as [[b|]| |]; try contradiction.
  - apply IH. exact B.
  - apply H.
  - exact I.
  - exact B.
Qed.

Lemma read_loop_more_fuel (fuel : nat) : forall (st : state) (r : outcome state) (fuel' : nat),
  read_loop strtof junk allocates fuel st = Some r -> fuel <= fuel' ->
  read_loop strtof junk allocates fuel' st = Some r.
Proof.
  induction fuel as [|fuel IH]; intros st r fuel' H L; [discriminate|].
  destruct fuel' as [|fuel']; [lia|]. cbn [read_loop] in *.
  destruct (loop_body strtof junk allocates st) as [[a|]| |]; try exact H.
  apply IH; [exact H | lia].
Qed.
End BlankLine.

Lemma report_with_stdin (input : list ascii) (st : state) :
  report (with_stdin input st) = report st.
Proof. reflexivity. Qed.

(** ** [compare] on numbers with a minus sign *)

Lemma negative_finite_inv (f : float32) :
  negative_finite f = true ->
  valid f = true /\ sign f = true /\ nonneg_finite (SFabs f) = true.
Proof.
  unfold negative_finite, nonneg_finite. intros H.
  apply andb_true_iff in H as [H Hs]. apply andb_true_iff in H as [Hv Hf].
  repeat split; try assumption.
  destruct f as [s|s| |s m e]; simpl in *; try discriminate.
  - reflexivity.
  - unfold valid in *. cbn [valid_binary] in *. rewrite Hv. reflexivity.
Qed.

(** The pattern of a negative number is that of its magnitude with the
    sign bit set, which read as [int] is [2^31] less. *)
Lemma int_key_negative (f : float32) :
  negative_finite f = true ->
  int_key f = (bits (SFabs f) - 2 ^ 31)%Z /\ (0 <= bits (SFabs f) < 2 ^ 31)%Z.
Proof.
  intros H. destruct (negative_finite_inv f H) as (Hv & Hs & Ha).
  destruct (nonneg_finite_inv _ Ha) as (Va & Sa & _).
  destruct (as_int_nonneg _ Va Sa) as [_ R].
  split; [|exact R].
  assert (E : bits f = (2 ^ 31 + bits (SFabs f))%Z).
  { destruct f as [s|s| |s m e]; simpl in Hs; try discriminate; subst s.
    - reflexivity.
    - cbn [SFabs] in *. rewrite (bits_finite _ _ _ Hv), (bits_finite _ _ _ Va).
      unfold sign_bit. lia. }
  unfold int_key, as_int. rewrite E.
  destruct (Z.ltb_spec (2 ^ 31 + bits (SFabs f)) (2 ^ 31)); pow2; lia.
Qed.

Lemma int_key_nonneg (f : float32) :
  nonneg_finite f = true ->
  int_key f = bits f /\ (0 <= bits f < 2 ^ 31)%Z.
Proof.
  intros H. destruct (nonneg_finite_inv f H) as (Hv & Hs & _).
  apply as_int_nonneg; assumption.
Qed.

Lemma scaled_negative (f : float32) :
  negative_finite f = true -> scaled f = (- scaled (SFabs f))%Z.
Proof.
  intros H. destruct (negative_finite_inv f H) as (_ & Hs & _).
  destruct f as [s|s| |s m e]; simpl in Hs; try discriminate; subst s.
  - reflexivity.
  - cbn [scaled SFabs cond_Zopp]. lia.
Qed.

(** Two numbers with a minus sign: no wrap-around, and the order of the
    [int]s is the reverse of the numeric order. *)
Lemma compare_negative_finite (a b : float32) :
  negative_finite a = true -> negative_finite b = true ->
  compare a b = (int_key a - int_key b)%Z /\
  (compare a b ?= 0)%Z = (value b ?= value a)%Q.
Proof.
  intros Ha Hb.
  destruct (int_key_negative a Ha) as [Ka Ra].
  destruct (int_key_negative b Hb) as [Kb Rb].
  destruct (negative_finite_inv a Ha) as (Va & _ & Na).
  destruct (negative_finite_inv b Hb) as (Vb & _ & Nb).
  assert (E : compare a b = (int_key a - int_key b)%Z).
  { unfold compare. fold (int_key a) (int_key b).
    apply wrap_int_in_range. rewrite Ka, Kb. pow2. lia. }
  split; [exact E|].
  rewrite value_compare_scaled by assumption.
  rewrite (scaled_negative a Ha), (scaled_negative b Hb), Z.compare_opp.
  rewrite scaled_compare_bits by assumption.
  rewrite E, Ka, Kb.
  rewrite (Z.compare_sub (bits (SFabs a)) (bits (SFabs b))). f_equal. lia.
Qed.

Lemma value_negative (f : float32) :
  negative_finite f = true -> (value (SFabs f) == - value f)%Q.
Proof.
  intros H. destruct (negative_finite_inv f H) as (Hv & _ & Ha).
  destruct (nonneg_finite_inv _ Ha) as (Va & _ & _).
  rewrite (value_scaled _ Va), (value_scaled _ Hv), (scaled_negative f H).
  rewrite inject_Z_opp. ring.
Qed.

Lemma int_key_range (f : float32) :
  valid f = true -> (- 2 ^ 31 <= int_key f < 2 ^ 31)%Z.
Proof.
  intros Hv. pose proof (bits_range f Hv) as R.
  unfold int_key, as_int.
  destruct (Z.ltb_spec (bits f) (2 ^ 31)); revert R; unfold sign_bit;
    destruct (sign f); pow2; lia.
Qed.

Lemma negative_finite_no_wrap (l : list float32) :
  Forall (fun f => negative_finite f = true) l -> no_wrap l.
Proof.
  intros H x y Hx Hy. rewrite Forall_forall in H.
  destruct (int_key_negative x (H x Hx)) as [Kx Rx].
  destruct (int_key_negative y (H y Hy)) as [Ky Ry].
  apply in_int_range_spec. rewrite Kx, Ky. pow2. lia.
Qed.

Lemma key_le_value_ge (a b : float32) :
  negative_finite a = true -> negative_finite b = true ->
  key_le int_key a b -> value_ge a b.
Proof.
  intros Ha Hb H. unfold value_ge. apply Qle_alt.
  destruct (compare_negative_finite a b Ha Hb) as [E <-].
  rewrite E. unfold key_le in H. apply Z.compare_le_iff. lia.
Qed.

Lemma isort_negative_finite_descending (v : list float32) :
  Forall (fun f => negative_finite f = true) v ->
  StronglySorted value_ge (isort compare v).
Proof.
  intros H.
  apply StronglySorted_impl_in with (R := key_le int_key).
  - assert (H' : Forall (fun f => negative_finite f = true) (isort compare v)).
    { rewrite Forall_forall in H |- *. intros x Hx. apply H.
      apply Permutation_in with (l := isort compare v); [apply isort_perm | exact Hx]. }
    rewrite Forall_forall in H'.
    intros x y Hx Hy. apply key_le_value_ge; auto.
  - apply isort_sorted, no_wrap_agrees, negative_finite_no_wrap, H.
Qed.

(** ** The buffer that [fetch_web_data] fills *)

Lemma write_mem_appends (data contents : list ascii) (x : ascii) :
  write_mem contents true {| buffer := data ++ [x]; size := length data |}
  = Ok {| buffer := (data ++ contents) ++ [NUL]; size := length (data ++ contents) |}.
Proof.
  unfold write_mem; cbn [buffer size].
  rewrite firstn_app, firstn_all, Nat.sub_diag. cbn [firstn].
  rewrite app_nil_r, length_app, <- app_assoc. reflexivity.
Qed.

Lemma deliver_pieces (ps : list (list ascii)) : forall (data : list ascii) (x : ascii),
  ps <> [] ->
  deliver (map (fun p => (p, true)) ps)
          {| buffer := data ++ [x]; size := length data |}
  = Ok {| buffer := (data ++ concat ps) ++ [NUL];
          size := length (data ++ concat ps) |}.
Proof.
  induction ps as [|p ps IH]; intros data x Hne; [congruence|].
  cbn [map deliver concat]. rewrite write_mem_appends. cbn [bind].
  destruct ps as [|q qs].
  - cbn [map deliver concat]. rewrite app_nil_r. reflexivity.
  - rewrite IH by discriminate. rewrite <- !app_assoc. reflexivity.
Qed.

Lemma fetch_web_data_concat (junk : ascii) (ps : list (list ascii)) :
  ps <> [] ->
  fetch_web_data junk (delivered ps)
  = Ok {| buffer := concat ps ++ [NUL]; size := length (concat ps) |}.
Proof.
  intros H. unfold fetch_web_data, delivered; cbn [handle pieces result].
  change {| buffer := [junk]; size := 0 |}
    with {| buffer := [] ++ [junk]; size := length (@nil ascii) |}.
  rewrite (deliver_pieces ps [] junk H). reflexivity.
Qed.

(** A transfer that goes well without a piece leaves the byte of
    [malloc(1)]. *)
Lemma fetch_web_data_nothing (junk : ascii) :
  fetch_web_data junk (delivered []) = Ok {| buffer := [junk]; size := 0 |}.
Proof. reflexivity. Qed.

(** A transfer that goes well returns. *)
Lemma fetch_web_data_delivered (junk : ascii) (ps : list (list ascii)) :
  exists w, fetch_web_data junk (delivered ps) = Ok w.
Proof.
  destruct ps as [|p ps].
  - eexists. apply fetch_web_data_nothing.
  - eexists. apply fetch_web_data_concat. discriminate.
Qed.

(** [fetch_web_data] leaves with status 1 or not at all. *)
Lemma write_mem_exit (contents : list ascii) (allocated : bool) (mem : web_data)
      (s : Z) (e : string) :
  write_mem contents allocated mem = Exit s e -> s = 1%Z /\ e = no_buffer.
Proof. unfold write_mem. destruct allocated; [discriminate|]. intros [= <- <-]. auto. Qed.

Lemma write_mem_in_bounds (contents : list ascii) (allocated : bool) (mem : web_data) :
  write_mem contents allocated mem <> OutOfBounds.
Proof. unfold write_mem. destruct allocated; discriminate. Qed.

Lemma deliver_exit (ps : list (list ascii * bool)) : forall (mem : web_data) (s : Z) (e : string),
  deliver ps mem = Exit s e -> s = 1%Z /\ e = no_buffer.
Proof.
  induction ps as [|[contents allocated] ps IH]; intros mem s e; cbn [deliver]; [discriminate|].
  destruct (write_mem contents allocated mem) as [mem'| |] eqn:W; cbn [bind].
  - apply IH.
  - discriminate.
  - intros [= <- <-]. exact (write_mem_exit _ _ _ _ _ W).
Qed.

Lemma deliver_in_bounds (ps : list (list ascii * bool)) : forall mem : web_data,
  deliver ps mem <> OutOfBounds.
Proof.
  induction ps as [|[contents allocated] ps IH]; intros mem; cbn [deliver]; [discriminate|].
  destruct (write_mem contents allocated mem) as [mem'| |] eqn:W; cbn [bind].
  - apply IH.
  - exfalso. exact (write_mem_in_bounds _ _ _ W).
  - discriminate.
Qed.

Lemma fetch_web_data_exit (junk : ascii) (t : curl_transfer) (s : Z) (e : string) :
  fetch_web_data junk t = Exit s e ->
  s = 1%Z /\
  (e = no_curl \/ e = no_buffer \/ exists strerror, e = curl_failed strerror).
Proof.
  unfold fetch_web_data. destruct (handle t); [|intros [= <- <-]; auto].
  destruct (deliver (pieces t) _) as [mem| |] eqn:D; cbn [bind].
  - destruct (result t) as [strerror|]; [intros [= <- <-]; eauto | discriminate].
  - discriminate.
  - intros [= <- <-]. destruct (deliver_exit _ _ _ _ D) as [-> ->]. auto.
Qed.

Lemma fetch_web_data_in_bounds (junk : ascii) (t : curl_transfer) :
  fetch_web_data junk t <> OutOfBounds.
Proof.
  unfold fetch_web_data. destruct (handle t); [|discriminate].
  destruct (deliver (pieces t) _) as [mem| |] eqn:D; cbn [bind].
  - destruct (result t); discriminate.
  - exfalso. exact (deliver_in_bounds _ _ D).
  - discriminate.
Qed.

(** ** [strstr] *)

Lemma starts_with_iff (needle : list ascii) : forall s : list ascii,
  starts_with needle s = true <-> exists post, s = needle ++ post.
Proof.
  induction needle as [|a needle IH]; intros s; cbn [starts_with].
  - split; [intros _; exists s; reflexivity | reflexivity].
  - destruct s as [|b s].
    + split; [discriminate | intros [post H]; discriminate H].
    + rewrite andb_true_iff, IH. split.
      * intros [E [post ->]]. apply Ascii.eqb_eq in E. subst. exists post. reflexivity.
      * intros [post H]. injection H as -> ->. split; [apply Ascii.eqb_refl | eauto].
Qed.

Lemma strstr_iff (needle : list ascii) (s : list ascii) :
  strstr s needle = true <-> exists pre post, s = pre ++ needle ++ post.
Proof.
  induction s as [|c s IH]; cbn [strstr]; rewrite orb_true_iff, starts_with_iff.
  - split.
    + intros [[post H]|H]; [|discriminate]. exists [], post. exact H.
    + intros (pre & post & H). left. destruct pre as [|x pre]; [|discriminate].
      exists post. exact H.
  - rewrite IH. split.
    + intros [[post H]|(pre & post & H)].
      * exists [], post. exact H.
      * exists (c :: pre), post. rewrite H. reflexivity.
    + intros (pre & post & H). destruct pre as [|x pre].
      * left. exists post. exact H.
      * right. injection H as -> H. eauto.
Qed.

Lemma c_string_terminated (s t : list ascii) :
  c_string (s ++ NUL :: t) = c_string s.
Proof.
  induction s as [|c s IH]; cbn [app c_string].
  - reflexivity.
  - destruct (Ascii.eqb c NUL); [reflexivity | rewrite IH; reflexivity].
Qed.

Lemma c_string_no_zero (s : list ascii) :
  Forall (fun c => c <> NUL) s -> c_string s = s.
Proof.
  induction 1 as [|c s Hc Hs IH]; cbn [c_string]; [reflexivity|].
  destruct (Ascii.eqb_spec c NUL); [contradiction | rewrite IH; reflexivity].
Qed.

Lemma string_at_terminated (s t : list ascii) :
  string_at (s ++ NUL :: t) = Ok (c_string s).
Proof.
  induction s as [|c s IH]; cbn [app c_string string_at].
  - reflexivity.
  - destruct (Ascii.eqb c NUL); [reflexivity | rewrite IH; reflexivity].
Qed.

Lemma string_at_no_exit (b : list ascii) (s : Z) (e : string) :
  string_at b <> Exit s e.
Proof.
  induction b as [|c b IH]; cbn [string_at]; [discriminate|].
  destruct (Ascii.eqb c NUL); [discriminate|].
  destruct (string_at b); cbn [bind]; try discriminate. exact IH.
Qed.

Lemma merge_loop_no_exit (air bar wind : web_data) (bytes_read : nat) (fuel : nat) :
  forall (output : nat) (stdout : list ascii) (s : Z) (e : string),
  merge_loop fuel air bar wind bytes_read output stdout <> Some (Exit s e).
Proof.
  induction fuel as [|fuel IH]; intros output stdout s e; cbn [merge_loop];
    destruct (output <? bytes_read); try discriminate.
  destruct (merge_row air bar wind output) as [[text written]| |] eqn:E.
  - apply IH.
  - discriminate.
  - exfalso. exact (merge_row_no_exit _ _ _ _ _ _ E).
Qed.

(** ** What [write_line] writes and returns *)

Lemma print_run_ok_iff (text out : list ascii) :
  print_run text = Ok out <->
  exists c rest, text = out ++ c :: rest /\ printable out /\ isprint c = false.
Proof.
  split.
  - revert out. induction text as [|x text IH]; intros out; cbn [print_run]; [discriminate|].
    destruct (isprint x) eqn:Px.
    + destruct (print_run text) as [o| |]; cbn [bind]; try discriminate.
      intros [= <-]. destruct (IH o eq_refl) as (c & rest & -> & Po & Pc).
      exists c, rest. split; [reflexivity|]. split; [constructor; assumption | exact Pc].
    + intros [= <-]. exists x, text. split; [reflexivity|]. split; [constructor | exact Px].
  - intros (c & rest & -> & Po & Pc). apply print_run_line; assumption.
Qed.

Lemma print_run_out_of_bounds_iff (text : list ascii) :
  print_run text = OutOfBounds <-> printable text.
Proof.
  induction text as [|x text IH]; cbn [print_run].
  - split; [constructor | reflexivity].
  - destruct (isprint x) eqn:Px.
    + destruct (print_run text) as [o| |] eqn:E; cbn [bind].
      * split; [discriminate|]. intros H. inversion H as [|? ? _ Ht]; subst.
        apply IH in Ht. discriminate Ht.
      * split; [|reflexivity]. intros _. constructor; [exact Px | apply IH; reflexivity].
      * exfalso. exact (print_run_no_exit _ _ _ E).
    + split; [discriminate|]. intros H. inversion H as [|? ? Hx _]; subst. congruence.
Qed.

(** ** One pass of the merging loop *)

Lemma crlf_lines_cons (l : list ascii) (ls : list (list ascii)) :
  crlf_lines (l :: ls) = l ++ CR :: LF :: crlf_lines ls.
Proof.
  unfold crlf_lines. cbn [map concat]. rewrite <- app_assoc. reflexivity.
Qed.

Lemma write_line_ok_iff (buf : list ascii) (pos offset : nat) (out : list ascii) (n : nat) :
  write_line buf pos offset = Ok (out, n) <->
  run_at buf (pos + offset) out /\ n = offset + length out + 2.
Proof.
  unfold write_line, run_at. split.
  - destruct (print_run (skipn (pos + offset) buf)) as [o| |] eqn:E; cbn [bind];
      try discriminate.
    intros [= <- <-]. split; [apply print_run_ok_iff; exact E | reflexivity].
  - intros [H ->]. apply print_run_ok_iff in H. rewrite H. reflexivity.
Qed.

Lemma merge_row_ok_iff (air bar wind : web_data) (output : nat) (text : list ascii)
      (written : nat) :
  merge_row air bar wind output = Ok (text, written) <->
  exists l1 l2 l3,
    run_at (buffer air) output l1 /\
    run_at (buffer bar) (output + VALUE_READ_OFFSET) l2 /\
    run_at (buffer wind) (output + VALUE_READ_OFFSET) l3 /\
    text = row_of l1 l2 l3 /\ written = length l1 + 2.
Proof.
  unfold merge_row. split.
  - destruct (write_line (buffer air) output 0) as [[l1 w1]| |] eqn:E1; cbn [bind];
      try discriminate.
    destruct (write_line (buffer bar) output VALUE_READ_OFFSET) as [[l2 w2]| |] eqn:E2;
      cbn [bind]; try discriminate.
    destruct (write_line (buffer wind) output VALUE_READ_OFFSET) as [[l3 w3]| |] eqn:E3;
      cbn [bind]; try discriminate.
    intros [= <- <-].
    apply write_line_ok_iff in E1, E2, E3.
    destruct E1 as [R1 ->], E2 as [R2 _], E3 as [R3 _].
    rewrite Nat.add_0_r in R1.
    exists l1, l2, l3. repeat split; assumption.
  - intros (l1 & l2 & l3 & R1 & R2 & R3 & -> & ->).
    rewrite (proj2 (write_line_ok_iff (buffer air) output 0 l1 (0 + length l1 + 2)))
      by (rewrite Nat.add_0_r; split; [exact R1 | reflexivity]).
    cbn [bind].
    rewrite (proj2 (write_line_ok_iff (buffer bar) output VALUE_READ_OFFSET l2 _)
               (conj R2 eq_refl)).
    cbn [bind].
    rewrite (proj2 (write_line_ok_iff (buffer wind) output VALUE_READ_OFFSET l3 _)
               (conj R3 eq_refl)).
    reflexivity.
Qed.

(** A pass of the loop writes the row of the three runs and moves the
    offset behind the run of the first page and two bytes more. *)
Lemma merge_loop_pass (fuel : nat) (air bar wind : web_data) (bytes_read output : nat)
      (stdout l1 l2 l3 : list ascii) :
  output < bytes_read ->
  run_at (buffer air) output l1 ->
  run_at (buffer bar) (output + VALUE_READ_OFFSET) l2 ->
  run_at (buffer wind) (output + VALUE_READ_OFFSET) l3 ->
  merge_loop (S fuel) air bar wind bytes_read output stdout
  = merge_loop fuel air bar wind bytes_read (output + (length l1 + 2))
               (stdout ++ row_of l1 l2 l3).
Proof.
  intros L R1 R2 R3. cbn [merge_loop].
  destruct (Nat.ltb_spec output bytes_read) as [_|]; [|lia].
  rewrite (proj2 (merge_row_ok_iff air bar wind output (row_of l1 l2 l3) (length l1 + 2)));
    [reflexivity|].
  exists l1, l2, l3. auto.
Qed.

(** The loop returns from an offset below [bytes_read] only through such
    a pass. *)
Lemma merge_loop_passed (fuel : nat) (air bar wind : web_data) (bytes_read output : nat)
      (stdout out : list ascii) (final : nat) :
  output < bytes_read ->
  merge_loop fuel air bar wind bytes_read output stdout = Some (Ok (out, final)) ->
  exists fuel' l1 l2 l3,
    fuel = S fuel' /\
    run_at (buffer air) output l1 /\
    run_at (buffer bar) (output + VALUE_READ_OFFSET) l2 /\
    run_at (buffer wind) (output + VALUE_READ_OFFSET) l3 /\
    merge_loop fuel' air bar wind bytes_read (output + (length l1 + 2))
               (stdout ++ row_of l1 l2 l3) = Some (Ok (out, final)).
Proof.
  intros L. destruct fuel as [|fuel]; cbn [merge_loop];
    destruct (Nat.ltb_spec output bytes_read) as [_|]; try lia; try discriminate.
  destruct (merge_row air bar wind output) as [[text written]| |] eqn:E; try discriminate.
  apply merge_row_ok_iff in E. destruct E as (l1 & l2 & l3 & R1 & R2 & R3 & -> & ->).
  intros H. exists fuel, l1, l2, l3. auto.
Qed.

Lemma merge_loop_left (fuel : nat) (air bar wind : web_data) (bytes_read output : nat)
      (stdout : list ascii) :
  bytes_read <= output ->
  merge_loop fuel air bar wind bytes_read output stdout = Some (Ok (stdout, output)).
Proof.
  intros H. destruct fuel; cbn [merge_loop];
    destruct (Nat.ltb_spec output bytes_read); (lia || reflexivity).
Qed.

Lemma run_at_line (done line rest : list ascii) (c : ascii) (run : list ascii) :
  printable line -> isprint c = false ->
  run_at (done ++ line ++ c :: rest) (length done) run -> run = line.
Proof.
  intros Hp Hc (c' & rest' & E & Hr & Hc').
  rewrite skipn_app, skipn_all, Nat.sub_diag in E. cbn [app skipn] in E.
  assert (P : print_run (line ++ c :: rest) = Ok line) by (apply print_run_line; assumption).
  rewrite E in P. rewrite print_run_line in P by assumption. congruence.
Qed.

(** On a first page of printable lines, each closed by CR LF, the loop
    writes one row for each line, which starts with the line, and ends on
    the length of the page. *)
Lemma merge_loop_crlf_rows (bar wind : web_data) (fuel : nat) :
  forall (lines : list (list ascii)) (done : list ascii) (air : web_data)
         (stdout out : list ascii) (final : nat),
  Forall printable lines ->
  buffer air = done ++ crlf_lines lines ++ [NUL] ->
  size air = length done + length (crlf_lines lines) ->
  merge_loop fuel air bar wind (size air) (length done) stdout = Some (Ok (out, final)) ->
  final = size air /\
  exists texts,
    out = stdout ++ concat texts /\
    Forall2 (fun line text => exists l2 l3, text = row_of line l2 l3) lines texts.
Proof.
  induction fuel as [|fuel IH]; intros lines done air stdout out final Hp Hb Hs H.
  - cbn [merge_loop] in H.
    destruct (Nat.ltb_spec (length done) (size air)) as [L|L]; [discriminate|].
    injection H as <- <-.
    destruct lines as [|line lines]; [|rewrite length_crlf_lines_cons in Hs; lia].
    split; [cbn in Hs; lia|]. exists []. split; [rewrite app_nil_r; reflexivity | constructor].
  - destruct (Nat.lt_ge_cases (length done) (size air)) as [L|L].
    + destruct lines as [|line lines]; [cbn in Hs; lia|].
      inversion Hp as [|? ? Hline Hrest]; subst.
      destruct (merge_loop_passed _ _ _ _ _ _ _ _ _ L H)
        as (fuel' & l1 & l2 & l3 & [= <-] & R1 & R2 & R3 & H').
      assert (E1 : l1 = line).
      { rewrite Hb, crlf_lines_cons, <- app_assoc in R1. cbn [app] in R1.
        apply (run_at_line done line _ CR l1 Hline eq_refl R1). }
      subst l1.
      replace (length done + (length line + 2)) with (length (done ++ line ++ [CR; LF])) in H'
        by (rewrite !length_app; simpl; lia).
      assert (Hb' : buffer air = (done ++ line ++ [CR; LF]) ++ crlf_lines lines ++ [NUL])
        by (rewrite Hb, crlf_lines_cons, <- !app_assoc; reflexivity).
      assert (Hs' : size air = length (done ++ line ++ [CR; LF]) + length (crlf_lines lines))
        by (rewrite Hs, length_crlf_lines_cons, !length_app; simpl; lia).
      destruct (IH lines (done ++ line ++ [CR; LF]) air _ out final Hrest Hb' Hs' H')
        as (Hf & texts & -> & F).
      * split; [exact Hf|]. exists (row_of line l2 l3 :: texts). split.
        -- cbn [concat]. rewrite <- app_assoc. reflexivity.
        -- constructor; [eauto | exact F].
    + rewrite merge_loop_left in H by exact L. injection H as <- <-.
      destruct lines as [|line lines]; [|rewrite length_crlf_lines_cons in Hs; lia].
      split; [cbn in Hs; lia|]. exists []. split; [rewrite app_nil_r; reflexivity | constructor].
Qed.

(** ** Merging pages whose lines are aligned *)

Lemma printable_skipn (n : nat) (l : list ascii) :
  printable l -> printable (skipn n l).
Proof.
  unfold printable. intros H. rewrite Forall_forall in *.
  intros c Hc. apply H. rewrite <- (firstn_skipn n l). apply in_or_app. right. exact Hc.
Qed.

(** [write_line] at the start of a line that sits [length done] bytes into
    the buffer. *)
Lemma write_line_at (done line rest : list ascii) (offset : nat) :
  printable line -> offset <= length line ->
  write_line (done ++ line ++ CR :: rest) (length done) offset
  = Ok (skipn offset line, length line + 2).
Proof.
  intros Hp Ho. unfold write_line.
  rewrite (Nat.add_comm (length done)), <- skipn_skipn, skipn_app, skipn_all, Nat.sub_diag.
  cbn [app]. change (skipn 0 (line ++ CR :: rest)) with (line ++ CR :: rest).
  rewrite skipn_app. replace (offset - length line) with 0 by lia.
  cbn [skipn]. rewrite print_run_line by (try apply printable_skipn; auto).
  cbn [bind]. rewrite length_skipn. do 2 f_equal. lia.
Qed.

Lemma merge_loop_aligned (rows : list (list ascii * list ascii * list ascii)) :
  forall (fuel : nat) (da db dw stdout : list ascii) (air bar wind : web_data),
  Forall aligned rows ->
  length rows <= fuel ->
  length db = length da -> length dw = length da ->
  buffer air = da ++ crlf_lines (map line_a rows) ++ [NUL] ->
  buffer bar = db ++ crlf_lines (map line_b rows) ++ [NUL] ->
  buffer wind = dw ++ crlf_lines (map line_w rows) ++ [NUL] ->
  merge_loop fuel air bar wind
             (length da + length (crlf_lines (map line_a rows))) (length da) stdout
  = Some (Ok (stdout ++ concat (map merged_row rows),
              length da + length (crlf_lines (map line_a rows)))).
Proof.
  induction rows as [|[[a b] w] rows IH];
    intros fuel da db dw stdout air bar wind Hal Hf Hb Hw Ea Eb Ew.
  - cbn [map concat]. change (crlf_lines []) with (@nil ascii). cbn [length].
    rewrite Nat.add_0_r, app_nil_r.
    destruct fuel; cbn [merge_loop]; rewrite Nat.ltb_irrefl; reflexivity.
  - inversion Hal as [|? ? Hrow Hrest]; subst.
    cbv [aligned] in Hrow. destruct Hrow as (Pa & Pb & Pw & Lb & Lw & L19).
    destruct fuel as [|fuel]; [simpl in Hf; lia|].
    cbn [map line_a line_b line_w fst snd] in *.
    rewrite crlf_lines_cons in *.
    cbn [merge_loop].
    destruct (Nat.ltb_spec (length da) (length da + length (a ++ CR :: LF :: crlf_lines (map line_a rows))))
      as [L|L]; [|rewrite length_app in L; simpl in L; lia].
    unfold merge_row. rewrite Ea, Eb, Ew.
    rewrite <- !app_assoc. cbn [app].
    rewrite (write_line_at da a _ 0 Pa) by lia.
    cbn [bind skipn].
    rewrite <- Hb at 1. rewrite (write_line_at db b _ VALUE_READ_OFFSET Pb) by lia.
    cbn [bind].
    rewrite <- Hw at 1. rewrite (write_line_at dw w _ VALUE_READ_OFFSET Pw) by lia.
    cbn [bind].
    replace (length da + (length a + 2)) with (length (da ++ a ++ [CR; LF]))
      by (rewrite !length_app; simpl; lia).
    replace (length da + length (a ++ CR :: LF :: crlf_lines (map line_a rows)))
      with (length (da ++ a ++ [CR; LF]) + length (crlf_lines (map line_a rows)))
      by (rewrite !length_app; simpl; lia).
    rewrite (IH fuel (da ++ a ++ [CR; LF]) (db ++ b ++ [CR; LF]) (dw ++ w ++ [CR; LF])).
    + cbn [concat merged_row]. rewrite <- !app_assoc. reflexivity.
    + exact Hrest.
    + simpl in Hf. lia.
    + rewrite !length_app. simpl. lia.
    + rewrite !length_app. simpl. lia.
    + rewrite Ea, <- !app_assoc. reflexivity.
    + rewrite Eb, <- !app_assoc. reflexivity.
    + rewrite Ew, <- !app_assoc. reflexivity.
Qed.

Lemma isprint_not_NUL (c : ascii) : isprint c = true -> c <> NUL.
Proof. intros H ->. discriminate H. Qed.

Lemma crlf_lines_no_zero (lines : list (list ascii)) :
  Forall printable lines -> Forall (fun c => c <> NUL) (crlf_lines lines).
Proof.
  induction 1 as [|l ls Hl Hls IH].
  - constructor.
  - rewrite crlf_lines_cons. apply Forall_app. split.
    + revert Hl. unfold printable. apply Forall_impl. exact isprint_not_NUL.
    + constructor; [discriminate|]. constructor; [discriminate | exact IH].
Qed.

Lemma length_crlf_lines (lines : list (list ascii)) :
  length lines <= length (crlf_lines lines).
Proof.
  induction lines as [|l ls IH]; [simpl; lia|].
  rewrite crlf_lines_cons, length_app. simpl. lia.
Qed.

Lemma aligned_printable (rows : list (list ascii * list ascii * list ascii)) :
  Forall aligned rows -> Forall printable (map line_a rows).
Proof.
  induction 1 as [|[[a b] w] rows H Hr IH]; cbn [map]; constructor.
  - apply H.
  - exact IH.
Qed.

(** [main] on three pages of aligned lines, none of them an error page. *)
Lemma main_aligned (junk : ascii) (air bar wind : list (list ascii))
      (rows : list (list ascii * list ascii * list ascii)) :
  Forall aligned rows ->
  air <> [] -> bar <> [] -> wind <> [] ->
  concat air = crlf_lines (map line_a rows) ->
  concat bar = crlf_lines (map line_b rows) ->
  concat wind = crlf_lines (map line_w rows) ->
  strstr (concat air) error_html = false ->
  fetch_data.main junk (delivered air) (delivered bar) (delivered wind)
  = Some (Ok (concat (map merged_row rows))).
Proof.
  intros Hal Na Nb Nw Ea Eb Ew Hs. unfold fetch_data.main, fetch_pages.
  rewrite !fetch_web_data_concat by assumption. cbn [buffer size bind].
  replace (concat air ++ [NUL]) with (concat air ++ NUL :: []) by reflexivity.
  rewrite string_at_terminated. cbn [bind].
  rewrite c_string_no_zero
    by (rewrite Ea; apply crlf_lines_no_zero, aligned_printable, Hal).
  fold error_html. rewrite Hs. cbn [bind size].
  rewrite Ea.
  pose proof (merge_loop_aligned rows (S (length (crlf_lines (map line_a rows))))
                [] [] [] []
                {| buffer := crlf_lines (map line_a rows) ++ [NUL];
                   size := length (crlf_lines (map line_a rows)) |}
                {| buffer := concat bar ++ [NUL]; size := length (concat bar) |}
                {| buffer := concat wind ++ [NUL]; size := length (concat wind) |}
                Hal) as M.
  cbn [length Nat.add app buffer] in M. rewrite M.
  - reflexivity.
  - pose proof (length_crlf_lines (map line_a rows)) as L.
    rewrite length_map in L. lia.
  - reflexivity.
  - reflexivity.
  - reflexivity.
  - rewrite Eb. reflexivity.
  - rewrite Ew. reflexivity.
Qed.

(** Every exit of [main] from the transfers on has status 1 and one of
    four messages. *)
Lemma fetch_pages_exit (junk : ascii) (air bar wind : curl_transfer) (s : Z) (e : string) :
  fetch_pages junk air bar wind = Exit s e ->
  s = 1%Z /\
  (e = no_curl \/ e = no_buffer \/ (exists strerror, e = curl_failed strerror) \/
   e = web_page_error).
Proof.
  unfold fetch_pages.
  destruct (fetch_web_data junk air) as [a| |] eqn:Fa; cbn [bind]; try discriminate.
  - destruct (string_at (buffer a)) as [page| |] eqn:Sa; cbn [bind]; try discriminate.
    + destruct (strstr page _); [intros [= <- <-]; auto 6|].
      destruct (fetch_web_data junk bar) as [b| |] eqn:Fb; cbn [bind]; try discriminate.
      * destruct (fetch_web_data junk wind) as [w| |] eqn:Fw; cbn [bind]; try discriminate.
        intros [= <- <-]. destruct (fetch_web_data_exit _ _ _ _ Fw) as [-> [|[|]]]; auto 6.
      * intros [= <- <-]. destruct (fetch_web_data_exit _ _ _ _ Fb) as [-> [|[|]]]; auto 6.
    + intros _. exfalso. exact (string_at_no_exit _ _ _ Sa).
  - intros [= <- <-]. destruct (fetch_web_data_exit _ _ _ _ Fa) as [-> [|[|]]]; auto 6.
Qed.

Lemma main_exit (junk : ascii) (air bar wind : curl_transfer) (s : Z) (e : string) :
  fetch_data.main junk air bar wind = Some (Exit s e) ->
  fetch_pages junk air bar wind = Exit s e.
Proof.
  unfold fetch_data.main.
  destruct (fetch_pages junk air bar wind) as [[[a b] w]| |]; try discriminate.
  - destruct (merge_loop _ _ _ _ _ _ _) as [[[out n]| |]|] eqn:E; try discriminate.
    exfalso. exact (merge_loop_no_exit _ _ _ _ _ _ _ _ _ E).
  - intros [= <- <-]. reflexivity.
Qed.

(** The test of the first page, once it has arrived. *)
Lemma fetch_pages_first (junk : ascii) (piece : list ascii) (pieces : list (list ascii))
      (bar wind : curl_transfer) :
  fetch_pages junk (delivered (piece :: pieces)) bar wind
  = if strstr (c_string (concat (piece :: pieces))) error_html
    then Exit 1 web_page_error
    else
      barometric_press <- fetch_web_data junk bar ;;
      wind_speed <- fetch_web_data junk wind ;;
      Ok ({| buffer := concat (piece :: pieces) ++ [NUL];
             size := length (concat (piece :: pieces)) |},
          barometric_press, wind_speed).
Proof.
  unfold fetch_pages. rewrite fetch_web_data_concat by discriminate. cbn [bind buffer].
  replace (concat (piece :: pieces) ++ [NUL]) with (concat (piece :: pieces) ++ NUL :: [])
    by reflexivity.
  rewrite string_at_terminated. cbn [bind]. reflexivity.
Qed.

(** ** From the rows of [fetch_data] to the columns of [crunch_data] *)

Lemma merged_row_text (r : list ascii * list ascii * list ascii) :
  merged_row r = merged_text r ++ [crunch_data.newline].
Proof.
  destruct r as [[a b] w]. unfold merged_row, merged_text.
  rewrite <- !app_assoc. cbn [app]. rewrite <- !app_assoc. reflexivity.
Qed.

Lemma merged_rows_lines (rows : list (list ascii * list ascii * list ascii)) :
  concat (map merged_row rows) = newline_lines (map merged_text rows).
Proof.
  unfold newline_lines. rewrite map_map. f_equal.
  apply map_ext. exact merged_row_text.
Qed.

Lemma isprint_plain (c : ascii) : isprint c = true -> ends_row c = false.
Proof.
  destruct c as [[] [] [] [] [] [] [] []]; intros H; try reflexivity; discriminate H.
Qed.

Lemma merged_text_plain (r : list ascii * list ascii * list ascii) :
  aligned r -> plain (merged_text r) /\ 0 < length (merged_text r).
Proof.
  destruct r as [[a b] w]. intros (Pa & Pb & Pw & _ & _ & _).
  unfold merged_text. split.
  - unfold plain. apply Forall_app. split.
    + revert Pa. apply Forall_impl. exact isprint_plain.
    + constructor; [reflexivity|]. apply Forall_app. split.
      * generalize (printable_skipn VALUE_READ_OFFSET b Pb).
        apply Forall_impl. exact isprint_plain.
      * constructor; [reflexivity|].
        generalize (printable_skipn VALUE_READ_OFFSET w Pw).
        apply Forall_impl. exact isprint_plain.
  - rewrite length_app. simpl. lia.
Qed.

Lemma merged_text_date (a b w buf : list ascii) :
  aligned (a, b, w) ->
  firstn 10 (overlay (merged_text (a, b, w)) buf) = firstn 10 a.
Proof.
  intros (_ & _ & _ & _ & _ & L). unfold VALUE_READ_OFFSET in L.
  unfold overlay, merged_text. rewrite <- !app_assoc.
  rewrite firstn_app. replace (10 - length a) with 0 by lia.
  cbn [firstn]. apply app_nil_r.
Qed.

(** ** The date and the addresses of [fetch_data] *)

Lemma copy_chars_spec (k : nat) : forall (x : nat) (dst : list ascii) (at_ : nat) (src : list ascii),
  x + k <= length src -> at_ + x + k <= length dst ->
  copy_chars k x dst at_ src
  = Ok (firstn (at_ + x) dst ++ firstn k (skipn x src) ++ skipn (at_ + x + k) dst).
Proof.
  induction k as [|k IH]; intros x dst at_ src Hs Hd; cbn [copy_chars].
  - cbn [firstn app]. rewrite Nat.add_0_r, firstn_skipn. reflexivity.
  - destruct (skipn_cons_nth src x) as [c Hc]; [lia|].
    rewrite (load_skipn _ _ _ _ Hc); cbn [bind].
    rewrite store_in_bounds by lia; cbn [bind].
    rewrite IH.
    + replace (at_ + S x) with (S (at_ + x)) by lia.
      rewrite firstn_update by lia.
      rewrite skipn_update by lia.
      rewrite Hc. cbn [firstn]. rewrite <- app_assoc.
      replace (S (at_ + x) + k) with (at_ + x + S k) by lia. reflexivity.
    + lia.
    + rewrite length_app, length_firstn. cbn [length]. rewrite length_skipn. lia.
Qed.

Lemma copy_chars_out_of_bounds (k : nat) : forall (x : nat) (dst : list ascii) (at_ : nat) (src : list ascii),
  0 < k ->
  length src < x + k \/ length dst < at_ + x + k ->
  copy_chars k x dst at_ src = OutOfBounds.
Proof.
  induction k as [|k IH]; intros x dst at_ src Hk H; [lia|]. cbn [copy_chars].
  destruct (load_cases src x) as [[L [c ->]]|[L ->]]; [|reflexivity]. cbn [bind].
  destruct (Nat.lt_ge_cases (at_ + x) (length dst)) as [L2|L2].
  - rewrite store_in_bounds by exact L2. cbn [bind].
    destruct k as [|k]; [lia|]. apply IH; [lia|].
    rewrite length_app, length_firstn. cbn [length]. rewrite length_skipn. lia.
  - unfold store. destruct (Nat.ltb_spec (at_ + x) (length dst)); [lia|]. reflexivity.
Qed.

Lemma set_address_date_spec (address year date : list ascii) :
  DATE_OFFSET + DATE_SIZE <= length address ->
  YEAR_SIZE <= length year -> DATE_SIZE <= length date ->
  set_address_date address year date
  = Ok (firstn YEAR_OFFSET address ++ firstn YEAR_SIZE year
          ++ firstn 1 (skipn (YEAR_OFFSET + YEAR_SIZE) address)
          ++ firstn DATE_SIZE date ++ skipn (DATE_OFFSET + DATE_SIZE) address).
Proof.
  unfold set_address_date. unfold DATE_OFFSET, DATE_SIZE, YEAR_OFFSET, YEAR_SIZE.
  intros Ha Hy Hd.
  rewrite copy_chars_spec by (simpl; lia). cbn [bind].
  rewrite copy_chars_spec.
  - rewrite !Nat.add_0_r. change (skipn 0 year) with year. change (skipn 0 date) with date.
    change (31 + 0 + 4) with 35. change (36 + 10) with 46. change (31 + 4) with 35.
    set (y := firstn 4 year).
    assert (Ly : length y = 4) by (unfold y; rewrite length_firstn; lia).
    assert (L31 : length (firstn 31 address) = 31) by (rewrite length_firstn; lia).
    rewrite <- ?app_assoc.
    rewrite (firstn_app 36), L31. rewrite (firstn_all2 (n := 36)) by lia.
    rewrite (firstn_app (36 - 31)), Ly. rewrite (firstn_all2 (n := 36 - 31)) by lia.
    change (36 - 31 - 4) with 1.
    rewrite (skipn_app 46), L31. rewrite (skipn_all2 (n := 46)) by lia.
    rewrite (skipn_app (46 - 31)), Ly. rewrite (skipn_all2 (n := 46 - 31)) by lia.
    change (46 - 31 - 4) with 11. rewrite skipn_skipn. change (11 + 35) with 46.
    rewrite <- !app_assoc. reflexivity.
  - simpl. lia.
  - rewrite !length_app, !length_firstn, !length_skipn. lia.
Qed.

Lemma isdigit_NUL : isdigit NUL = false.
Proof. reflexivity. Qed.

(** The check of the date on a C string: it ends at the first character
    that is no digit, which the terminating zero byte is. *)
Lemma check_date_spec (k : nat) : forall (a : nat) (s t : list ascii),
  a <= length s ->
  check_date k a (s ++ NUL :: t)
  = if forallb isdigit (firstn k (skipn a s)) && (a + k <=? length s)
    then Ok tt else Exit 1 improper_date.
Proof.
  induction k as [|k IH]; intros a s t Ha; cbn [check_date].
  - cbn [firstn forallb andb]. destruct (Nat.leb_spec (a + 0) (length s)); [reflexivity | lia].
  - destruct (Nat.lt_ge_cases a (length s)) as [L|L].
    + destruct (skipn_cons_nth s a L) as [c Hc].
      assert (Hc' : skipn a (s ++ NUL :: t) = c :: skipn (S a) s ++ NUL :: t).
      { rewrite skipn_app, Hc. replace (a - length s) with 0 by lia. reflexivity. }
      rewrite (load_skipn _ _ _ _ Hc'); cbn [bind].
      rewrite Hc. cbn [firstn forallb].
      destruct (isdigit c); cbn [andb]; [|reflexivity].
      rewrite IH by lia. replace (S a + k) with (a + S k) by lia. reflexivity.
    + assert (Hc' : skipn a (s ++ NUL :: t) = NUL :: t).
      { rewrite skipn_app, skipn_all2 by lia.
        replace (a - length s) with 0 by lia. reflexivity. }
      rewrite (load_skipn _ _ _ _ Hc'); cbn [bind]. rewrite isdigit_NUL.
      destruct (Nat.leb_spec (a + S k) (length s)); [lia|].
      rewrite andb_false_r. reflexivity.
Qed.

(** The date string from eight characters. *)
Lemma date_loop_spec (y1 y2 y3 y4 m1 m2 d1 d2 : ascii) (rest datestring : list ascii) :
  10 <= length datestring ->
  date_loop 10 0 0 datestring (y1 :: y2 :: y3 :: y4 :: m1 :: m2 :: d1 :: d2 :: rest)
  = Some (Ok ([y1; y2; y3; y4; DATE_STRING_SEPARATOR; m1; m2;
               DATE_STRING_SEPARATOR; d1; d2] ++ skipn 10 datestring, 10)).
Proof.
  intros H.
  do 10 (destruct datestring as [|? datestring]; [simpl in H; lia|]).
  reflexivity.
Qed.

Lemma date_given_spec (y1 y2 y3 y4 m1 m2 d1 d2 : ascii) (rest year datestring : list ascii) :
  forallb isdigit [y1; y2; y3; y4; m1; m2; d1; d2] = true ->
  5 <= length year -> 11 <= length datestring ->
  date_given (y1 :: y2 :: y3 :: y4 :: m1 :: m2 :: d1 :: d2 :: rest) year datestring
  = Some (Ok ([y1; y2; y3; y4; NUL] ++ skipn 5 year,
              [y1; y2; y3; y4; DATE_STRING_SEPARATOR; m1; m2;
               DATE_STRING_SEPARATOR; d1; d2; NUL] ++ skipn 11 datestring)).
Proof.
  intros Hd Hy Hs. unfold date_given.
  cbn [forallb] in Hd. repeat (apply andb_true_iff in Hd as [? Hd]).
  assert (C : check_date 8 0 (y1 :: y2 :: y3 :: y4 :: m1 :: m2 :: d1 :: d2 :: rest) = Ok tt).
  { cbn [check_date load nth_error bind].
    repeat match goal with H : isdigit _ = true |- _ => rewrite H; clear H end.
    reflexivity. }
  rewrite C.
  rewrite date_loop_spec by lia.
  do 5 (destruct year as [|? year]; [simpl in Hy; lia|]).
  do 11 (destruct datestring as [|? datestring]; [simpl in Hs; lia|]).
  reflexivity.
Qed.

Lemma isdigit_not_NUL (c : ascii) : isdigit c = true -> Ascii.eqb c NUL = false.
Proof.
  intros H. destruct (Ascii.eqb_spec c NUL) as [->|]; [discriminate H | reflexivity].
Qed.

Lemma c_string_cons (c : ascii) (s : list ascii) :
  Ascii.eqb c NUL = false -> c_string (c :: s) = c :: c_string s.
Proof. intros H. cbn [c_string]. rewrite H. reflexivity. Qed.

Section RunFacts.
Variable transfer : list ascii -> curl_transfer.
Variable junk : ascii.
Variables year0 datestring0 : list ascii.

Lemma addresses_spec (y1 y2 y3 y4 m1 m2 d1 d2 n1 n2 : ascii) (year datestring : list ascii) :
  Forall digit [y1; y2; y3; y4; m1; m2; d1; d2] ->
  match addresses (y1 :: y2 :: y3 :: y4 :: n1 :: year)
                  (y1 :: y2 :: y3 :: y4 :: DATE_STRING_SEPARATOR :: m1 :: m2 ::
                   DATE_STRING_SEPARATOR :: d1 :: d2 :: n2 :: datestring) with
  | Ok (a, b, w) =>
      c_string a = address_of [y1; y2; y3; y4] [m1; m2] [d1; d2] "Air_Temp" /\
      c_string b = address_of [y1; y2; y3; y4] [m1; m2] [d1; d2] "Barometric_Press" /\
      c_string w = address_of [y1; y2; y3; y4] [m1; m2] [d1; d2] "Wind_Speed"
  | _ => False
  end.
Proof.
  intros H.
  repeat match goal with
         | H : Forall _ (_ :: _) |- _ =>
             let D := fresh "D" in
             inversion H as [|? ? D ?]; clear H; subst;
             apply isdigit_not_NUL in D
         end.
  cbv [addresses set_address_date copy_chars bind load store nth_error
       air_temp_address barometric_press_address wind_speed_address char_array
       list_ascii_of_string app length Nat.ltb Nat.leb firstn skipn
       YEAR_SIZE YEAR_OFFSET DATE_SIZE DATE_OFFSET Nat.add].
  unfold address_of. cbn [list_ascii_of_string app].
  repeat split;
    repeat (rewrite c_string_cons by (assumption || reflexivity));
    reflexivity.
Qed.
End RunFacts.

(** ** Today's date *)

Lemma format_table (width : nat) (zero_flag : bool) (f : Z -> list ascii) (lo count : Z) :
  forallb (fun k => if list_eq_dec ascii_dec
                         (format_d width zero_flag (lo + Z.of_nat k)%Z) (f (lo + Z.of_nat k)%Z)
                    then true else false) (seq 0 (Z.to_nat count)) = true ->
  forall n : Z, (lo <= n < lo + count)%Z -> format_d width zero_flag n = f n.
Proof.
  intros T n Hn. rewrite forallb_forall in T.
  specialize (T (Z.to_nat (n - lo))).
  replace (lo + Z.of_nat (Z.to_nat (n - lo)))%Z with n in T by lia.
  destruct (list_eq_dec ascii_dec (format_d width zero_flag n) (f n)) as [E|NE]; [exact E|].
  assert (false = true); [|discriminate].
  apply T. apply in_seq. lia.
Qed.

Lemma format_four_digits (n : Z) :
  (1000 <= n <= 9999)%Z -> format_d 4 false n = four_digits n.
Proof.
  intros H. apply (format_table 4 false four_digits 1000 9000); [|lia].
  vm_compute. reflexivity.
Qed.

Lemma format_two_digits (n : Z) :
  (0 <= n <= 99)%Z -> format_d 2 true n = two_digits n.
Proof.
  intros H. apply (format_table 2 true two_digits 0 100); [|lia].
  vm_compute. reflexivity.
Qed.

Lemma digit_char_digit (k : Z) : (0 <= k <= 9)%Z -> digit (digit_char k).
Proof.
  intros H. unfold digit, digit_char.
  assert (E : exists j, j < 10 /\ Z.to_nat k = j) by (exists (Z.to_nat k); lia).
  destruct E as (j & Hj & ->).
  do 10 (destruct j as [|j]; [reflexivity|]). lia.
Qed.

Lemma four_digits_digits (n : Z) :
  (1000 <= n <= 9999)%Z -> Forall digit (four_digits n).
Proof.
  intros H. unfold four_digits.
  pose proof (Z.mod_pos_bound (n / 100) 10). pose proof (Z.mod_pos_bound (n / 10) 10).
  pose proof (Z.mod_pos_bound n 10).
  assert (0 <= n / 1000 < 10)%Z.
  { split; [apply Z.div_pos; lia|]. apply Z.div_lt_upper_bound; lia. }
  repeat constructor; apply digit_char_digit; lia.
Qed.

Lemma two_digits_digits (n : Z) :
  (0 <= n <= 99)%Z -> Forall digit (two_digits n).
Proof.
  intros H. unfold two_digits.
  pose proof (Z.mod_pos_bound n 10).
  assert (0 <= n / 10 < 10)%Z.
  { split; [apply Z.div_pos; lia|]. apply Z.div_lt_upper_bound; lia. }
  repeat constructor; apply digit_char_digit; lia.
Qed.

Section RunToday.
Variable transfer : list ascii -> curl_transfer.
Variable junk : ascii.
Variables year0 datestring0 : list ascii.
Hypothesis year_size : 5 <= length year0.
Hypothesis datestring_size : 11 <= length datestring0.

Lemma date_today_spec (today : tm) :
  (1000 <= tm_year today + 1900 <= 9999)%Z ->
  (0 <= tm_mon today <= 11)%Z -> (1 <= tm_mday today <= 31)%Z ->
  date_today today year0 datestring0
  = Ok (four_digits (tm_year today + 1900) ++ NUL :: skipn 5 year0,
        four_digits (tm_year today + 1900) ++ DATE_STRING_SEPARATOR ::
        two_digits (tm_mon today + 1) ++ DATE_STRING_SEPARATOR ::
        two_digits (tm_mday today) ++ NUL :: skipn 11 datestring0).
Proof.
  intros Hy Hm Hd. unfold date_today.
  rewrite format_four_digits by exact Hy.
  rewrite !format_two_digits by lia.
  unfold sprintf. cbn [four_digits two_digits length app].
  destruct (Nat.ltb_spec 4 (length year0)) as [_|]; [|lia]. cbn [bind].
  destruct (Nat.ltb_spec 10 (length datestring0)) as [_|]; [|lia]. cbn [bind].
  reflexivity.
Qed.
End RunToday.

Lemma set_address_date_out_of_bounds (address year date : list ascii) :
  length address < DATE_OFFSET + DATE_SIZE \/ length year < YEAR_SIZE \/
  length date < DATE_SIZE ->
  set_address_date address year date = OutOfBounds.
Proof.
  unfold set_address_date. unfold DATE_OFFSET, DATE_SIZE, YEAR_OFFSET, YEAR_SIZE.
  intros H.
  destruct (Nat.lt_ge_cases (length year) 4) as [Ly|Ly];
    [rewrite copy_chars_out_of_bounds by lia; reflexivity|].
  destruct (Nat.lt_ge_cases (length address) 35) as [La|La];
    [rewrite copy_chars_out_of_bounds by lia; reflexivity|].
  rewrite copy_chars_spec by lia. cbn [bind].
  apply copy_chars_out_of_bounds; try lia.
  rewrite !length_app, !length_firstn, !length_skipn. lia.
Qed.

(** ** A column that holds a NaN *)

Lemma fadd_nan_l (f : float32) : fadd S754_nan f = S754_nan.
Proof. reflexivity. Qed.

Lemma fadd_nan_r (f : float32) : fadd f S754_nan = S754_nan.
Proof. destruct f; reflexivity. Qed.

Lemma fdiv_nan_l (f : float32) : fdiv S754_nan f = S754_nan.
Proof. reflexivity. Qed.

Lemma fold_fadd_nan (v : list float32) : fold_left fadd v S754_nan = S754_nan.
Proof. induction v as [|f v IH]; [reflexivity | exact IH]. Qed.

Lemma fsum_nan (v : list float32) : In S754_nan v -> fsum v = S754_nan.
Proof.
  unfold fsum. generalize fzero.
  induction v as [|f v IH]; intros total H; [contradiction|]. cbn [fold_left].
  destruct H as [->|H].
  - rewrite fadd_nan_r. apply fold_fadd_nan.
  - apply IH. exact H.
Qed.

Section LoopInvariant.
Variable strtof : list ascii -> outcome (float32 * list ascii).
Variable junk : float32.
Variable allocates : nat -> nat -> bool.

Lemma read_loop_in_step (fuel : nat) : forall st st' : state,
  columns_in_step st ->
  read_loop strtof junk allocates fuel st = Some (Ok st') -> columns_in_step st'.
Proof.
  induction fuel as [|fuel IH]; intros st st' H; cbn [read_loop]; [discriminate|].
  destruct (loop_body strtof junk allocates st) as [[st1|]| |] eqn:B; try discriminate.
  - apply IH. exact (loop_body_keeps_step strtof junk allocates st st1 H B).
  - intros [= <-]. exact H.
Qed.

(** The loop ends with the rows it started with, or with one row. *)
Lemma read_loop_one_row (fuel : nat) : forall st st' : state,
  columns_in_step st ->
  read_loop strtof junk allocates fuel st = Some (Ok st') ->
  row_count st' = row_count st \/ row_count st' = 1.
Proof.
  induction fuel as [|fuel IH]; intros st st' H; cbn [read_loop]; [discriminate|].
  destruct (loop_body strtof junk allocates st) as [[st1|]| |] eqn:B; try discriminate.
  - intros R.
    destruct (loop_body_first_row_only strtof junk allocates st st1 H B) as (_ & H1 & S1).
    destruct (IH st1 st' S1 R) as [E|E]; right; congruence.
  - intros [= <-]. left. reflexivity.
Qed.

(** No input takes [main] to its [return(0)]. *)
Lemma crunch_main_no_summary (input row0 date0 : list ascii) (s : summary) :
  crunch_data.main strtof junk allocates input row0 date0 <> Some (Ok s).
Proof.
  unfold crunch_data.main.
  destruct (read_loop strtof junk allocates (S (length input)) (initial input row0 date0))
    as [[st| |]|] eqn:R; try discriminate.
  assert (S0 : columns_in_step (initial input row0 date0)) by (repeat split).
  pose proof (read_loop_in_step _ _ _ S0 R) as S1.
  pose proof (read_loop_one_row _ _ _ S0 R) as C. cbn [initial row_count] in C.
  destruct (report_cases st S1) as [(L & _)|(_ & ->)]; [lia | discriminate].
Qed.
End LoopInvariant.
(** * The claims *)

(** ** Median *)

(** What [get_median] does on a column that is already in the order of
    [compare]: the array stays as it is and the element at [c/2+1] (odd
    [c]), or the mean of those at [c/2] and [c/2+1] (even [c]), comes
    back. *)
Lemma get_median_sorted (v : list float32) :
  Forall (fun f => valid f = true) v -> no_wrap v ->
  StronglySorted (key_le int_key) v ->
  get_median v (length v) =
  if negb (length v mod 2 =? 0)
  then m <- load v (length v / 2 + 1) ;; Ok (m, v)
  else a <- load v (length v / 2) ;;
       b <- load v (length v / 2 + 1) ;;
       Ok (fdiv (fadd a b) (of_int 2), v).
Proof.
  intros Hv Hn Hs. unfold get_median.
  rewrite qsort_whole_column; cbn [bind].
  rewrite (isort_sorted_id _ compare int_key v
             (no_wrap_agrees v Hn) (valid_key_inj v Hv) Hs).
  reflexivity.
Qed.

(** C1.  For a sorted column the median is the element at index [count/2]
    (odd count) or the mean of the elements at [count/2 - 1] and [count/2]
    (even count); the median of [30.07, 29.91, 30.12] is 30.07 and that of
    [3, 5, 1, 7] is 4.  That is what the comment on [get_median] promises,
    and [get_median] misses it by one index: on the sorted column
    [29.91, 30.07, 30.12], whose element at index [3/2] is 30.07, and on
    [30.07, 29.91, 30.12], it returns 30.12; on [3, 5, 1, 7] it returns 6;
    on a column of one element it reads outside the column. *)
Theorem get_median_reads_past_middle :
  let sorted := [dec2 2991; dec2 3007; dec2 3012] in
  get_median sorted 3 = Ok (dec2 3012, sorted) /\
  load sorted (3 / 2) = Ok (dec2 3007) /\
  get_median [dec2 3007; dec2 2991; dec2 3012] 3 = Ok (dec2 3012, sorted) /\
  dec2 3012 <> dec2 3007 /\
  get_median [dec2 300; dec2 500; dec2 100; dec2 700] 4
  = Ok (dec2 600, [dec2 100; dec2 300; dec2 500; dec2 700]) /\
  dec2 600 <> dec2 400 /\
  get_median [dec2 100] 1 = OutOfBounds.
Proof.
  cbv zeta. repeat split; try (vm_compute; reflexivity);
    intros H; vm_compute in H; discriminate H.
Qed.

(** C2, as stated: computing the median leaves the column and its order
    unchanged.  [get_median] sorts the caller's array: after the call on
    [3, 5, 1, 7] the column reads [1, 3, 5, 7]. *)
Lemma get_median_reorders_column :
  let column := [dec2 300; dec2 500; dec2 100; dec2 700] in
  exists m column',
    get_median column 4 = Ok (m, column') /\ column' <> column.
Proof.
  cbv zeta. eexists. eexists. split.
  - vm_compute. reflexivity.
  - intros H. vm_compute in H. discriminate H.
Qed.

(** C2, amended.  Computing the median keeps the elements of the column
    and not their order: the column is sorted in place, so when
    [get_median] returns the column holds a permutation of what it held,
    in ascending numeric order if every element is finite with its sign
    bit clear, that is [+0.0] or a positive number. *)
Theorem get_median_sorts_column_in_place (v : list float32) (m : float32) (v' : list float32) :
  get_median v (length v) = Ok (m, v') ->
  Permutation v v' /\
  (Forall (fun f => nonneg_finite f = true) v -> StronglySorted value_le v').
Proof.
  intros H. apply get_median_array in H. subst v'. split.
  - apply Permutation_sym, isort_perm.
  - apply isort_nonneg_finite_ascending.
Qed.

Lemma get_median_sorts_column_in_place_witness :
  let column := [dec2 300; dec2 500; dec2 100; dec2 700] in
  let sorted := [dec2 100; dec2 300; dec2 500; dec2 700] in
  Permutation column sorted /\
  (Forall (fun f => nonneg_finite f = true) column -> StronglySorted value_le sorted).
Proof.
  cbv zeta.
  apply (get_median_sorts_column_in_place
           [dec2 300; dec2 500; dec2 100; dec2 700] (dec2 600)
           [dec2 100; dec2 300; dec2 500; dec2 700]).
  vm_compute. reflexivity.
Defined.

(** C3, as stated: on the empty column mean and median fail with an
    explicit error and return neither 0 nor NaN nor an infinity.
    [get_mean] returns normally, and what it returns is NaN. *)
Lemma get_mean_empty_returns_nan :
  exists f, get_mean [] 0 = Ok f /\ is_nan f = true.
Proof. exists S754_nan. split; reflexivity. Qed.

(** C3, amended.  On the empty column ([count = 0]) no error is signalled:
    [get_mean] returns the NaN that [0.0/0] evaluates to, whatever the
    pointer it is given, and [get_median] reads outside the column. *)
Theorem empty_column_signals_no_error :
  (forall v, get_mean v 0 = Ok S754_nan) /\
  get_median [] 0 = OutOfBounds.
Proof. split; [intros v|]; reflexivity. Qed.

(** C6.  The median of a column of distinct values is the same for the
    sorted column and for every arrangement of it.  [get_median] sorts with
    [compare], whose [int] subtraction wraps around when the operands
    differ in sign: it reports [0.0 < 2.0], [2.0 < -1.0] and [-1.0 < 0.0].
    The sorted column [-1.0, 0.0, 2.0] and its arrangement
    [0.0, 2.0, -1.0] both have their neighbours in order for [compare], so
    [qsort] leaves each as it is, and [get_median] returns [2.0] for the
    one and [-1.0] for the other. *)
Theorem get_median_depends_on_order :
  let sorted := [of_int (-1); fzero; of_int 2] in
  let column := [fzero; of_int 2; of_int (-1)] in
  Permutation sorted column /\ NoDup sorted /\
  Forall (fun f => valid f = true) sorted /\
  StronglySorted value_le sorted /\
  (compare fzero (of_int 2) < 0)%Z /\
  (compare (of_int 2) (of_int (-1)) < 0)%Z /\
  (compare (of_int (-1)) fzero < 0)%Z /\
  Sorted (fun a b => (compare a b <= 0)%Z) sorted /\
  Sorted (fun a b => (compare a b <= 0)%Z) column /\
  get_median sorted 3 = Ok (of_int 2, sorted) /\
  get_median column 3 = Ok (of_int (-1), column) /\
  of_int 2 <> of_int (-1).
Proof.
  cbv zeta. repeat split.
  - apply (Permutation_cons_append [fzero; of_int 2] (of_int (-1))).
  - repeat constructor; simpl; intros H;
      repeat (destruct H as [H|H]; [vm_compute in H; discriminate H|]); exact H.
  - repeat constructor.
  - repeat constructor; vm_compute; intros H; discriminate H.
  - repeat constructor; vm_compute; intros H; discriminate H.
  - repeat constructor; vm_compute; intros H; discriminate H.
  - intros H. vm_compute in H. discriminate H.
Qed.

(** C10, as stated: for every pair of non-negative finite floats the
    comparison of [compare] has the sign of the numeric comparison, and a
    column of non-negative finite numbers is sorted into ascending
    numeric order.  [-0.0] is finite and not below zero, and its pattern
    read as [int] is the least of all: the subtraction wraps around, so
    [compare] puts [-0.0] behind [1.0], and it puts [+0.0] before [-0.0]
    although the two are equal; the column [-0.0, 1, 2, 3] is left as
    [1, 2, 3, -0.0]. *)
Lemma compare_misorders_negative_zero :
  let nz : float32 := S754_zero true in
  valid nz = true /\ is_finite nz = true /\ (value nz == 0)%Q /\
  nonneg_finite (of_int 1) = true /\
  (compare nz (of_int 1) > 0)%Z /\ SFcompare nz (of_int 1) = Some Lt /\
  (value nz ?= value (of_int 1))%Q = Lt /\
  (compare fzero nz < 0)%Z /\ SFcompare fzero nz = Some Eq /\
  qsort compare [nz; of_int 1] 2 = Ok [of_int 1; nz] /\
  (exists m, get_median [nz; of_int 1; of_int 2; of_int 3] 4
             = Ok (m, [of_int 1; of_int 2; of_int 3; nz])) /\
  ~ StronglySorted value_le [of_int 1; of_int 2; of_int 3; nz].
Proof.
  cbv zeta. repeat split; try (vm_compute; reflexivity).
  - eexists. vm_compute. reflexivity.
  - intros H. inversion H as [|? ? _ F]; subst.
    inversion F as [|? ? _ F1]; subst. inversion F1 as [|? ? _ F2]; subst.
    inversion F2 as [|? ? L _]; subst. vm_compute in L. apply L. reflexivity.
Qed.

(** C10, amended.  [compare] reads both floats as [int] and subtracts.
    For two finite numbers whose sign bit is clear, that is [+0.0] and the
    positive numbers, the subtraction does not wrap around and its sign is
    that of the numeric comparison, both as IEEE-754 defines it and on the
    exact values; so the [qsort] in [get_median] leaves a column of such
    numbers in ascending numeric order. *)
Theorem compare_orders_nonnegative_finite :
  (forall a b : float32,
      nonneg_finite a = true -> nonneg_finite b = true ->
      compare a b = (as_int (bits a) - as_int (bits b))%Z /\
      SFcompare a b = Some (compare a b ?= 0)%Z /\
      (value a ?= value b)%Q = (compare a b ?= 0)%Z) /\
  (forall v : list float32,
      Forall (fun f => nonneg_finite f = true) v ->
      exists v', qsort compare v (length v) = Ok v' /\
                 Permutation v v' /\ StronglySorted value_le v' /\
                 forall m w, get_median v (length v) = Ok (m, w) -> w = v').
Proof.
  split.
  - intros a b Ha Hb. repeat split.
    + rewrite compare_nonneg_finite by assumption.
      destruct (nonneg_finite_inv a Ha) as (Va & Sa & _).
      destruct (nonneg_finite_inv b Hb) as (Vb & Sb & _).
      destruct (as_int_nonneg a Va Sa) as [-> _].
      destruct (as_int_nonneg b Vb Sb) as [-> _]. reflexivity.
    + apply SFcompare_compare; assumption.
    + apply value_compare_compare; assumption.
  - intros v Hv. exists (isort compare v). repeat split.
    + apply qsort_whole_column.
    + apply Permutation_sym, isort_perm.
    + apply isort_nonneg_finite_ascending, Hv.
    + intros m w H. apply (get_median_array v m w H).
Qed.

Lemma compare_orders_nonnegative_finite_witness :
  (compare (dec2 300) (dec2 500) = (as_int (bits (dec2 300)) - as_int (bits (dec2 500)))%Z /\
   SFcompare (dec2 300) (dec2 500) = Some Lt /\
   (value (dec2 300) ?= value (dec2 500))%Q = Lt) /\
  exists v', qsort compare [dec2 300; dec2 500; dec2 100; dec2 700] 4 = Ok v' /\
             StronglySorted value_le v'.
Proof.
  destruct compare_orders_nonnegative_finite as [P S]. split.
  - exact (P (dec2 300) (dec2 500) eq_refl eq_refl).
  - destruct (S [dec2 300; dec2 500; dec2 100; dec2 700]) as (v' & Q1 & _ & Q3 & _).
    + repeat constructor.
    + exists v'. split; assumption.
Defined.

(** ** Mean *)

Lemma get_mean_whole_column (v : list float32) :
  get_mean v (length v) = Ok (fdiv (fsum v) (of_int (Z.of_nat (length v)))).
Proof.
  unfold get_mean. rewrite get_mean_loop_spec by lia. cbn [bind].
  change (skipn 0 v) with v. rewrite firstn_all. reflexivity.
Qed.

(** C4.  For a non-empty column of [count] elements [get_mean] returns the
    sum of the elements divided by [count], each operation rounded to
    [float].  When the sum is finite and [count] is at most [2^24], the
    mean is finite and the mean times [count] equals the sum within the
    tolerance of the division: [2^-24] of the sum, or [count * 2^-150]
    where the mean is subnormal.  The mean of [38.86, 39.00, 37.50] is the
    float [10080311 * 2^-18], within [10^-5] of [115.36/3]. *)
Theorem get_mean_sum_over_count :
  (forall (v : list float32) (c : nat),
      c = length v -> 0 < c ->
      get_mean v c = Ok (fdiv (fsum v) (of_int (Z.of_nat c)))) /\
  (forall (v : list float32) (c : nat),
      c = length v -> 0 < c -> (Z.of_nat c <= 2 ^ 24)%Z ->
      Forall (fun f => valid f = true) v -> is_finite (fsum v) = true ->
      exists mean,
        get_mean v c = Ok mean /\ is_finite mean = true /\
        (Qabs (value mean * inject_Z (Z.of_nat c) - value (fsum v))
         <= tolerance (value (fsum v)) (Z.of_nat c))%Q) /\
  let column := [dec2 3886; dec2 3900; dec2 3750] in
  let mean := S754_finite false 10080311 (-18) in
  get_mean column 3 = Ok mean /\
  (Qabs (value mean - (11536 # 300)) <= (1 # 100000))%Q.
Proof.
  split; [|split].
  - intros v c -> _. apply get_mean_whole_column.
  - intros v c -> Hc Hn Vs Fs.
    exists (fdiv (fsum v) (of_int (Z.of_nat (length v)))).
    split; [apply get_mean_whole_column|].
    apply fdiv_count_error; [apply fsum_valid; exact Vs | exact Fs | lia].
  - cbv zeta. split; [vm_compute; reflexivity|].
    apply Qabs_Qle_condition. split; vm_compute; intros H; discriminate H.
Qed.

Lemma get_mean_sum_over_count_witness :
  let column := [dec2 3886; dec2 3900; dec2 3750] in
  get_mean column 3 = Ok (fdiv (fsum column) (of_int 3)) /\
  exists mean,
    get_mean column 3 = Ok mean /\ is_finite mean = true /\
    (Qabs (value mean * inject_Z 3 - value (fsum column))
     <= tolerance (value (fsum column)) 3)%Q.
Proof.
  cbv zeta. destruct get_mean_sum_over_count as (G & T & _). split.
  - apply (G [dec2 3886; dec2 3900; dec2 3750] 3); [reflexivity | lia].
  - apply (T [dec2 3886; dec2 3900; dec2 3750] 3);
      [reflexivity | lia | vm_compute; discriminate | repeat constructor | reflexivity].
Defined.

(** ** Date *)

Lemma underscore_to_hyphen_no_underscore (c : ascii) :
  underscore_to_hyphen c <> "_"%char.
Proof.
  unfold underscore_to_hyphen. destruct (Ascii.eqb_spec c "_"%char) as [E|N].
  - discriminate.
  - exact N.
Qed.

(** C7.  From a line of at least 10 characters [set_date] produces its
    first 10 characters, each underscore replaced by a hyphen, followed by
    the terminator; no underscore is left.  The field [2015_02_03]
    becomes [2015-02-03]. *)
Theorem set_date_first_ten_characters (row_string date_string : list ascii) :
  10 <= length row_string -> 11 <= length date_string ->
  set_date row_string date_string
  = Ok (map underscore_to_hyphen (firstn 10 row_string)
          ++ crunch_data.NUL :: skipn 11 date_string) /\
  length (map underscore_to_hyphen (firstn 10 row_string)) = 10 /\
  ~ In "_"%char (map underscore_to_hyphen (firstn 10 row_string)).
Proof.
  intros Hr Hd. repeat split.
  - apply set_date_spec; assumption.
  - rewrite length_map, length_firstn. lia.
  - intros H. apply in_map_iff in H as (c & E & _).
    exact (underscore_to_hyphen_no_underscore c E).
Qed.

Lemma set_date_first_ten_characters_witness :
  set_date (list_ascii_of_string "2015_02_03 09:02:34 38.86  30.07   3.00")
           (repeat " "%char 11)
  = Ok (list_ascii_of_string "2015-02-03" ++ [crunch_data.NUL]).
Proof.
  destruct (set_date_first_ten_characters
              (list_ascii_of_string "2015_02_03 09:02:34 38.86  30.07   3.00")
              (repeat " "%char 11)) as [E _].
  - simpl. lia.
  - simpl. lia.
  - rewrite E. reflexivity.
Defined.

(** ** Columns *)

(** C8.  After every number of rows the three columns are equally long
    and hold one value for each row.  The loop of [main] keeps that only up
    to the first row.  For row [n] it asks [realloc] for
    [n * sizeof(float) + 1] bytes, a block of [n] floats and one byte,
    which is the column as it was; [process_row] then writes element [n]
    outside the block, so no pass of the loop stores a second row.  On
    three rows of input the first pass leaves 38.86, 30.07 and 3.00 in the
    columns and the second pass ends with the write outside them. *)
Theorem second_row_stored_outside_columns :
  (forall strtof junk allocates input row0 date0 k st,
      rows strtof junk allocates k (initial input row0 date0) = Ok (Some st) ->
      row_count st = k /\
      length (air_temp st) = k /\ length (bar_press st) = k /\
      length (wind_speed st) = k /\ k <= 1) /\
  (forall (junk : float32) (v : list float32),
      length (realloc junk v (length v * sizeof_float + 1)) = length v /\
      realloc junk v (length v * sizeof_float + 1) = v) /\
  (forall strtof junk allocates st st',
      columns_in_step st -> 0 < row_count st ->
      loop_body strtof junk allocates st <> Ok (Some st')) /\
  (forall strtof junk allocates st n row' stdin' a v2,
      columns_in_step st -> 0 < row_count st ->
      read_row (stdin st) (row st) 0 = Ok (n, row', stdin') -> n <> 0 ->
      allocates (row_count st) 0 = true -> allocates (row_count st) 1 = true ->
      allocates (row_count st) 2 = true ->
      TABLE_OFFSET <= length row' ->
      strtof (skipn TABLE_OFFSET row') = Ok (a, v2) ->
      loop_body strtof junk allocates st = OutOfBounds) /\
  let start := initial merged_rows (repeat " "%char 80) (repeat " "%char 11) in
  let granted := fun _ _ : nat => true in
  (exists st,
      rows strtof_decimal S754_nan granted 1 start = Ok (Some st) /\
      row_count st = 1 /\
      air_temp st = [dec2 3886] /\ bar_press st = [dec2 3007] /\
      wind_speed st = [dec2 300]) /\
  rows strtof_decimal S754_nan granted 2 start = OutOfBounds /\
  crunch_data.main strtof_decimal S754_nan granted merged_rows
                   (repeat " "%char 80) (repeat " "%char 11) = Some OutOfBounds.
Proof.
  split; [|split; [|split; [|split]]].
  - intros strtof junk allocates input row0 date0 k st H.
    destruct (rows_in_step strtof junk allocates input row0 date0 k st H)
      as (Hk & (Ha & Hb & Hw) & K).
    repeat split; congruence || exact K.
  - intros junk v. rewrite realloc_same. split; reflexivity.
  - intros strtof junk allocates st st' Hs Hn H.
    destruct (loop_body_first_row_only strtof junk allocates st st' Hs H). lia.
  - intros strtof junk allocates st n row' stdin' a v2.
    apply loop_body_later.
  - cbv zeta. split; [|split].
    + eexists. split; [vm_compute; reflexivity|]. repeat split; vm_compute; reflexivity.
    + vm_compute. reflexivity.
    + vm_compute. reflexivity.
Qed.

(** ** Merging *)

(** C5, as stated: when a secondary page is shorter than the current
    offset, the merger signals an alignment error and gives up the row.
    With three lines of air temperature and a pressure page cut off after
    its first line, the step at offset 54 signals nothing: it reads
    outside the pressure buffer. *)
Lemma merge_row_short_page_not_signalled :
  exists air bar wind,
    fetch_web_data " "%char (delivered [air_page]) = Ok air /\
    fetch_web_data " "%char (delivered [short_pressure_page]) = Ok bar /\
    fetch_web_data " "%char (delivered [wind_page]) = Ok wind /\
    size bar < 54 /\ 54 < size air /\
    merge_row air bar wind 54 = OutOfBounds /\
    (forall status err, merge_row air bar wind 54 <> Exit status err) /\
    fetch_data.main " "%char (delivered [air_page]) (delivered [short_pressure_page])
                    (delivered [wind_page]) = Some OutOfBounds.
Proof.
  do 3 eexists. split; [reflexivity|]. split; [reflexivity|]. split; [reflexivity|].
  repeat split; try (vm_compute; lia); try (vm_compute; reflexivity).
  intros status err H. vm_compute in H. discriminate H.
Qed.

(** C5, amended.  The merger has no check of the secondary pages and no
    step of it signals an error; when a secondary buffer is shorter than
    the current offset, the step reads outside that buffer. *)
Theorem merge_row_reads_past_short_page :
  (forall air bar wind output status err,
      merge_row air bar wind output <> Exit status err) /\
  (forall air bar wind output,
      length (buffer bar) = S (size bar) ->
      length (buffer wind) = S (size wind) ->
      size bar < output \/ size wind < output ->
      merge_row air bar wind output = OutOfBounds).
Proof.
  split.
  - intros air bar wind output status err. apply merge_row_no_exit.
  - intros air bar wind output Hb Hw H. apply merge_row_out_of_bounds.
    unfold VALUE_READ_OFFSET. destruct H; [left | right]; lia.
Qed.

Lemma merge_row_reads_past_short_page_witness :
  exists air bar wind,
    fetch_web_data " "%char (delivered [air_page]) = Ok air /\
    fetch_web_data " "%char (delivered [short_pressure_page]) = Ok bar /\
    fetch_web_data " "%char (delivered [wind_page]) = Ok wind /\
    merge_row air bar wind 54 = OutOfBounds.
Proof.
  do 3 eexists. split; [reflexivity|]. split; [reflexivity|]. split; [reflexivity|].
  destruct merge_row_reads_past_short_page as [_ G].
  apply G; [reflexivity | reflexivity | left; vm_compute; lia].
Defined.

(** C9, as stated: on every page whose lines hold at least one byte the
    loop ends exactly when the offset reaches the length of the page,
    after advancing for each row by the bytes of the line and its
    terminator.  [write_line] adds two bytes to the printable run whatever
    ends it.  On a page of two lines closed by a line feed alone, 52 bytes,
    the first row moves the offset to 27, one byte into the second line,
    the second row is written without its first character, and the loop
    ends at 53; on a page of one line without a terminator, 25 bytes, it
    ends at 27. *)
Lemma merge_loop_passes_length :
  (exists air bar wind,
      fetch_web_data " "%char (delivered [lf_air_page]) = Ok air /\
      fetch_web_data " "%char (delivered [lf_pressure_page]) = Ok bar /\
      fetch_web_data " "%char (delivered [lf_wind_page]) = Ok wind /\
      size air = 52 /\
      merge_loop (S (size air)) air bar wind (size air) 0 []
      = Some (Ok (list_ascii_of_string "2015_02_03 09:02:34 38.86  30.07   3.00" ++ LF ::
                  list_ascii_of_string "015_02_03 09:07:34 39.00 29.91  5.00" ++ [LF],
                  53))) /\
  (exists air out,
      fetch_web_data " "%char
        (delivered [list_ascii_of_string "2015_02_03 09:02:34 38.86"]) = Ok air /\
      size air = 25 /\
      merge_loop (S (size air)) air air air (size air) 0 [] = Some (Ok (out, 27))).
Proof.
  split.
  - do 3 eexists. split; [reflexivity|]. split; [reflexivity|]. split; [reflexivity|].
    split; vm_compute; reflexivity.
  - do 2 eexists. split; [reflexivity|]. split; vm_compute; reflexivity.
Qed.

(** C9, amended.  The merging loop terminates on every page: with fuel
    equal to the length of the first page it returns, and so does [main].
    It is left, with nothing more written, at the first offset that is not
    below that length.  Below it a pass writes the row made of the
    printable runs of the three pages and advances the offset by the run of
    the first page and two bytes, whatever ends the run; the loop returns
    only through such passes, so the final offset can lie beyond the
    length.  On a first page of printable lines closed by CR LF the loop
    writes one row for each line and ends with the offset equal to the
    length of the page. *)
Theorem merge_loop_advances_by_run_and_two :
  (forall air bar wind, exists r,
      merge_loop (size air) air bar wind (size air) 0 [] = Some r /\
      forall out final, r = Ok (out, final) -> size air <= final) /\
  (forall junk a b w, fetch_data.main junk a b w <> None) /\
  (forall fuel air bar wind bytes_read output stdout,
      bytes_read <= output ->
      merge_loop fuel air bar wind bytes_read output stdout
      = Some (Ok (stdout, output))) /\
  (forall fuel air bar wind bytes_read output stdout l1 l2 l3,
      output < bytes_read ->
      run_at (buffer air) output l1 ->
      run_at (buffer bar) (output + VALUE_READ_OFFSET) l2 ->
      run_at (buffer wind) (output + VALUE_READ_OFFSET) l3 ->
      merge_loop (S fuel) air bar wind bytes_read output stdout
      = merge_loop fuel air bar wind bytes_read (output + (length l1 + 2))
                   (stdout ++ row_of l1 l2 l3)) /\
  (forall fuel air bar wind bytes_read output stdout out final,
      output < bytes_read ->
      merge_loop fuel air bar wind bytes_read output stdout = Some (Ok (out, final)) ->
      exists fuel' l1 l2 l3,
        fuel = S fuel' /\
        run_at (buffer air) output l1 /\
        run_at (buffer bar) (output + VALUE_READ_OFFSET) l2 /\
        run_at (buffer wind) (output + VALUE_READ_OFFSET) l3 /\
        merge_loop fuel' air bar wind bytes_read (output + (length l1 + 2))
                   (stdout ++ row_of l1 l2 l3) = Some (Ok (out, final))) /\
  (forall air bar wind lines out final,
      Forall printable lines ->
      buffer air = crlf_lines lines ++ [fetch_data.NUL] ->
      size air = length (crlf_lines lines) ->
      merge_loop (size air) air bar wind (size air) 0 [] = Some (Ok (out, final)) ->
      final = size air /\
      exists texts,
        out = concat texts /\
        Forall2 (fun line text => exists l2 l3, text = row_of line l2 l3) lines texts).
Proof.
  split; [|split; [|split; [|split; [|split]]]].
  - intros air bar wind. apply merge_loop_total. lia.
  - intros junk a b w. unfold fetch_data.main.
    destruct (fetch_pages junk a b w) as [[[air bar] wind]| |]; try discriminate.
    destruct (merge_loop_total air bar wind (size air) (S (size air)) 0 [])
      as (r & -> & _); [lia|].
    destruct r as [[out final]| |]; discriminate.
  - intros fuel air bar wind bytes_read output stdout. apply merge_loop_left.
  - intros fuel air bar wind bytes_read output stdout l1 l2 l3. apply merge_loop_pass.
  - intros fuel air bar wind bytes_read output stdout out final. apply merge_loop_passed.
  - intros air bar wind lines out final Hp Hb Hs H.
    apply (merge_loop_crlf_rows bar wind (size air) lines [] air [] out final Hp Hb Hs H).
Qed.

Lemma merge_loop_advances_by_run_and_two_witness :
  let air := {| buffer := air_page ++ [fetch_data.NUL]; size := 81 |} in
  let bar := {| buffer := pressure_page ++ [fetch_data.NUL]; size := 81 |} in
  let wind := {| buffer := wind_page ++ [fetch_data.NUL]; size := 81 |} in
  let l1 := list_ascii_of_string "2015_02_03 09:02:34 38.86" in
  let l2 := list_ascii_of_string " 30.07" in
  let l3 := list_ascii_of_string "  3.00" in
  fetch_web_data " "%char (delivered [air_page]) = Ok air /\
  fetch_web_data " "%char (delivered [pressure_page]) = Ok bar /\
  fetch_web_data " "%char (delivered [wind_page]) = Ok wind /\
  merge_loop 3 air bar wind 81 0 []
  = merge_loop 2 air bar wind 81 (0 + (length l1 + 2)) ([] ++ row_of l1 l2 l3) /\
  0 + (length l1 + 2) = 27 /\
  merge_loop 81 air bar wind 81 0 [] = Some (Ok (merged_rows, 81)) /\
  (exists texts,
      merged_rows = concat texts /\
      Forall2 (fun line text => exists l2 l3, text = row_of line l2 l3)
              (map list_ascii_of_string
                 ["2015_02_03 09:02:34 38.86"%string; "2015_02_03 09:07:34 39.00"%string;
                  "2015_02_03 09:12:34 37.50"%string]) texts).
Proof.
  intros air bar wind l1 l2 l3.
  destruct merge_loop_advances_by_run_and_two as (_ & _ & _ & P & _ & G).
  split; [vm_compute; reflexivity|]. split; [vm_compute; reflexivity|].
  split; [vm_compute; reflexivity|]. split; [|split; [|split]].
  - apply (P 2 air bar wind 81 0 [] l1 l2 l3).
    + lia.
    + eexists. eexists. split; [vm_compute; reflexivity|].
      split; [repeat constructor | reflexivity].
    + eexists. eexists. split; [vm_compute; reflexivity|].
      split; [repeat constructor | reflexivity].
    + eexists. eexists. split; [vm_compute; reflexivity|].
      split; [repeat constructor | reflexivity].
  - reflexivity.
  - vm_compute. reflexivity.
  - apply (G air bar wind
              (map list_ascii_of_string
                 ["2015_02_03 09:02:34 38.86"%string; "2015_02_03 09:07:34 39.00"%string;
                  "2015_02_03 09:12:34 37.50"%string]) merged_rows 81).
    + repeat constructor.
    + reflexivity.
    + reflexivity.
    + vm_compute. reflexivity.
Defined.
(** * Further properties *)



(** X2.  A buffer filled by [fetch_web_data] holds [size + 1] bytes, and
    once data has arrived the byte after the data is zero. *)
Theorem fetch_web_data_zero_terminated (junk : ascii) (t : curl_transfer) (w : web_data) :
  fetch_web_data junk t = Ok w ->
  length (buffer w) = S (size w) /\
  (0 < size w -> nth_error (buffer w) (size w) = Some fetch_data.NUL).
Proof. exact (fetch_web_data_terminated junk t w). Qed.

Lemma fetch_web_data_zero_terminated_witness :
  exists w,
    fetch_web_data " "%char (delivered [air_page]) = Ok w /\
    length (buffer w) = 82 /\ nth_error (buffer w) 81 = Some fetch_data.NUL.
Proof.
  exists {| buffer := air_page ++ [fetch_data.NUL]; size := length air_page |}.
  split; [reflexivity|].
  destruct (fetch_web_data_zero_terminated " "%char (delivered [air_page])
              {| buffer := air_page ++ [fetch_data.NUL]; size := length air_page |} eq_refl)
    as [L Z].
  split; [exact L|]. apply Z. vm_compute. lia.
Defined.

(** X3.  The reading loop of [crunch_data] ends on every input: [main]
    returns, whatever [strtof] does. *)
Theorem crunch_main_returns
        (strtof : list ascii -> outcome (float32 * list ascii)) (junk : float32)
        (allocates : nat -> nat -> bool) (input row0 date0 : list ascii) :
  exists r, crunch_data.main strtof junk allocates input row0 date0 = Some r.
Proof.
  destruct (crunch_data.main strtof junk allocates input row0 date0) as [r|] eqn:E.
  - exists r. reflexivity.
  - exfalso. exact (crunch_main_total strtof junk allocates input row0 date0 E).
Qed.

(** ** The order of [compare] *)

(** X4.  For two finite numbers with a minus sign the subtraction in
    [compare] does not wrap around, and its sign is that of the numeric
    comparison the other way round; so the [qsort] in [get_median] leaves
    a column of such numbers in descending numeric order. *)
Theorem compare_reverses_negative_finite :
  (forall a b : float32,
      negative_finite a = true -> negative_finite b = true ->
      compare a b = (as_int (bits a) - as_int (bits b))%Z /\
      (compare a b ?= 0)%Z = (value b ?= value a)%Q) /\
  (forall v : list float32,
      Forall (fun f => negative_finite f = true) v ->
      exists v', qsort compare v (length v) = Ok v' /\
                 Permutation v v' /\ StronglySorted value_ge v' /\
                 forall m w, get_median v (length v) = Ok (m, w) -> w = v').
Proof.
  split.
  - intros a b Ha Hb. exact (compare_negative_finite a b Ha Hb).
  - intros v Hv. exists (isort compare v). repeat split.
    + apply qsort_whole_column.
    + apply Permutation_sym, isort_perm.
    + apply isort_negative_finite_descending, Hv.
    + intros m w H. apply (get_median_array v m w H).
Qed.

Lemma compare_reverses_negative_finite_witness :
  (compare (of_int (-3)) (of_int (-1)) ?= 0)%Z = Gt /\
  exists v', qsort compare [of_int (-1); of_int (-3); of_int (-2)] 3 = Ok v' /\
             StronglySorted value_ge v'.
Proof.
  destruct compare_reverses_negative_finite as [P S]. split.
  - destruct (P (of_int (-3)) (of_int (-1)) eq_refl eq_refl) as [_ ->]. reflexivity.
  - destruct (S [of_int (-1); of_int (-3); of_int (-2)]) as (v' & Q1 & _ & Q3 & _).
    + repeat constructor.
    + exists v'. split; assumption.
Defined.

(** X5.  For a finite number [a] without and a finite number [b] with a
    minus sign, the subtraction in [compare] wraps around whenever the
    magnitude of [a] is not below that of [b]: [compare] then puts [a]
    before [b], and where the magnitudes are equal (as for [+0.0] and
    [-0.0], or [1.0] and [-1.0]) it puts each of the two before the
    other.  Only when the magnitude of [b] is the larger one does [b]
    come first. *)
Theorem compare_wraps_on_mixed_signs (a b : float32) :
  nonneg_finite a = true -> negative_finite b = true ->
  ((compare a b < 0)%Z <-> (- value b <= value a)%Q) /\
  ((0 < compare a b)%Z <-> (value a < - value b)%Q) /\
  ((compare b a < 0)%Z <-> (value a <= - value b)%Q) /\
  ((0 < compare b a)%Z <-> (- value b < value a)%Q).
Proof.
  intros Ha Hb.
  destruct (int_key_nonneg a Ha) as [Ka Ra].
  destruct (int_key_negative b Hb) as [Kb Rb].
  destruct (negative_finite_inv b Hb) as (Vb & _ & Nb).
  pose proof (value_compare_compare (SFabs b) a Nb Ha) as C.
  rewrite (compare_nonneg_finite _ _ Nb Ha) in C.
  rewrite (Qcompare_comp _ _ (value_negative b Hb) _ _ (Qeq_refl (value a))) in C.
  assert (Eab : compare a b =
                (if bits a <? bits (SFabs b)
                 then bits a - bits (SFabs b) + 2 ^ 31
                 else bits a - bits (SFabs b) - 2 ^ 31)%Z).
  { unfold compare. fold (int_key a) (int_key b). rewrite Ka, Kb. unfold wrap_int.
    destruct (Z.ltb_spec (bits a) (bits (SFabs b))).
    - rewrite Z.mod_small; pow2; lia.
    - replace (bits a - (bits (SFabs b) - 2 ^ 31) + 2 ^ 31)%Z
        with (bits a - bits (SFabs b) + 1 * 2 ^ 32)%Z by (pow2; lia).
      rewrite Z.mod_add by (pow2; lia). rewrite Z.mod_small; pow2; lia. }
  assert (Eba : compare b a =
                (if bits a <=? bits (SFabs b)
                 then bits (SFabs b) - bits a - 2 ^ 31
                 else bits (SFabs b) - bits a + 2 ^ 31)%Z).
  { unfold compare. fold (int_key a) (int_key b). rewrite Ka, Kb. unfold wrap_int.
    destruct (Z.leb_spec (bits a) (bits (SFabs b))).
    - rewrite Z.mod_small; pow2; lia.
    - replace (bits (SFabs b) - 2 ^ 31 - bits a + 2 ^ 31)%Z
        with (bits (SFabs b) - bits a + 2 ^ 32 + (-1) * 2 ^ 32)%Z by (pow2; lia).
      rewrite Z.mod_add by (pow2; lia). rewrite Z.mod_small; pow2; lia. }
  rewrite Eab, Eba.
  destruct (Z.compare_spec (bits (SFabs b) - bits a) 0) as [E|L|G].
  - apply Qeq_alt in C.
    destruct (Z.ltb_spec (bits a) (bits (SFabs b))); [lia|].
    destruct (Z.leb_spec (bits a) (bits (SFabs b))); [|lia].
    rewrite C. pow2. repeat split; intros; try lia;
      try apply Qle_refl; exfalso; eapply Qlt_irrefl; eassumption.
  - apply Qlt_alt in C.
    destruct (Z.ltb_spec (bits a) (bits (SFabs b))); [lia|].
    destruct (Z.leb_spec (bits a) (bits (SFabs b))); [lia|].
    pow2. repeat split; intros; try lia; try assumption;
      try (apply Qlt_le_weak; assumption).
    + exfalso. apply (Qlt_irrefl (value a)). eapply Qlt_trans; eassumption.
    + exfalso. apply (Qlt_irrefl (value a)). eapply Qle_lt_trans; eassumption.
  - apply Qgt_alt in C.
    destruct (Z.ltb_spec (bits a) (bits (SFabs b))); [|lia].
    destruct (Z.leb_spec (bits a) (bits (SFabs b))); [|lia].
    pow2. repeat split; intros; try lia; try assumption;
      try (apply Qlt_le_weak; assumption).
    + exfalso. apply (Qlt_irrefl (value a)). eapply Qlt_le_trans; eassumption.
    + exfalso. apply (Qlt_irrefl (value a)). eapply Qlt_trans; eassumption.
Qed.

Lemma compare_wraps_on_mixed_signs_witness :
  (compare (of_int 2) (of_int (-1)) < 0)%Z /\
  (compare fzero (S754_zero true) < 0)%Z /\
  (compare (S754_zero true) fzero < 0)%Z.
Proof.
  destruct (compare_wraps_on_mixed_signs (of_int 2) (of_int (-1)) eq_refl eq_refl)
    as (A & _).
  destruct (compare_wraps_on_mixed_signs fzero (S754_zero true) eq_refl eq_refl)
    as (B & _ & C & _).
  split; [|split].
  - apply A. vm_compute. discriminate.
  - apply B. vm_compute. discriminate.
  - apply C. vm_compute. discriminate.
Defined.

(** X6.  [compare] returns 0 only for two objects with the same bit
    pattern: numbers that are not NaN compare equal exactly when they are
    the same number with the same sign, so [+0.0] and [-0.0] do not. *)
Theorem compare_zero_only_for_same_pattern (a b : float32) :
  valid a = true -> valid b = true -> is_nan a = false -> is_nan b = false ->
  (compare a b = 0%Z <-> a = b).
Proof.
  intros Va Vb _ _. split.
  - intros H. apply int_key_inj; try assumption.
    pose proof (int_key_range a Va) as Ra. pose proof (int_key_range b Vb) as Rb.
    unfold compare, wrap_int in H. fold (int_key a) (int_key b) in H.
    pose proof (Z.div_mod (int_key a - int_key b + 2 ^ 31) (2 ^ 32)) as D.
    pose proof (Z.mod_pos_bound (int_key a - int_key b + 2 ^ 31) (2 ^ 32)) as B.
    pow2. lia.
  - intros ->. unfold compare. rewrite Z.sub_diag. reflexivity.
Qed.

Lemma compare_zero_only_for_same_pattern_witness :
  compare fzero (S754_zero true) <> 0%Z /\ compare (dec2 3007) (dec2 3007) = 0%Z.
Proof.
  split.
  - intros H.
    apply (compare_zero_only_for_same_pattern fzero (S754_zero true)
             eq_refl eq_refl eq_refl eq_refl) in H.
    discriminate H.
  - apply (compare_zero_only_for_same_pattern (dec2 3007) (dec2 3007));
      reflexivity.
Defined.

(** ** Bounds of the statistics *)

(** X7.  [get_mean] reads the first [c] elements and nothing else: it
    returns their sum divided by [c] when the array holds [c] elements
    and reads outside it otherwise.  [get_median] returns a value exactly
    when the array holds [c] elements and more than [c/2+1]; otherwise it
    sorts or reads outside the array. *)
Theorem get_mean_get_median_bounds (v : list float32) (c : nat) :
  get_mean v c
  = (if c <=? length v
     then Ok (fdiv (fsum (firstn c v)) (of_int (Z.of_nat c)))
     else OutOfBounds) /\
  ((exists m v', get_median v c = Ok (m, v')) <->
   c <= length v /\ c / 2 + 1 < length v) /\
  (get_median v c = OutOfBounds <-> length v < c \/ length v <= c / 2 + 1).
Proof.
  split; [apply get_mean_cases|].
  destruct (get_median_cases v c) as [(L1 & L2 & m & v' & E & _)|(L & E)].
  - split; split.
    + intros _. split; assumption.
    + intros _. eauto.
    + rewrite E. discriminate.
    + lia.
  - split; split.
    + intros (m & v' & H). rewrite E in H. discriminate H.
    + lia.
    + intros _. exact L.
    + intros _. exact E.
Qed.

(** X8.  [main] of [crunch_data] reaches its [return(0)] on no input.
    The reading loop ends with no row or with one row stored, since a
    second row is stored outside the columns, and with fewer than three
    rows [get_median] looks at an element the column does not have: the
    report reads outside the columns. *)
Theorem crunch_main_never_reports
        (strtof : list ascii -> outcome (float32 * list ascii)) (junk : float32)
        (allocates : nat -> nat -> bool) (input row0 date0 : list ascii) :
  (forall s, crunch_data.main strtof junk allocates input row0 date0 <> Some (Ok s)) /\
  (forall st,
      read_loop strtof junk allocates (S (length input)) (initial input row0 date0)
      = Some (Ok st) ->
      row_count st <= 1 /\
      crunch_data.main strtof junk allocates input row0 date0 = Some OutOfBounds).
Proof.
  split.
  - intros s. apply crunch_main_no_summary.
  - intros st H.
    assert (S0 : columns_in_step (initial input row0 date0)) by (repeat split).
    pose proof (read_loop_in_step strtof junk allocates _ _ _ S0 H) as S1.
    pose proof (read_loop_one_row strtof junk allocates _ _ _ S0 H) as C.
    cbn [initial row_count] in C.
    split; [lia|]. unfold crunch_data.main. rewrite H.
    destruct (report_cases st S1) as [(L & _)|(_ & ->)]; [lia | reflexivity].
Qed.

Lemma crunch_main_never_reports_witness :
  let line := list_ascii_of_string "2015_02_03 09:02:34 38.86  30.07   3.00" in
  crunch_data.main strtof_decimal S754_nan (fun _ _ => true)
    (line ++ [crunch_data.newline]) (repeat " "%char 80) (repeat " "%char 11)
  = Some OutOfBounds.
Proof.
  cbv zeta.
  eapply (crunch_main_never_reports strtof_decimal S754_nan (fun _ _ => true)).
  vm_compute. reflexivity.
Defined.

(** X9.  A column that holds a NaN has the mean NaN. *)
Theorem get_mean_of_nan (v : list float32) :
  In S754_nan v -> get_mean v (length v) = Ok S754_nan.
Proof.
  intros H. rewrite get_mean_cases, Nat.leb_refl, firstn_all.
  rewrite (fsum_nan v H). reflexivity.
Qed.

Lemma get_mean_of_nan_witness :
  get_mean [dec2 3007; S754_nan; dec2 3012] 3 = Ok S754_nan.
Proof.
  apply (get_mean_of_nan [dec2 3007; S754_nan; dec2 3012]).
  right. left. reflexivity.
Defined.

(** ** Reading rows *)

(** X10.  [read_row] stores the characters up to the next newline, or the
    next byte [0xFF], from the start of the buffer and returns their
    number.  It writes no terminator, so behind the line the buffer keeps
    what it held, and a line longer than the buffer is written past its
    end. *)
Theorem read_row_fills_buffer (line rest buf : list ascii) (t : ascii) :
  plain line -> ends_row t = true ->
  read_row (line ++ t :: rest) buf 0
  = if length line <=? length buf
    then Ok (length line, overlay line buf, rest)
    else OutOfBounds.
Proof.
  intros Hp Ht.
  rewrite (read_row_line line (t :: rest) buf 0 Hp); [| right; eauto | lia].
  reflexivity.
Qed.

Lemma read_row_fills_buffer_witness :
  read_row (list_ascii_of_string "ab" ++ crunch_data.newline :: list_ascii_of_string "cd")
           (list_ascii_of_string "wxyz") 0
  = Ok (2, list_ascii_of_string "abyz", list_ascii_of_string "cd") /\
  read_row (list_ascii_of_string "abcde" ++ EOF_byte :: []) (list_ascii_of_string "wxyz") 0
  = OutOfBounds.
Proof.
  split.
  - apply (read_row_fills_buffer (list_ascii_of_string "ab") (list_ascii_of_string "cd")
             (list_ascii_of_string "wxyz") crunch_data.newline).
    + repeat constructor.
    + reflexivity.
  - apply (read_row_fills_buffer (list_ascii_of_string "abcde") []
             (list_ascii_of_string "wxyz") EOF_byte).
    + repeat constructor.
    + reflexivity.
Defined.

(** X11.  On input that starts with a non-empty line that fits the row
    buffer and is closed by a newline, the first pass of the loop of
    [main] sets the date string from the first ten characters of the line
    and stores in the three columns the values that the three calls of
    [strtof] return for the row buffer as the line left it.  If the end of
    the input, a blank line or a byte [0xFF] follows, the loop ends in
    that state; if a second line follows, the loop ends outside the
    columns or in an exit. *)
Theorem crunch_first_row_from_line
        (strtof : list ascii -> outcome (float32 * list ascii)) (junk : float32)
        (allocates : nat -> nat -> bool)
        (line : list ascii) (more : list (list ascii)) (tail row0 date0 : list ascii)
        (a b w : float32) :
  plain line -> 0 < length line <= length row0 ->
  Forall (fun l => plain l /\ 0 < length l) more ->
  tail = [] \/ (exists t rest, tail = t :: rest /\ ends_row t = true) ->
  10 <= length row0 -> 11 <= length date0 ->
  allocates 0 0 = true -> allocates 0 1 = true -> allocates 0 2 = true ->
  row_values strtof (overlay line row0) = Ok (a, b, w) ->
  let input := newline_lines (line :: more) ++ tail in
  let st1 := with_stdin (newline_lines more ++ tail) (first_row line a b w row0 date0) in
  crunch_data.rows strtof junk allocates 1 (initial input row0 date0) = Ok (Some st1) /\
  (more = [] ->
   read_loop strtof junk allocates (S (length input)) (initial input row0 date0)
   = Some (Ok st1)) /\
  (more <> [] ->
   forall st, read_loop strtof junk allocates (S (length input)) (initial input row0 date0)
              <> Some (Ok st)).
Proof.
  intros Hp Hl Hm Ht Hr Hd A0 A1 A2 Hv input st1.
  assert (F : exists fuel, length input = S fuel).
  { unfold input, newline_lines. cbn [map concat]. rewrite !length_app. cbn [length].
    exists (length line + 0 + length (concat (map (fun l => l ++ [crunch_data.newline]) more))
            + length tail).
    lia. }
  destruct F as [fuel ->].
  apply read_loop_first_row; assumption.
Qed.

Lemma crunch_first_row_from_line_witness :
  exists st,
    crunch_data.rows strtof_decimal S754_nan (fun _ _ => true) 1
      (initial merged_rows (repeat " "%char 80) (repeat " "%char 11)) = Ok (Some st) /\
    air_temp st = [dec2 3886] /\ bar_press st = [dec2 3007] /\
    wind_speed st = [dec2 300] /\
    date_string st = list_ascii_of_string "2015-02-03" ++ [crunch_data.NUL].
Proof.
  destruct (crunch_first_row_from_line strtof_decimal S754_nan (fun _ _ => true)
              (list_ascii_of_string "2015_02_03 09:02:34 38.86  30.07   3.00")
              (map list_ascii_of_string
                 ["2015_02_03 09:07:34 39.00  29.91   5.00"%string;
                  "2015_02_03 09:12:34 37.50  30.12   1.00"%string])
              [] (repeat " "%char 80) (repeat " "%char 11)
              (dec2 3886) (dec2 3007) (dec2 300))
    as (R & _ & _).
  - repeat constructor.
  - simpl. lia.
  - repeat constructor; simpl; lia.
  - left. reflexivity.
  - simpl. lia.
  - simpl. lia.
  - reflexivity.
  - reflexivity.
  - reflexivity.
  - vm_compute. reflexivity.
  - eexists. split; [exact R|]. repeat split.
Defined.

(** X12.  What follows a blank line is never read: [main] returns the
    same for every input that continues after two newlines in a row as
    for the input that ends there. *)
Theorem crunch_stops_at_blank_line
        (strtof : list ascii -> outcome (float32 * list ascii)) (junk : float32)
        (allocates : nat -> nat -> bool) (input rest row0 date0 : list ascii) :
  crunch_data.main strtof junk allocates (input ++ blank ++ rest) row0 date0
  = crunch_data.main strtof junk allocates (input ++ blank) row0 date0.
Proof.
  unfold crunch_data.main.
  set (st1 := initial (input ++ blank ++ rest) row0 date0).
  set (st2 := initial (input ++ blank) row0 date0).
  assert (A : alike st1 st2).
  { split; [reflexivity|]. left. exists input, rest, []. split; [reflexivity|].
    cbn [stdin st2 initial]. rewrite app_nil_r. reflexivity. }
  destruct (read_loop_total strtof junk allocates (S (length (input ++ blank))) st2)
    as [r2 E2]; [cbn; lia|].
  pose proof (read_loop_alike strtof junk allocates (S (length (input ++ blank))) st1 st2 A)
    as R.
  rewrite E2 in R.
  destruct (read_loop strtof junk allocates (S (length (input ++ blank))) st1)
    as [r1|] eqn:E1; [|destruct r2 as [?| |]; contradiction].
  rewrite (read_loop_more_fuel strtof junk allocates _ _ _
             (S (length (input ++ blank ++ rest))) E1), E2
    by (rewrite !length_app; lia).
  destruct r1 as [a| |], r2 as [b| |]; try contradiction; try reflexivity.
  2: destruct R as [-> ->]; reflexivity.
  rewrite <- (report_with_stdin [] a), <- (report_with_stdin [] b), R. reflexivity.
Qed.

(** ** The pages of [fetch_data] *)

(** X13.  However the transfer cuts a page into pieces, once a piece has
    arrived the buffer of [fetch_web_data] holds the pieces one after the
    other and a zero byte behind them, and [size] is the number of bytes
    of the page. *)
Theorem fetch_web_data_joins_pieces
        (junk : ascii) (piece : list ascii) (pieces : list (list ascii)) :
  fetch_web_data junk (delivered (piece :: pieces))
  = Ok {| buffer := concat (piece :: pieces) ++ [fetch_data.NUL];
          size := length (concat (piece :: pieces)) |}.
Proof. apply fetch_web_data_concat. discriminate. Qed.

(** X14.  Every [exit] of [main] from the transfers on has status 1 and
    one of four messages: no curl handle, no memory for the page, a
    failed transfer, or the error page.  Once the air temperature page has
    arrived, the run ends with the two lines about the error page if the
    text of that page, up to its first zero byte, contains [error.html],
    before the other two pages are asked for; and when all three
    transfers go well, that is the only way for the run to end in an
    [exit]. *)
Theorem fetch_exits_on_error_page
        (junk : ascii) (piece : list ascii) (pieces : list (list ascii)) :
  let page := c_string (concat (piece :: pieces)) in
  (forall air bar wind s e,
      fetch_data.main junk air bar wind = Some (Exit s e) ->
      s = 1%Z /\
      (e = no_curl \/ e = no_buffer \/ (exists strerror, e = curl_failed strerror) \/
       e = web_page_error)) /\
  (forall bar wind,
      (exists pre post, page = pre ++ error_html ++ post) ->
      fetch_data.main junk (delivered (piece :: pieces)) bar wind
      = Some (Exit 1 web_page_error)) /\
  (forall bar wind s e,
      fetch_data.main junk (delivered (piece :: pieces)) (delivered bar) (delivered wind)
      = Some (Exit s e) <->
      s = 1%Z /\ e = web_page_error /\
      exists pre post, page = pre ++ error_html ++ post).
Proof.
  cbv zeta. split; [|split].
  - intros air bar wind s e H. apply main_exit in H.
    exact (fetch_pages_exit _ _ _ _ _ _ H).
  - intros bar wind H. apply strstr_iff in H.
    unfold fetch_data.main. rewrite fetch_pages_first, H. reflexivity.
  - intros bar wind s e. rewrite <- strstr_iff. split.
    + intros H. apply main_exit in H. rewrite fetch_pages_first in H.
      destruct (strstr _ error_html); [injection H as <- <-; auto|].
      exfalso.
      destruct (fetch_web_data_delivered junk bar) as [b Eb].
      destruct (fetch_web_data_delivered junk wind) as [w Ew].
      rewrite Eb, Ew in H. discriminate H.
    + intros (-> & -> & H). unfold fetch_data.main. rewrite fetch_pages_first, H.
      reflexivity.
Qed.

Lemma fetch_exits_on_error_page_witness :
  let page := list_ascii_of_string "<a href=error.html>" in
  fetch_data.main " "%char (delivered [page]) (delivered []) (delivered [])
  = Some (Exit 1 web_page_error) /\
  forall s e,
    fetch_data.main " "%char (delivered [air_page]) (delivered [pressure_page])
                    (delivered [wind_page]) <> Some (Exit s e).
Proof.
  cbv zeta. split.
  - destruct (fetch_exits_on_error_page " "%char
                (list_ascii_of_string "<a href=error.html>") []) as (_ & E & _).
    apply E.
    exists (list_ascii_of_string "<a href="), (list_ascii_of_string ">"). reflexivity.
  - intros s e H.
    destruct (fetch_exits_on_error_page " "%char air_page []) as (_ & _ & E).
    apply E in H.
    destruct H as (_ & _ & H). apply strstr_iff in H. vm_compute in H. discriminate H.
Defined.

(** X15.  Three pages whose lines are printable, closed by CR LF and, row
    by row, of one length of at least 19 characters, merge into one row
    per line: the line of the air page, a blank, the pressure line from
    its 20th character on, a blank, the wind line from its 20th character
    on, and a newline.  The values come out as they stand in the pages. *)
Theorem fetch_merges_aligned_pages
        (junk : ascii) (air bar wind : list (list ascii))
        (rows : list (list ascii * list ascii * list ascii)) :
  Forall aligned rows ->
  air <> [] -> bar <> [] -> wind <> [] ->
  concat air = crlf_lines (map line_a rows) ->
  concat bar = crlf_lines (map line_b rows) ->
  concat wind = crlf_lines (map line_w rows) ->
  strstr (concat air) error_html = false ->
  fetch_data.main junk (delivered air) (delivered bar) (delivered wind)
  = Some (Ok (concat (map merged_row rows))).
Proof. intros. apply main_aligned with (rows := rows); assumption. Qed.

Lemma fetch_merges_aligned_pages_witness :
  fetch_data.main " "%char (delivered [air_page]) (delivered [pressure_page])
                  (delivered [wind_page]) = Some (Ok merged_rows).
Proof.
  apply (fetch_merges_aligned_pages " "%char [air_page] [pressure_page] [wind_page]
           [(list_ascii_of_string "2015_02_03 09:02:34 38.86",
             list_ascii_of_string "2015_02_03 09:02:34 30.07",
             list_ascii_of_string "2015_02_03 09:02:34  3.00");
            (list_ascii_of_string "2015_02_03 09:07:34 39.00",
             list_ascii_of_string "2015_02_03 09:07:34 29.91",
             list_ascii_of_string "2015_02_03 09:07:34  5.00");
            (list_ascii_of_string "2015_02_03 09:12:34 37.50",
             list_ascii_of_string "2015_02_03 09:12:34 30.12",
             list_ascii_of_string "2015_02_03 09:12:34  1.00")]).
  - repeat constructor.
  - discriminate.
  - discriminate.
  - discriminate.
  - reflexivity.
  - reflexivity.
  - reflexivity.
  - reflexivity.
Defined.

(** X16.  The rows that [fetch_data] writes for aligned pages start with
    a row that [crunch_data] reads, as long as it fits the row buffer:
    the first pass of the reading loop stores the three values that
    [strtof] returns for that row, and the date string becomes the first
    ten characters of the first line of the air page with [_] turned into
    [-].  [crunch_data] does not come to report on them: its [main] does
    not reach [return(0)]. *)
Theorem fetch_output_first_row_read
        (strtof : list ascii -> outcome (float32 * list ascii)) (fjunk : float32)
        (allocates : nat -> nat -> bool)
        (junk : ascii) (air bar wind : list (list ascii))
        (r : list ascii * list ascii * list ascii)
        (more : list (list ascii * list ascii * list ascii))
        (row0 date0 : list ascii) (a b w : float32) :
  Forall aligned (r :: more) ->
  length (merged_text r) <= length row0 ->
  air <> [] -> bar <> [] -> wind <> [] ->
  concat air = crlf_lines (map line_a (r :: more)) ->
  concat bar = crlf_lines (map line_b (r :: more)) ->
  concat wind = crlf_lines (map line_w (r :: more)) ->
  strstr (concat air) error_html = false ->
  10 <= length row0 -> 11 <= length date0 ->
  allocates 0 0 = true -> allocates 0 1 = true -> allocates 0 2 = true ->
  row_values strtof (overlay (merged_text r) row0) = Ok (a, b, w) ->
  exists out st,
    fetch_data.main junk (delivered air) (delivered bar) (delivered wind) = Some (Ok out) /\
    crunch_data.rows strtof fjunk allocates 1 (initial out row0 date0) = Ok (Some st) /\
    row_count st = 1 /\
    air_temp st = [a] /\ bar_press st = [b] /\ wind_speed st = [w] /\
    date_string st
    = map underscore_to_hyphen (firstn 10 (line_a r)) ++ crunch_data.NUL :: skipn 11 date0 /\
    forall s, crunch_data.main strtof fjunk allocates out row0 date0 <> Some (Ok s).
Proof.
  intros Hal Hfit Na Nb Nw Ea Eb Ew Hs Hr Hd A0 A1 A2 Hv.
  exists (concat (map merged_row (r :: more))).
  inversion Hal as [|? ? Hrow Hmore]; subst.
  destruct (merged_text_plain r Hrow) as [P L].
  destruct (read_loop_first_row strtof fjunk allocates (merged_text r)
              (map merged_text more) [] row0 date0 a b w 0) as (R & _ & _);
    try assumption.
  - lia.
  - clear - Hmore. induction Hmore as [|x xs H _ IH]; cbn [map]; constructor.
    + exact (merged_text_plain x H).
    + exact IH.
  - left. reflexivity.
  - rewrite app_nil_r in R. change (merged_text r :: map merged_text more)
      with (map merged_text (r :: more)) in R. rewrite <- merged_rows_lines in R.
    eexists. split; [apply main_aligned; assumption|].
    split; [exact R|].
    cbn [with_stdin first_row row_count air_temp bar_press wind_speed date_string].
    repeat split.
    + destruct r as [[la lb] lw]. cbn [line_a fst]. rewrite (merged_text_date la lb lw row0 Hrow).
      reflexivity.
    + intros s. apply crunch_main_no_summary.
Qed.

Lemma fetch_output_first_row_read_witness :
  exists out st,
    fetch_data.main " "%char (delivered [air_page]) (delivered [pressure_page])
                    (delivered [wind_page]) = Some (Ok out) /\
    crunch_data.rows strtof_decimal S754_nan (fun _ _ => true) 1
      (initial out (repeat " "%char 80) (repeat " "%char 11)) = Ok (Some st) /\
    air_temp st = [dec2 3886] /\ bar_press st = [dec2 3007] /\
    wind_speed st = [dec2 300] /\
    date_string st = list_ascii_of_string "2015-02-03" ++ [crunch_data.NUL].
Proof.
  destruct (fetch_output_first_row_read strtof_decimal S754_nan (fun _ _ => true)
              " "%char [air_page] [pressure_page] [wind_page]
              (list_ascii_of_string "2015_02_03 09:02:34 38.86",
               list_ascii_of_string "2015_02_03 09:02:34 30.07",
               list_ascii_of_string "2015_02_03 09:02:34  3.00")
              [(list_ascii_of_string "2015_02_03 09:07:34 39.00",
                list_ascii_of_string "2015_02_03 09:07:34 29.91",
                list_ascii_of_string "2015_02_03 09:07:34  5.00");
               (list_ascii_of_string "2015_02_03 09:12:34 37.50",
                list_ascii_of_string "2015_02_03 09:12:34 30.12",
                list_ascii_of_string "2015_02_03 09:12:34  1.00")]
              (repeat " "%char 80) (repeat " "%char 11)
              (dec2 3886) (dec2 3007) (dec2 300))
    as (out & st & F & R & _ & Ha & Hb & Hw & Hd & _).
  - repeat constructor.
  - simpl. lia.
  - discriminate.
  - discriminate.
  - discriminate.
  - reflexivity.
  - reflexivity.
  - reflexivity.
  - reflexivity.
  - simpl. lia.
  - simpl. lia.
  - reflexivity.
  - reflexivity.
  - reflexivity.
  - vm_compute. reflexivity.
  - exists out, st. rewrite Hd. repeat split; assumption.
Defined.

(** X17.  [write_line] writes the printable characters that stand at
    [text + offset], up to the first byte that is not printable, and
    returns [offset] plus their number plus 2, whatever that byte and the
    byte after it are.  When only printable bytes follow up to the end of
    the buffer, it reads past the buffer. *)
Theorem write_line_stops_at_unprintable (buf : list ascii) (pos offset : nat) :
  (forall out n,
      write_line buf pos offset = Ok (out, n) <->
      n = offset + length out + 2 /\
      exists c rest, skipn (pos + offset) buf = out ++ c :: rest /\
                     printable out /\ isprint c = false) /\
  (write_line buf pos offset = OutOfBounds <-> printable (skipn (pos + offset) buf)).
Proof.
  unfold write_line. split.
  - intros out n. split.
    + destruct (print_run (skipn (pos + offset) buf)) as [o| |] eqn:E; cbn [bind];
        try discriminate.
      intros [= <- <-]. split; [reflexivity|]. apply print_run_ok_iff. exact E.
    + intros (-> & H). apply print_run_ok_iff in H. rewrite H. reflexivity.
  - rewrite <- print_run_out_of_bounds_iff.
    destruct (print_run (skipn (pos + offset) buf)) as [o| |]; cbn [bind];
      split; intros H; try reflexivity; discriminate H.
Qed.

(** ** The date and the addresses *)

(** X18.  [set_address_date] overwrites the bytes 31 to 34 of the address
    with the first four characters of [year] and the bytes 36 to 45 with
    the first ten characters of [date]; every other byte and the length
    of the address stay.  An address of fewer than 46 bytes, a year of
    fewer than 4 or a date of fewer than 10 makes it read or write
    outside an array. *)
Theorem set_address_date_patches (address year date : list ascii) :
  (DATE_OFFSET + DATE_SIZE <= length address ->
   YEAR_SIZE <= length year -> DATE_SIZE <= length date ->
   set_address_date address year date
   = Ok (firstn YEAR_OFFSET address ++ firstn YEAR_SIZE year
           ++ firstn 1 (skipn (YEAR_OFFSET + YEAR_SIZE) address)
           ++ firstn DATE_SIZE date ++ skipn (DATE_OFFSET + DATE_SIZE) address)) /\
  (length address < DATE_OFFSET + DATE_SIZE \/ length year < YEAR_SIZE \/
   length date < DATE_SIZE ->
   set_address_date address year date = OutOfBounds).
Proof.
  split.
  - apply set_address_date_spec.
  - apply set_address_date_out_of_bounds.
Qed.

Lemma set_address_date_patches_witness :
  set_address_date wind_speed_address (list_ascii_of_string "2015")
                   (list_ascii_of_string "2015_02_03")
  = Ok (char_array "http://lpo.dt.navy.mil/data/DM/2015/2015_02_03/Wind_Speed") /\
  set_address_date (list_ascii_of_string "http://lpo.dt.navy.mil/")
                   (list_ascii_of_string "2015") (list_ascii_of_string "2015_02_03")
  = OutOfBounds.
Proof.
  split.
  - rewrite (proj1 (set_address_date_patches wind_speed_address
                      (list_ascii_of_string "2015") (list_ascii_of_string "2015_02_03")));
      [reflexivity | vm_compute; lia | vm_compute; lia | vm_compute; lia].
  - apply (set_address_date_patches (list_ascii_of_string "http://lpo.dt.navy.mil/")
             (list_ascii_of_string "2015") (list_ascii_of_string "2015_02_03")).
    left. vm_compute. lia.
Defined.

(** X19.  Started with an argument whose first eight characters are
    digits [YYYYMMDD], [fetch_data] transfers and merges the pages
    [Air_Temp], [Barometric_Press] and [Wind_Speed] under
    [http://lpo.dt.navy.mil/data/DM/YYYY/YYYY_MM_DD/].  Whatever follows
    the eight digits is not looked at, and neither the month nor the day
    is checked for being one. *)
Theorem fetch_addresses_for_date
        (transfer : list ascii -> curl_transfer) (junk : ascii)
        (year0 datestring0 : list ascii)
        (y1 y2 y3 y4 m1 m2 d1 d2 : ascii) (rest : list ascii) (today : tm) :
  5 <= length year0 -> 11 <= length datestring0 ->
  Forall digit [y1; y2; y3; y4; m1; m2; d1; d2] ->
  run transfer junk year0 datestring0
      (Some (y1 :: y2 :: y3 :: y4 :: m1 :: m2 :: d1 :: d2 :: rest)) today
  = fetch_data.main junk
      (transfer (address_of [y1; y2; y3; y4] [m1; m2] [d1; d2] "Air_Temp"))
      (transfer (address_of [y1; y2; y3; y4] [m1; m2] [d1; d2] "Barometric_Press"))
      (transfer (address_of [y1; y2; y3; y4] [m1; m2] [d1; d2] "Wind_Speed")).
Proof.
  intros year_size datestring_size H. unfold run.
  destruct (list_eq_dec ascii_dec _ _) as [E|_].
  { exfalso. inversion H as [|? ? D _]; subst. unfold digit in D.
    rewrite c_string_cons in E by (apply isdigit_not_NUL; exact D).
    injection E as -> _. discriminate D. }
  rewrite date_given_spec; [| | exact year_size | exact datestring_size].
  - cbn [option_map app].
    pose proof (addresses_spec y1 y2 y3 y4 m1 m2 d1 d2 NUL NUL
                  (skipn 5 year0) (skipn 11 datestring0) H) as A.
    destruct (addresses _ _) as [[[a b] w]| |]; try contradiction.
    destruct A as (-> & -> & ->). reflexivity.
  - apply forallb_forall. rewrite Forall_forall in H. exact H.
Qed.

Lemma fetch_addresses_for_date_witness :
  run example_transfer " "%char (repeat " "%char 5) (repeat " "%char 11)
      (Some (char_array "20150203")) example_day
  = Some (Ok merged_rows).
Proof.
  unfold char_array. cbn [list_ascii_of_string app].
  rewrite (fetch_addresses_for_date example_transfer " "%char
             (repeat " "%char 5) (repeat " "%char 11)).
  - vm_compute. reflexivity.
  - simpl. lia.
  - simpl. lia.
  - repeat constructor.
Defined.

(** X20.  Started with an argument other than [--help] that has a
    character which is no digit among its first eight, or that is
    shorter than eight characters, [fetch_data] ends with [exit(1)] and
    the message about the date format: it reads the argument no further
    than its terminating zero byte and transfers nothing. *)
Theorem fetch_rejects_bad_date
        (transfer : list ascii -> curl_transfer) (junk : ascii)
        (year0 datestring0 : list ascii) (s t : list ascii) (today : tm) :
  c_string (s ++ fetch_data.NUL :: t) <> list_ascii_of_string "--help" ->
  forallb isdigit (firstn 8 s) && (8 <=? length s) = false ->
  run transfer junk year0 datestring0 (Some (s ++ fetch_data.NUL :: t)) today
  = Some (Exit 1 improper_date).
Proof.
  intros Hh Hd. unfold run.
  destruct (list_eq_dec ascii_dec _ _) as [E|_]; [contradiction|].
  unfold date_given. rewrite check_date_spec by lia.
  change (skipn 0 s) with s. cbn [Nat.add]. rewrite Hd. reflexivity.
Qed.

Lemma fetch_rejects_bad_date_witness :
  run example_transfer " "%char (repeat " "%char 5) (repeat " "%char 11)
      (Some (char_array "2015-02-03")) example_day
  = Some (Exit 1 improper_date) /\
  run example_transfer " "%char (repeat " "%char 5) (repeat " "%char 11)
      (Some (char_array "2015")) example_day
  = Some (Exit 1 improper_date).
Proof.
  split.
  - apply (fetch_rejects_bad_date example_transfer " "%char
             (repeat " "%char 5) (repeat " "%char 11)
             (list_ascii_of_string "2015-02-03") [] example_day).
    + discriminate.
    + reflexivity.
  - apply (fetch_rejects_bad_date example_transfer " "%char
             (repeat " "%char 5) (repeat " "%char 11)
             (list_ascii_of_string "2015") [] example_day).
    + discriminate.
    + reflexivity.
Defined.

(** X21.  Started without an argument on a day of the years 1000 to 9999,
    [fetch_data] transfers the pages of that day: the year is written
    with four digits, the month, counted from 1, and the day with two
    digits each. *)
Theorem fetch_addresses_for_today
        (transfer : list ascii -> curl_transfer) (junk : ascii)
        (year0 datestring0 : list ascii) (today : tm) :
  5 <= length year0 -> 11 <= length datestring0 ->
  (1000 <= tm_year today + 1900 <= 9999)%Z ->
  (0 <= tm_mon today <= 11)%Z -> (1 <= tm_mday today <= 31)%Z ->
  let y := four_digits (tm_year today + 1900) in
  let m := two_digits (tm_mon today + 1) in
  let d := two_digits (tm_mday today) in
  run transfer junk year0 datestring0 None today
  = fetch_data.main junk (transfer (address_of y m d "Air_Temp"))
                    (transfer (address_of y m d "Barometric_Press"))
                    (transfer (address_of y m d "Wind_Speed")).
Proof.
  intros year_size datestring_size Hy Hm Hd y m d. subst y m d.
  unfold run. rewrite date_today_spec by assumption.
  pose proof (four_digits_digits _ Hy) as Dy.
  assert (Dm : Forall digit (two_digits (tm_mon today + 1))) by (apply two_digits_digits; lia).
  assert (Dd : Forall digit (two_digits (tm_mday today))) by (apply two_digits_digits; lia).
  unfold four_digits, two_digits in *.
  set (y1 := digit_char ((tm_year today + 1900) / 1000)) in *.
  set (y2 := digit_char ((tm_year today + 1900) / 100 mod 10)) in *.
  set (y3 := digit_char ((tm_year today + 1900) / 10 mod 10)) in *.
  set (y4 := digit_char ((tm_year today + 1900) mod 10)) in *.
  set (m1 := digit_char ((tm_mon today + 1) / 10)) in *.
  set (m2 := digit_char ((tm_mon today + 1) mod 10)) in *.
  set (d1 := digit_char (tm_mday today / 10)) in *.
  set (d2 := digit_char (tm_mday today mod 10)) in *.
  cbn [app].
  assert (H : Forall digit [y1; y2; y3; y4; m1; m2; d1; d2]).
  { inversion Dy as [|? ? ? Dy1]; inversion Dy1 as [|? ? ? Dy2];
      inversion Dy2 as [|? ? ? Dy3]; inversion Dy3; subst.
    inversion Dm as [|? ? ? Dm1]; inversion Dm1; subst.
    inversion Dd as [|? ? ? Dd1]; inversion Dd1; subst.
    repeat constructor; assumption. }
  pose proof (addresses_spec y1 y2 y3 y4 m1 m2 d1 d2 NUL NUL
                (skipn 5 year0) (skipn 11 datestring0) H) as A.
  destruct (addresses _ _) as [[[a b] w]| |]; try contradiction.
  destruct A as (-> & -> & ->). reflexivity.
Qed.

Lemma fetch_addresses_for_today_witness :
  run example_transfer " "%char (repeat " "%char 5) (repeat " "%char 11)
      None example_day
  = Some (Ok merged_rows).
Proof.
  rewrite (fetch_addresses_for_today example_transfer " "%char
             (repeat " "%char 5) (repeat " "%char 11) example_day).
  - vm_compute. reflexivity.
  - simpl. lia.
  - simpl. lia.
  - vm_compute. split; discriminate.
  - vm_compute. split; discriminate.
  - vm_compute. split; discriminate.
Defined.
